(** * customer-chatbot: the query-time decision pipeline

    A shallow embedding of the parts of the repository that decide the
    behaviour of the retrieval pipeline:

    - [lib/redis/semantic-cache.ts]: the semantic cache kept in one Redis
      hash ([searchSemanticCache], [storeInSemanticCache],
      [evictOldestEntries], [cosineSimilarity]);
    - [lib/rag/orchestrator.ts]: [retrieveContext], [buildContextString],
      [cacheQueryResponse];
    - [supabase/schema.sql] and [lib/supabase/client.ts]: [match_documents],
      the backfill of [source_hash], [searchSimilarDocuments],
      [checkDocumentExists], [insertDocument];
    - [lib/rag/pdf-processor.ts]: [processText], [extractTextFromPDF],
      [processPDFDocument];
    - [lib/rate-limit/memory.ts] and [lib/rate-limit/redis.ts]: the two
      rate-limiter backends.

    JavaScript numbers are IEEE 754 binary64 values and are modelled by the
    kernel's primitive floats, so [cosineSimilarity] and [toFixed] compute
    exactly what the program computes.  Integer-valued quantities (clock
    readings, counters, sizes) are [Z] or [nat]; the numbers of the database
    are rationals, or NaN.  Strings are the UTF-8 bytes of the text.
    Asynchronous functions are programs of an error-and-state monad over the
    state of the service they talk to; every call to an external service may
    fail, according to a fault plan carried by that state. *)

From Stdlib Require Import ZArith QArith List String Ascii Bool Lia Lqa.
From Stdlib Require Import Sorting.Sorted Sorting.Permutation.
From Stdlib Require Import PrimFloat SpecFloat FloatOps FloatAxioms.
From Stdlib Require Import DecimalString.
From stdpp Require Import gmap strings.
Import ListNotations.

Local Open Scope string_scope.
Local Open Scope list_scope.
Local Open Scope Z_scope.

(* ================================================================== *)
(** * Part I: the program *)
(* ================================================================== *)

(** ** Asynchronous programs that may throw *)

Module Js.

(** The result of awaiting a promise: a value, or a thrown [Error] with
    its message. *)
Inductive Outcome (A : Type) : Type :=
| Returned (a : A)
| Thrown (message : string).

Arguments Returned {A} a.
Arguments Thrown {A} message.

(** A program over the state [W] of the world it runs in. *)
Definition Prog (W A : Type) : Type := W -> Outcome A * W.

Definition ret {W A} (a : A) : Prog W A := fun w => (Returned a, w).

Definition throw {W A} (message : string) : Prog W A :=
  fun w => (Thrown message, w).

Definition bind {W A B} (m : Prog W A) (k : A -> Prog W B) : Prog W B :=
  fun w =>
    match m w with
    | (Returned a, w') => k a w'
    | (Thrown e, w') => (Thrown e, w')
    end.

(** [try { body } catch (error) { handler }]. *)
Definition try_catch {W A} (body : Prog W A) (handler : string -> Prog W A)
  : Prog W A :=
  fun w =>
    match body w with
    | (Returned a, w') => (Returned a, w')
    | (Thrown e, w') => handler e w'
    end.

Definition gets {W A} (f : W -> A) : Prog W A := fun w => (Returned (f w), w).

Definition modify {W} (f : W -> W) : Prog W unit := fun w => (Returned tt, f w).

Definition outcome {W A} (r : Outcome A * W) : Outcome A := fst r.

Definition world {W A} (r : Outcome A * W) : W := snd r.

(** What a program does outside its own memory. *)
Inductive Action : Type :=
| RedisCommand
| EmbeddingCall
| DatabaseRequest
| Chunking.

(** A world a program can act on.  Its fault plan has one entry per
    upcoming call to an external service, [Some message] when that call
    fails with [message]; calls beyond the end of the plan succeed.  Every
    action is recorded in the journal of the world, oldest first. *)
Class Backend (W : Type) : Type := {
  pending : W -> list (option string);
  resume : list (option string) -> W -> W;
  record : Action -> W -> W
}.

(** No call planned to fail. *)
Definition quiet (plan : list (option string)) : bool :=
  forallb (fun f => match f with None => true | Some _ => false end) plan.

(** A command sent through a client that rejects on failure (ioredis, the
    OpenAI SDK): a failed command throws and leaves the service as it was. *)
Definition command {W} `{Backend W} {A} (what : Action) (op : Prog W A)
  : Prog W A :=
  fun w =>
    let w := record what w in
    match pending w with
    | Some message :: rest => (Thrown message, resume rest w)
    | None :: rest => op (resume rest w)
    | [] => op w
    end.

(** The answer of a supabase-js request: [{ data, error }]. *)
Inductive Reply (A : Type) : Type :=
| Data (data : A)
| Error (message : string).

Arguments Data {A} data.
Arguments Error {A} message.

(** A request through supabase-js never rejects: a failure of the
    transport or of the statement is reported in the [error] field. *)
Definition request {W} `{Backend W} {A} (op : W -> Reply A * W)
  : Prog W (Reply A) :=
  fun w =>
    let w := record DatabaseRequest w in
    match pending w with
    | Some message :: rest => (Returned (Error message), resume rest w)
    | None :: rest => let (a, w') := op (resume rest w) in (Returned a, w')
    | [] => let (a, w') := op w in (Returned a, w')
    end.

(** [await Promise.all(promises)] over requests that were all started: every
    one of them runs, and a failure is thrown when one of them fails.  The
    requests are taken to reach the service in the order of the list, which
    is one of the orders they can reach it in, and the failure thrown is
    then the first of the list. *)
Fixpoint promiseAll {W A} (promises : list (Prog W A)) : Prog W (list A) :=
  match promises with
  | [] => ret []
  | p :: rest =>
      fun w =>
        match p w with
        | (Returned a, w1) =>
            match promiseAll rest w1 with
            | (Returned l, w2) => (Returned (a :: l), w2)
            | (Thrown e, w2) => (Thrown e, w2)
            end
        | (Thrown e, w1) => (Thrown e, snd (promiseAll rest w1))
        end
  end.

End Js.

Export Js.

Declare Scope prog_scope.
Delimit Scope prog_scope with prog.
Notation "x <- m ;; k" := (bind m (fun x => k))
  (at level 100, m at next level, right associativity) : prog_scope.
Notation "m ;; k" := (bind m (fun _ => k))
  (at level 100, right associativity) : prog_scope.

(** ** [lib/redis/semantic-cache.ts] *)

Module SemanticCache.

Record SemanticCacheEntry : Type := {
  query : string;
  embedding : list float;
  response : string;
  timestamp : Z
}.

Definition MAX_CACHE_ENTRIES : nat := 500.

(** The Redis server as this module sees it: the fields of the one hash
    [semantic_cache:v1] in the order [HGETALL] replies them, which is the
    order [Object.values] and [Object.entries] visit them in as long as no
    field name is an array index (the names the program writes are UUIDs),
    each holding the entry its JSON text parses to; the deadline of the key in
    milliseconds, if it has one; the clock, read by [Date.now()] and by the
    server; the values [crypto.randomUUID()] is going to return; and the
    fault plan of the upcoming commands and the journal. *)
Record Redis : Type := {
  fields : list (string * SemanticCacheEntry);
  expireAt : option Z;
  clock : Z;
  uuids : nat -> string;
  drawn : nat;
  faults : list (option string);
  actions : list Action
}.

Definition setHash (h : list (string * SemanticCacheEntry)) (d : option Z)
  (w : Redis) : Redis :=
  {| fields := h; expireAt := d; clock := clock w; uuids := uuids w;
     drawn := drawn w; faults := faults w; actions := actions w |}.

Definition setFaults (plan : list (option string)) (w : Redis) : Redis :=
  {| fields := fields w; expireAt := expireAt w; clock := clock w;
     uuids := uuids w; drawn := drawn w; faults := plan; actions := actions w |}.

Definition addAction (a : Action) (w : Redis) : Redis :=
  {| fields := fields w; expireAt := expireAt w; clock := clock w;
     uuids := uuids w; drawn := drawn w; faults := faults w;
     actions := actions w ++ [a] |}.

Definition setClock (now : Z) (w : Redis) : Redis :=
  {| fields := fields w; expireAt := expireAt w; clock := now;
     uuids := uuids w; drawn := drawn w; faults := faults w;
     actions := actions w |}.

#[export] Instance Redis_Backend : Backend Redis :=
  {| pending := faults; resume := setFaults; record := addAction |}.

(** *** Math utils *)

(** The loop of [cosineSimilarity]: [i] runs over the indices of [a];
    [b[i]] past the end of [b] is [undefined], which arithmetic turns into
    [NaN]. *)
Fixpoint cosineLoop (a b : list float) (dot normA normB : float)
  : float * float * float :=
  match a with
  | [] => (dot, normA, normB)
  | ai :: a' =>
      let bi := match b with [] => nan | bi :: _ => bi end in
      cosineLoop a' (tl b)
        (dot + ai * bi)%float (normA + ai * ai)%float (normB + bi * bi)%float
  end.

Definition cosineSimilarity (a b : list float) : float :=
  let '(dot, normA, normB) := cosineLoop a b 0%float 0%float 0%float in
  (dot / (PrimFloat.sqrt normA * PrimFloat.sqrt normB))%float.

(** *** JSON *)

(** [JSON.parse(JSON.stringify(x))] on a number: [NaN] and the infinities
    are written as [null], which the arithmetic of [cosineSimilarity] reads
    as [+0]; [-0] is written as [0]; every other number is written with
    enough digits to be read back unchanged. *)
Definition jsonNumber (x : float) : float :=
  if is_nan x || is_infinity x || is_zero x then 0%float else x.

Definition jsonEntry (e : SemanticCacheEntry) : SemanticCacheEntry :=
  {| query := query e; embedding := map jsonNumber (embedding e);
     response := response e; timestamp := timestamp e |}.

(** *** The Redis commands the module uses *)

(** Keys past their deadline are gone: Redis deletes a key once the clock
    is greater than its deadline. *)
Definition expired (w : Redis) : bool :=
  match expireAt w with
  | Some deadline => deadline <? clock w
  | None => false
  end.

Definition live (w : Redis) : list (string * SemanticCacheEntry) :=
  if expired w then [] else fields w.

Definition purge (w : Redis) : Redis :=
  if expired w then setHash [] None w else w.

(** [HSET key field value]: an existing field keeps its place and takes the
    new value, a new field goes after the others. *)
Fixpoint upsert (field : string) (value : SemanticCacheEntry)
  (h : list (string * SemanticCacheEntry)) : list (string * SemanticCacheEntry) :=
  match h with
  | [] => [(field, value)]
  | (k, v) :: rest =>
      if String.eqb k field then (k, value) :: rest
      else (k, v) :: upsert field value rest
  end.

Definition hset (field : string) (value : SemanticCacheEntry) : Prog Redis unit :=
  command RedisCommand (modify (fun w =>
    let w := purge w in setHash (upsert field value (fields w)) (expireAt w) w)).

(** [EXPIRE key seconds]: nothing on a missing key; a deadline that is not
    in the future deletes the key at once. *)
Definition expire (seconds : Z) : Prog Redis unit :=
  command RedisCommand (modify (fun w =>
    let w := purge w in
    match fields w with
    | [] => w
    | _ :: _ =>
        if seconds <=? 0 then setHash [] None w
        else setHash (fields w) (Some (clock w + 1000 * seconds)) w
    end)).

Definition hlen : Prog Redis nat :=
  command RedisCommand (gets (fun w => length (live w))).

Definition hgetall : Prog Redis (list (string * SemanticCacheEntry)) :=
  command RedisCommand (gets live).

(** [HDEL key field ...]; a hash left without fields is deleted. *)
Definition removeFields (keys : list string)
  (h : list (string * SemanticCacheEntry)) : list (string * SemanticCacheEntry) :=
  List.filter (fun kv => negb (existsb (String.eqb (fst kv)) keys)) h.

Definition hdel (keys : list string) : Prog Redis unit :=
  command RedisCommand (modify (fun w =>
    let w := purge w in
    match removeFields keys (fields w) with
    | [] => setHash [] None w
    | h => setHash h (expireAt w) w
    end)).

Definition randomUUID : Prog Redis string :=
  fun w =>
    (Returned (uuids w (drawn w)),
     {| fields := fields w; expireAt := expireAt w; clock := clock w;
        uuids := uuids w; drawn := S (drawn w); faults := faults w;
        actions := actions w |}).

Definition DateNow : Prog Redis Z := gets clock.

(** *** Search *)

(** The [for ... of Object.values(entries)] loop. *)
Fixpoint scanEntries (queryEmbedding : list float) (similarityThreshold : float)
  (values : list SemanticCacheEntry) : option string :=
  match values with
  | [] => None
  | entry :: rest =>
      let similarity := cosineSimilarity queryEmbedding (embedding entry) in
      if (similarityThreshold <=? similarity)%float then Some (response entry)
      else scanEntries queryEmbedding similarityThreshold rest
  end.

Definition searchSemanticCache (queryEmbedding : list float)
  (similarityThreshold : float) : Prog Redis (option string) :=
  try_catch
    (entries <- hgetall ;;
     if Nat.eqb (length entries) 0 then ret None
     else ret (scanEntries queryEmbedding similarityThreshold (map snd entries)))%prog
    (fun _ => ret None).

(** *** Eviction (oldest first) *)

(** [Array.prototype.sort] with the comparator [a.timestamp - b.timestamp]:
    the sort is stable, so its result is the one of this insertion sort. *)
Fixpoint insertByTimestamp (x : string * Z) (l : list (string * Z))
  : list (string * Z) :=
  match l with
  | [] => [x]
  | y :: rest =>
      if snd x <=? snd y then x :: y :: rest
      else y :: insertByTimestamp x rest
  end.

Fixpoint sortByTimestamp (l : list (string * Z)) : list (string * Z) :=
  match l with
  | [] => []
  | x :: rest => insertByTimestamp x (sortByTimestamp rest)
  end.

Definition evictOldestEntries (count : nat) : Prog Redis unit :=
  (entries <- hgetall ;;
   let sorted :=
     firstn count
       (sortByTimestamp (map (fun kv => (fst kv, timestamp (snd kv))) entries)) in
   if Nat.ltb 0 (length sorted) then hdel (map fst sorted)
   else ret tt)%prog.

(** *** Store *)

Definition storeInSemanticCache (query : string) (embedding : list float)
  (response : string) (ttlSeconds : Z) : Prog Redis unit :=
  try_catch
    (id <- randomUUID ;;
     now <- DateNow ;;
     let entry :=
       {| query := query; embedding := embedding; response := response;
          timestamp := now |} in
     hset id (jsonEntry entry) ;;
     expire ttlSeconds ;;
     size <- hlen ;;
     if Nat.ltb MAX_CACHE_ENTRIES size
     then evictOldestEntries (size - MAX_CACHE_ENTRIES)
     else ret tt)%prog
    (fun _ => ret tt).

End SemanticCache.

(** ** [lib/openai/client.ts] *)

Module OpenAI.

Section Client.

Context {W : Type} `{Backend W}.

(** The embedding model [text-embedding-3-small] behind the API. *)
Variable embeddingModel : string -> list float.

Definition generateEmbedding (text : string) : Prog W (list float) :=
  try_catch
    (command EmbeddingCall (ret (embeddingModel text)))
    (fun _ => throw "Failed to generate embedding").

Definition generateBatchEmbeddings (texts : list string)
  : Prog W (list (list float)) :=
  try_catch
    (command EmbeddingCall (ret (map embeddingModel texts)))
    (fun _ => throw "Failed to generate batch embeddings").

End Client.

End OpenAI.

(** ** [lib/rag/orchestrator.ts] *)

Module Orchestrator.

Import SemanticCache.

Record RelevantDoc : Type := {
  content : string;
  similarity : float
}.

Definition newline : string := String (ascii_of_nat 10) EmptyString.

Definition decimal (n : N) : string := NilZero.string_of_uint (N.to_uint n).

(** [Number.prototype.toFixed(1)] on a positive finite number [m * 2^e]
    below [1e21]: the integer [n] for which [n / 10] is closest to the
    number, the larger one of two equally close. *)
Definition nearestTenths (m : positive) (e : Z) : Z :=
  if 0 <=? e then Z.pos m * 2 ^ e * 10
  else (2 * (Z.pos m * 10) + 2 ^ (- e)) / (2 * 2 ^ (- e)).

(** The digits of [n] with a point before the last one; a one-digit [n]
    gets a leading zero. *)
Definition withOneDecimal (n : Z) : string :=
  decimal (Z.to_N (n / 10)) ++ "." ++ decimal (Z.to_N (n mod 10)).

Section Rendering.

(** [Number::toString], which [toFixed] falls back on from [1e21] on. *)
Variable NumberToString : float -> string.

Definition toFixed1 (x : float) : string :=
  match Prim2SF x with
  | S754_nan => "NaN"
  | S754_infinity false => "Infinity"
  | S754_infinity true => "-Infinity"
  | S754_zero _ => "0.0"
  | S754_finite negative m e =>
      (if negative then "-" else "") ++
      (if (1e21 <=? abs x)%float then NumberToString (abs x)
       else withOneDecimal (nearestTenths m e))
  end.

(** The callback of [docs.map]. *)
Definition renderDoc (doc : RelevantDoc) (index : nat) : string :=
  "[Document " ++ decimal (N.of_nat (index + 1)) ++ "] (Relevance: " ++
  toFixed1 (similarity doc * 100)%float ++ "%)" ++ newline ++ content doc.

Fixpoint mapWithIndex {A B} (f : A -> nat -> B) (index : nat) (l : list A)
  : list B :=
  match l with
  | [] => []
  | x :: rest => f x index :: mapWithIndex f (S index) rest
  end.

(** [Array.prototype.join]: the result starts empty; before every element
    but the first the separator is appended, then the element. *)
Fixpoint joinFrom (sep : string) (R : string) (k : nat) (items : list string)
  : string :=
  match items with
  | [] => R
  | item :: rest =>
      joinFrom sep ((if Nat.ltb 0 k then R ++ sep else R) ++ item) (S k) rest
  end.

Definition join (sep : string) (items : list string) : string :=
  joinFrom sep "" 0 items.

Definition NO_RELEVANT_INFORMATION : string :=
  "No relevant information found in the knowledge base.".

Definition separator : string := newline ++ newline ++ "---" ++ newline ++ newline.

Definition buildContextString (docs : list RelevantDoc) : string :=
  if Nat.eqb (length docs) 0 then NO_RELEVANT_INFORMATION
  else join separator (mapWithIndex renderDoc 0 docs).

End Rendering.

Section Caching.

Variable embeddingModel : string -> list float.

Definition cacheQueryResponse (query response : string) : Prog Redis unit :=
  try_catch
    (queryEmbedding <- OpenAI.generateEmbedding embeddingModel query ;;
     storeInSemanticCache query queryEmbedding response 3600)%prog
    (fun _ => ret tt).

End Caching.

End Orchestrator.

(** ** [supabase/schema.sql] and [lib/supabase/client.ts] *)

Module Supabase.

(** A metadata value ([Record<string, unknown>], stored as JSONB). *)
Inductive JsonValue : Type :=
| JString (s : string)
| JNumber (n : Z).

(** A [float8] of the database as far as the search needs it: a number, or
    NaN.  A number is modelled by the rational it denotes and its
    arithmetic is exact: the rounding of [1 - distance] is left out. *)
Inductive float8 : Type :=
| Number (q : Q)
| NaN.

(** [1 - x]: NaN stays NaN. *)
Definition oneMinus (x : float8) : float8 :=
  match x with
  | Number q => Number (1 - q)
  | NaN => NaN
  end.

(** The order of [float8] in PostgreSQL, for comparisons and for sorting
    alike: NaN is equal to NaN and greater than every number. *)
Definition float8_le (x y : float8) : bool :=
  match x, y with
  | _, NaN => true
  | NaN, Number _ => false
  | Number a, Number b => Qle_bool a b
  end.

Definition float8_ge (x y : float8) : bool := float8_le y x.

Section Store.

(** pgvector's type [vector(1536)], the cast of a JSON array of numbers to
    it, and its cosine-distance operator [<=>], which is NaN when one of
    the two vectors has norm zero. *)
Context {vector : Type}.
Variable toVector : list float -> vector.
Variable cosine_distance : vector -> vector -> float8.

(** A row of the table [documents] (the two time columns are left out:
    nothing below reads them). *)
Record Document : Type := {
  id : string;
  content : string;
  metadata : gmap string JsonValue;
  embedding : option vector;
  source_hash : option string
}.

(** What [match_documents] returns, and [SearchResult] on the client. *)
Record SearchResult : Type := {
  result_id : string;
  result_content : string;
  result_metadata : gmap string JsonValue;
  result_similarity : float8
}.

(** The database: the rows of [documents] in scan order, the identifiers
    [gen_random_uuid()] is going to return, the fault plan and the journal. *)
Record Database : Type := {
  documents : list Document;
  rowIds : nat -> string;
  inserted : nat;
  faults : list (option string);
  actions : list Action
}.

Definition setFaults (plan : list (option string)) (w : Database) : Database :=
  {| documents := documents w; rowIds := rowIds w; inserted := inserted w;
     faults := plan; actions := actions w |}.

Definition addAction (a : Action) (w : Database) : Database :=
  {| documents := documents w; rowIds := rowIds w; inserted := inserted w;
     faults := faults w; actions := actions w ++ [a] |}.

Definition addDocument (d : Document) (w : Database) : Database :=
  {| documents := documents w ++ [d]; rowIds := rowIds w;
     inserted := S (inserted w); faults := faults w; actions := actions w |}.

#[export] Instance Database_Backend : Backend Database :=
  {| pending := faults; resume := setFaults; record := addAction |}.

(** *** [match_documents] *)

(** What the statement of [match_documents] leaves to the plan the
    database runs it with.  [visited]: the rows the plan reads, which are
    all the rows when the table is scanned, and the candidates the index
    [documents_embedding_idx] delivers when that is used (an HNSW index is
    approximate, holds no zero vector, and the [WHERE] clause filters what
    it delivers).  [place]: the order the plan leaves rows of equal
    distance in, smaller first. *)
Record Plan : Type := {
  visited : Document -> bool;
  place : Document -> Z
}.

(** The plan of a call, which may depend on its arguments and on the
    table. *)
Variable planOf : vector -> Q -> Z -> list Document -> Plan.

(** [FROM documents d WHERE 1 - (d.embedding <=> query_embedding) >=
    match_threshold]: each qualifying row the plan reads, with its
    distance.  On a row without embedding the comparison is null and the
    row does not qualify; on a distance that is NaN the similarity is NaN,
    which is greater than every threshold. *)
Fixpoint qualifying (plan : Plan) (query_embedding : vector)
  (match_threshold : Q) (rows : list Document) : list (Document * float8) :=
  match rows with
  | [] => []
  | d :: rest =>
      match embedding d with
      | Some e =>
          let distance := cosine_distance e query_embedding in
          if visited plan d &&
             float8_ge (oneMinus distance) (Number match_threshold)
          then (d, distance) :: qualifying plan query_embedding match_threshold rest
          else qualifying plan query_embedding match_threshold rest
      | None => qualifying plan query_embedding match_threshold rest
      end
  end.

(** [ORDER BY d.embedding <=> query_embedding], ascending, so NaN last;
    rows of equal distance by their place in the plan. *)
Definition precedes (plan : Plan) (x y : Document * float8) : bool :=
  if float8_le (snd x) (snd y)
  then if float8_le (snd y) (snd x)
       then place plan (fst x) <=? place plan (fst y)
       else true
  else false.

Fixpoint insertByDistance (plan : Plan) (x : Document * float8)
  (l : list (Document * float8)) : list (Document * float8) :=
  match l with
  | [] => [x]
  | y :: rest =>
      if precedes plan x y then x :: y :: rest
      else y :: insertByDistance plan x rest
  end.

Fixpoint orderByDistance (plan : Plan) (l : list (Document * float8))
  : list (Document * float8) :=
  match l with
  | [] => []
  | x :: rest => insertByDistance plan x (orderByDistance plan rest)
  end.

(** The select list: [d.id, d.content, d.metadata, 1 - (d.embedding <=>
    query_embedding) AS similarity]. *)
Definition selected (x : Document * float8) : SearchResult :=
  {| result_id := id (fst x); result_content := content (fst x);
     result_metadata := metadata (fst x);
     result_similarity := oneMinus (snd x) |}.

(** The function, for a threshold that is a number and a count that is an
    integer.  [match_count] is an [int]: a count that does not fit is
    refused before the query runs (the message, which quotes the count, is
    shortened here), and a negative one when [LIMIT] is applied. *)
Definition match_documents (query_embedding : vector) (match_threshold : Q)
  (match_count : Z) (rows : list Document) : Reply (list SearchResult) :=
  if (match_count <? -2147483648) || (2147483647 <? match_count)
  then Error "out of range for type integer"
  else if match_count <? 0 then Error "LIMIT must not be negative"
  else
    let plan := planOf query_embedding match_threshold match_count rows in
    Data (map selected
            (firstn (Z.to_nat match_count)
               (orderByDistance plan
                  (qualifying plan query_embedding match_threshold rows)))).

(** *** The client *)

(** [matchThreshold] and [matchCount] are the [number]s of the caller that
    are a finite number and an integer. *)
Definition searchSimilarDocuments (queryEmbedding : list float)
  (matchThreshold : Q) (matchCount : Z) : Prog Database (list SearchResult) :=
  (reply <- request (fun w =>
              (match_documents (toVector queryEmbedding) matchThreshold
                 matchCount (documents w), w)) ;;
   match reply with
   | Error message => throw ("Failed to search documents: " ++ message)%string
   | Data data => ret data
   end)%prog.

(** [select("id").eq("source_hash", hash).limit(1)]. *)
Definition selectIdsByHash (hash : string) (rows : list Document) : list string :=
  firstn 1
    (map id
       (List.filter
          (fun d =>
             match source_hash d with
             | Some h => String.eqb h hash
             | None => false
             end) rows)).

Definition checkDocumentExists (hash : string) : Prog Database bool :=
  (reply <- request (fun w => (Data (selectIdsByHash hash (documents w)), w)) ;;
   match reply with
   | Error _ => ret false
   | Data data => ret (Nat.ltb 0 (length data))
   end)%prog.

(** The column [source_hash] of an inserted row: [metadata.source_hash].  A
    number there reaches the column as the text of its JSON token, which is
    its decimal notation as long as the number is a safe integer, at most
    [2^53 - 1] in absolute value; larger numbers are not described. *)
Definition sourceHashOf (metadata : gmap string JsonValue) : option string :=
  match metadata !! "source_hash" with
  | Some (JString h) => Some h
  | Some (JNumber n) =>
      Some (if n <? 0
            then ("-" ++ NilZero.string_of_uint (N.to_uint (Z.abs_N n)))%string
            else NilZero.string_of_uint (N.to_uint (Z.to_N n)))
  | None => None
  end.

Definition insertDocument (content : string) (embedding : option (list float))
  (metadata : gmap string JsonValue) : Prog Database Document :=
  (reply <- request (fun w =>
              let row :=
                {| id := rowIds w (inserted w); content := content;
                   metadata := metadata;
                   embedding := option_map toVector embedding;
                   source_hash := sourceHashOf metadata |} in
              (Data row, addDocument row w)) ;;
   match reply with
   | Error message => throw ("Failed to insert document: " ++ message)%string
   | Data data => ret data
   end)%prog.

End Store.

End Supabase.

(** ** [lib/rag/pdf-processor.ts] *)

Module PdfProcessor.

Import Supabase.

(** [text.trim().length === 0] on the UTF-8 bytes of [text]: every code
    point is one of the white-space and line-terminator characters [trim]
    strips (U+0009..U+000D, U+0020, U+00A0, U+1680, U+2000..U+200A, U+2028,
    U+2029, U+202F, U+205F, U+3000, U+FEFF). *)
Fixpoint onlyWhiteSpace (bytes : list N) : bool :=
  match bytes with
  | [] => true
  | b :: rest =>
      if ((9 <=? b) && (b <=? 13) || (b =? 32))%N then onlyWhiteSpace rest
      else
        match b, rest with
        | 194%N, 160%N :: r => onlyWhiteSpace r
        | 225%N, 154%N :: 128%N :: r => onlyWhiteSpace r
        | 226%N, 128%N :: c :: r =>
            if ((128 <=? c) && (c <=? 138) || (c =? 168) || (c =? 169)
                || (c =? 175))%N
            then onlyWhiteSpace r else false
        | 226%N, 129%N :: 159%N :: r => onlyWhiteSpace r
        | 227%N, 128%N :: 128%N :: r => onlyWhiteSpace r
        | 239%N, 187%N :: 191%N :: r => onlyWhiteSpace r
        | _, _ => false
        end
  end.

(** [!text || text.trim().length === 0]. *)
Definition isBlank (text : string) : bool :=
  onlyWhiteSpace (map N_of_ascii (list_ascii_of_string text)).

Record ProcessResult : Type := {
  success : bool;
  chunksProcessed : nat
}.

Section Ingestion.

Context {vector : Type}.
Variable toVector : list float -> vector.

(** [crypto.createHash("sha256").update(text).digest("hex")]. *)
Variable sha256 : string -> string.

(** [RecursiveCharacterTextSplitter.splitText] with chunks of 500
    characters overlapping by 50. *)
Variable splitText : string -> list string.

Variable embeddingModel : string -> list float.

Definition chunkText (text : string) : Prog (@Database vector) (list string) :=
  fun w => (Returned (splitText text), record Chunking w).

(** [{ ...metadata, source_hash, chunkIndex: index, totalChunks }]. *)
Definition chunkMetadata (metadata : gmap string JsonValue)
  (source_hash : string) (index total : nat) : gmap string JsonValue :=
  <["totalChunks" := JNumber (Z.of_nat total)]>
    (<["chunkIndex" := JNumber (Z.of_nat index)]>
       (<["source_hash" := JString source_hash]> metadata)).

(** [chunks.map((chunk, index) => insertDocument(...))]: the requests, in
    the order they are started. *)
Fixpoint insertPromises (chunks : list string) (embeddings : list (list float))
  (metadata : gmap string JsonValue) (source_hash : string)
  (index total : nat) : list (Prog (@Database vector) (@Document vector)) :=
  match chunks with
  | [] => []
  | chunk :: rest =>
      insertDocument toVector chunk (nth_error embeddings index)
        (chunkMetadata metadata source_hash index total)
      :: insertPromises rest embeddings metadata source_hash (S index) total
  end.

Definition processText (text : string) (metadata : gmap string JsonValue)
  : Prog (@Database vector) ProcessResult :=
  if isBlank text then throw "No text to process"
  else
    let source_hash := sha256 text in
    (exists_ <- checkDocumentExists source_hash ;;
     if exists_ : bool then throw "DUPLICATE_DOCUMENT"
     else
       chunks <- chunkText text ;;
       embeddings <- OpenAI.generateBatchEmbeddings embeddingModel chunks ;;
       promiseAll
         (insertPromises chunks embeddings metadata source_hash 0
            (length chunks)) ;;
       ret {| success := true; chunksProcessed := length chunks |})%prog.

End Ingestion.

End PdfProcessor.

(** ** [lib/rate-limit/memory.ts] *)

Module MemoryRateLimiter.

Record LimitRecord : Type := {
  count : Z;
  resetTime : Z
}.

(** An instance: its two constructor parameters and its [limitMap]. *)
Record Limiter : Type := {
  maxRequests : Z;
  windowMs : Z;
  limitMap : gmap string LimitRecord
}.

Definition setLimitMap (m : gmap string LimitRecord) (this : Limiter) : Limiter :=
  {| maxRequests := maxRequests this; windowMs := windowMs this; limitMap := m |}.

(** [check(key)], with the reading [now] of [Date.now()]. *)
Definition check (key : string) (now : Z) (this : Limiter) : bool * Limiter :=
  let fresh :=
    (true,
     setLimitMap
       (<[key := {| count := 1; resetTime := now + windowMs this |}]>
          (limitMap this)) this) in
  match limitMap this !! key with
  | None => fresh
  | Some record =>
      if resetTime record <? now then fresh
      else if maxRequests this <=? count record then (false, this)
      else
        (true,
         setLimitMap
           (<[key := {| count := count record + 1;
                        resetTime := resetTime record |}]> (limitMap this))
           this)
  end.

Definition cleanup (now : Z) (this : Limiter) : Limiter :=
  setLimitMap
    (filter (fun kv : string * LimitRecord => resetTime (snd kv) >= now)
       (limitMap this)) this.

(** A caller issuing one [check(key)] at each of the given clock readings. *)
Fixpoint checks (key : string) (times : list Z) (this : Limiter)
  : list bool * Limiter :=
  match times with
  | [] => ([], this)
  | now :: rest =>
      let (allowed, this') := check key now this in
      let (others, final) := checks key rest this' in
      (allowed :: others, final)
  end.

Definition create (maxRequests windowMs : Z) : Limiter :=
  {| maxRequests := maxRequests; windowMs := windowMs; limitMap := ∅ |}.

Definition memoryUploadLimiter : Limiter := create 10 60000.
Definition memoryChatLimiter : Limiter := create 30 60000.

End MemoryRateLimiter.

(** ** [lib/rate-limit/redis.ts] *)

Module RedisRateLimiter.

(** A string key holding an integer, with its deadline in milliseconds. *)
Record Counter : Type := {
  value : Z;
  deadline : option Z
}.

(** The Redis server behind the limiter: its keys, its clock, the fault
    plan and the journal. *)
Record Server : Type := {
  keys : gmap string Counter;
  clock : Z;
  faults : list (option string);
  actions : list Action
}.

Definition setKeys (m : gmap string Counter) (w : Server) : Server :=
  {| keys := m; clock := clock w; faults := faults w; actions := actions w |}.

Definition setFaults (plan : list (option string)) (w : Server) : Server :=
  {| keys := keys w; clock := clock w; faults := plan; actions := actions w |}.

Definition addAction (a : Action) (w : Server) : Server :=
  {| keys := keys w; clock := clock w; faults := faults w;
     actions := actions w ++ [a] |}.

Definition setClock (now : Z) (w : Server) : Server :=
  {| keys := keys w; clock := now; faults := faults w; actions := actions w |}.

#[export] Instance Server_Backend : Backend Server :=
  {| pending := faults; resume := setFaults; record := addAction |}.

(** A key is gone once the clock is greater than its deadline. *)
Definition lookupLive (key : string) (w : Server) : option Counter :=
  match keys w !! key with
  | Some c =>
      match deadline c with
      | Some d => if d <? clock w then None else Some c
      | None => Some c
      end
  | None => None
  end.

(** [INCR key]: a missing key counts from zero and gets no deadline; an
    existing one keeps its deadline. *)
Definition incr (key : string) : Prog Server Z :=
  command RedisCommand (fun w =>
    let c :=
      match lookupLive key w with
      | Some c => {| value := value c + 1; deadline := deadline c |}
      | None => {| value := 1; deadline := None |}
      end in
    (Returned (value c), setKeys (<[key := c]> (keys w)) w)).

(** [EXPIRE key seconds]: nothing on a missing key; a deadline that is not
    in the future deletes the key at once. *)
Definition expire (key : string) (seconds : Z) : Prog Server unit :=
  command RedisCommand (modify (fun w =>
    match lookupLive key w with
    | Some c =>
        if seconds <=? 0 then setKeys (delete key (keys w)) w
        else
          setKeys
            (<[key := {| value := value c;
                         deadline := Some (clock w + 1000 * seconds) |}]>
               (keys w)) w
    | None => w
    end)).

(** An instance: its three constructor parameters. *)
Record Limiter : Type := {
  keyPrefix : string;
  maxRequests : Z;
  windowSec : Z
}.

Definition redisKeyOf (this : Limiter) (key : string) : string :=
  keyPrefix this ++ ":" ++ key.

Definition check (this : Limiter) (key : string) : Prog Server bool :=
  (let redisKey := redisKeyOf this key in
   count <- incr redisKey ;;
   (if count =? 1 then expire redisKey (windowSec this) else ret tt) ;;
   ret (count <=? maxRequests this))%prog.

(** A caller issuing one [check(key)] at each of the given readings of the
    server's clock. *)
Fixpoint checks (this : Limiter) (key : string) (times : list Z)
  : Prog Server (list bool) :=
  match times with
  | [] => ret []
  | now :: rest =>
      (modify (setClock now) ;;
       allowed <- check this key ;;
       others <- checks this key rest ;;
       ret (allowed :: others))%prog
  end.

Definition redisChatLimiter : Limiter :=
  {| keyPrefix := "chat"; maxRequests := 3; windowSec := 60 |}.

End RedisRateLimiter.

(** ** [lib/rag/orchestrator.ts]: retrieval *)

Module Retrieval.

Import Supabase.

(** An element of [relevantDocs], with the similarity as the database
    reports it. *)
Record RetrievedDoc : Type := {
  content : string;
  similarity : float8
}.

Record RAGContext : Type := {
  query : string;
  relevantDocs : list RetrievedDoc;
  cacheHit : bool
}.

Section Retrieve.

Context {vector : Type}.
Variable toVector : list float -> vector.
Variable cosine_distance : vector -> vector -> float8.
Variable planOf : vector -> Q -> Z -> list (@Document vector) -> @Plan vector.
Variable embeddingModel : string -> list float.

(** [existingEmbedding || (await generateEmbedding(query))]: an array, even
    an empty one, is truthy, so the embedding is generated only when none is
    passed. *)
Definition retrieveContext (query : string) (topK : Z) (similarityThreshold : Q)
  (existingEmbedding : option (list float))
  : Prog (@Database vector) RAGContext :=
  try_catch
    (queryEmbedding <-
       match existingEmbedding with
       | Some given => ret given
       | None => OpenAI.generateEmbedding embeddingModel query
       end ;;
     results <- searchSimilarDocuments toVector cosine_distance planOf
                  queryEmbedding similarityThreshold topK ;;
     let relevantDocs :=
       map (fun doc => {| content := result_content doc;
                          similarity := result_similarity doc |}) results in
     ret {| query := query; relevantDocs := relevantDocs; cacheHit := false |})%prog
    (fun error => throw error).

End Retrieve.

End Retrieval.

(** ** [lib/rag/pdf-processor.ts]: PDF documents *)

Module PdfDocuments.

Import Supabase PdfProcessor.

Section Extraction.

Context {vector : Type}.
Variable toVector : list float -> vector.
Variable sha256 : string -> string.
Variable splitText : string -> list string.
Variable embeddingModel : string -> list float.

(** [new PDFLoader(blob).load()] on the bytes of a file: the text of each
    page, or the error the loader throws. *)
Variable loadPDF : string -> Outcome (list string).

Definition extractTextFromPDF (buffer : string)
  : Prog (@Database vector) string :=
  try_catch
    (fun w =>
       match loadPDF buffer with
       | Returned docs =>
           (Returned (Orchestrator.join
                        (Orchestrator.newline ++ Orchestrator.newline) docs), w)
       | Thrown message => (Thrown message, w)
       end)
    (fun _ => throw "Failed to extract text from PDF").

(** [return processText(text, metadata)] hands the promise over without
    awaiting it, so only a failure of the extraction reaches the [catch],
    which throws it again. *)
Definition processPDFDocument (buffer : string)
  (metadata : gmap string JsonValue) : Prog (@Database vector) ProcessResult :=
  (text <- try_catch (extractTextFromPDF buffer) (fun error => throw error) ;;
   processText toVector sha256 splitText embeddingModel text metadata)%prog.

End Extraction.

End PdfDocuments.

(** ** [supabase/schema.sql]: the backfill of [source_hash] *)

Module Schema.

Import Supabase.

Section Backfill.

Context {vector : Type}.

(** [UPDATE documents SET source_hash = metadata->>'source_hash' WHERE
    source_hash IS NULL AND metadata ? 'source_hash'], on one row. *)
Definition backfillRow (d : @Document vector) : @Document vector :=
  match source_hash d, metadata d !! "source_hash" with
  | None, Some _ =>
      {| id := id d; content := content d; metadata := metadata d;
         embedding := embedding d; source_hash := sourceHashOf (metadata d) |}
  | _, _ => d
  end.

Definition backfill (w : @Database vector) : @Database vector :=
  {| documents := map backfillRow (documents w); rowIds := rowIds w;
     inserted := inserted w; faults := faults w; actions := actions w |}.

End Backfill.

End Schema.

(* ================================================================== *)
(** * Part II: the vocabulary of the properties *)
(* ================================================================== *)

Module CacheSpec.

Import SemanticCache.

(** The world after a command that did not fail: the command is in the
    journal and its entry of the fault plan is used up. *)
Definition settle (w : Redis) : Redis :=
  match faults w with
  | [] => addAction RedisCommand w
  | _ :: rest => setFaults rest (addAction RedisCommand w)
  end.

(** The next call to an external service is not planned to fail. *)
Definition nextSucceeds (plan : list (option string)) : Prop :=
  hd None plan = None.

Definition meets (queryEmbedding : list float) (similarityThreshold : float)
  (entry : SemanticCacheEntry) : bool :=
  (similarityThreshold <=? cosineSimilarity queryEmbedding (embedding entry))%float.

(** [answer] is what first-match lookup owes on [entries]: the response of
    the first entry, in order, that meets the threshold, and nothing when
    no entry meets it. *)
Definition FirstMatch (queryEmbedding : list float) (similarityThreshold : float)
  (entries : list SemanticCacheEntry) (answer : option string) : Prop :=
  match answer with
  | None =>
      Forall (fun e => meets queryEmbedding similarityThreshold e = false) entries
  | Some r =>
      exists before entry after,
        entries = before ++ entry :: after /\
        Forall (fun e => meets queryEmbedding similarityThreshold e = false) before /\
        meets queryEmbedding similarityThreshold entry = true /\
        r = response entry
  end.

(** What a command that succeeds leaves unchanged: the plan stays quiet
    and the clock stands. *)
Definition carriesOn (w w' : Redis) : Prop :=
  quiet (faults w') = true /\ clock w' = clock w.


(** The fields of a hash are distinct. *)
Definition wellFormed (w : Redis) : Prop := List.NoDup (map fst (fields w)).

Definition stamped (kv : string * SemanticCacheEntry) : string * Z :=
  (fst kv, timestamp (snd kv)).

(** The fields [evictOldestEntries] deletes from a hash [h] that is over
    the limit, and the hash a store leaves behind. *)
Definition evictedKeys (h : list (string * SemanticCacheEntry)) : list string :=
  map fst
    (firstn (length h - MAX_CACHE_ENTRIES) (sortByTimestamp (map stamped h))).

Definition afterEviction (h : list (string * SemanticCacheEntry))
  : list (string * SemanticCacheEntry) :=
  if Nat.ltb MAX_CACHE_ENTRIES (length h) then removeFields (evictedKeys h) h
  else h.

(** One call of [storeInSemanticCache], made when the clock reads [at_]. *)
Record StoreCall : Type := {
  at_ : Z;
  call_query : string;
  call_embedding : list float;
  call_response : string;
  call_ttl : Z
}.

Definition runStore (c : StoreCall) (w : Redis) : Redis :=
  world (storeInSemanticCache (call_query c) (call_embedding c)
           (call_response c) (call_ttl c) (setClock (at_ c) w)).

(** The entry a call writes, and the hash right after its [HSET]. *)
Definition entryOf (c : StoreCall) : SemanticCacheEntry :=
  jsonEntry {| query := call_query c; embedding := call_embedding c;
               response := call_response c; timestamp := at_ c |}.

Definition inserted (c : StoreCall) (w : Redis)
  : list (string * SemanticCacheEntry) :=
  upsert (uuids w (drawn w)) (entryOf c) (live (setClock (at_ c) w)).



(** *** First match, in the words of the specification *)










End CacheSpec.

(** Worlds and inputs the properties are tried on. *)

Module CacheExamples.

Import SemanticCache CacheSpec.

Definition entryAbout (q : string) (e : list float) (r : string) (at_ : Z)
  : SemanticCacheEntry :=
  {| query := q; embedding := e; response := r; timestamp := at_ |}.

(** A cache holding one answer, stored at time 5; the clock reads 10. *)
Definition oneAnswer : Redis :=
  {| fields := [("id0", entryAbout "weather in Paris" [1; 0]%float "sunny" 5)];
     expireAt := Some 3600005; clock := 10;
     uuids := fun _ => "id1"; drawn := 0; faults := []; actions := [] |}.

Definition emptyCache : Redis :=
  {| fields := []; expireAt := None; clock := 10;
     uuids := fun _ => "id1"; drawn := 0; faults := []; actions := [] |}.

(** The same cache when the next call to an external service is going to
    fail. *)
Definition unreachable (w : Redis) : Redis := setFaults [Some "ECONNRESET"] w.

Definition decimal (n : nat) : string := NilZero.string_of_uint (Nat.to_uint n).

Definition entryNo (i : nat) : string * SemanticCacheEntry :=
  (("entry-" ++ decimal i)%string, entryAbout "" [1; 0]%float "cached" (Z.of_nat i)).

(** A full cache: 500 entries, the [i]-th stored at time [i]. *)
Definition fullCache : Redis :=
  {| fields := map entryNo (seq 0 500); expireAt := Some 3600499;
     clock := 1000; uuids := fun n => ("new-" ++ decimal n)%string; drawn := 0;
     faults := []; actions := [] |}.

Definition aCall (now : Z) : StoreCall :=
  {| at_ := now; call_query := "q"; call_embedding := [3; 4]%float;
     call_response := "fresh"; call_ttl := 3600 |}.

Fixpoint distinct (l : list string) : bool :=
  match l with
  | [] => true
  | x :: rest => negb (existsb (String.eqb x) rest) && distinct rest
  end.

(** C2 as the specification states it. *)
Definition store_then_lookup_as_stated : Prop :=
  forall (w : Redis) (q : string) (e : list float) (r : string) (ttl : Z)
         (t : float),
    wellFormed w -> quiet (faults w) = true -> (t <=? 1)%float = true ->
    outcome (searchSemanticCache e t
               (world (storeInSemanticCache q e r ttl w)))
    = Returned (Some r).



(** The same cache on a connection that is going to drop the second
    command sent over it. *)
Definition droppingSecond (w : Redis) : Redis :=
  setFaults [None; Some "ECONNRESET"] w.

End CacheExamples.

Module ContextSpec.

Import Orchestrator.

Section Annotated.

Variable NumberToString : float -> string.

(** The percentage relevance score of a document: a hundred times its
    similarity, with one decimal, and a percent sign. *)
Definition relevance (doc : RelevantDoc) : string :=
  toFixed1 NumberToString (similarity doc * 100)%float ++ "%".

(** A document with its position and its relevance. *)
Definition annotated (position : nat) (doc : RelevantDoc) : string :=
  "[Document " ++ decimal (N.of_nat position) ++ "] (Relevance: " ++
  relevance doc ++ ")" ++ newline ++ content doc.

(** [text] is the documents, in order and numbered from [position], each
    annotated, with the separator between two of them. *)
Inductive Concatenation : nat -> list RelevantDoc -> string -> Prop :=
| concatenation_last (position : nat) (doc : RelevantDoc) :
    Concatenation position [doc] (annotated position doc)
| concatenation_more (position : nat) (doc : RelevantDoc)
    (docs : list RelevantDoc) (text : string) :
    Concatenation (S position) docs text ->
    Concatenation position (doc :: docs)
      (annotated position doc ++ separator ++ text).

End Annotated.

(** What [join] has appended after the first element. *)
Fixpoint trailing (sep : string) (items : list string) : string :=
  match items with
  | [] => ""
  | item :: rest => sep ++ item ++ trailing sep rest
  end.

Definition agents : RelevantDoc :=
  {| content := "Agents use tools"; similarity := 0.875 |}.

Definition weather : RelevantDoc :=
  {| content := "sunny"; similarity := 0.5 |}.

End ContextSpec.

Module StoreSpec.

Import Supabase.

Section Matching.

Context {vector : Type}.
Variable toVector : list float -> vector.
Variable cosine_distance : vector -> vector -> float8.

(** The record [r] reports the document [d]: its columns, and as
    similarity one minus the cosine distance between the embedding of [d]
    and the query embedding. *)
Definition reports (query_embedding : vector) (r : SearchResult)
  (d : @Document vector) : Prop :=
  exists e,
    embedding d = Some e /\
    result_id r = id d /\ result_content r = content d /\
    result_metadata r = metadata d /\
    result_similarity r = oneMinus (cosine_distance e query_embedding).

(** The similarity is a number of at least the threshold. *)
Definition atLeast (matchThreshold : Q) (similarity : float8) : Prop :=
  match similarity with
  | Number s => (matchThreshold <= s)%Q
  | NaN => False
  end.

(** The similarity is a number of at least the threshold, or it is NaN. *)
Definition passes (matchThreshold : Q) (similarity : float8) : Prop :=
  match similarity with
  | Number s => (matchThreshold <= s)%Q
  | NaN => True
  end.

(** The similarity [a] may come before [b]: a number before every smaller
    number, and anything before NaN. *)
Definition noLess (a b : float8) : Prop :=
  match a, b with
  | _, NaN => True
  | NaN, Number _ => False
  | Number x, Number y => (y <= x)%Q
  end.

Definition descending (rows : list SearchResult) : Prop :=
  StronglySorted (fun a b => noLess (result_similarity a) (result_similarity b))
    rows.

(** What a similarity search gives: every record reports a document of the
    table and has a similarity that is at least the threshold or NaN; the
    records come by descending similarity, those without a number last;
    and there are at most [matchCount] of them. *)
Definition answers (w : @Database vector) (queryEmbedding : list float)
  (matchThreshold : Q) (matchCount : Z) (rows : list SearchResult) : Prop :=
  Forall (fun r =>
            passes matchThreshold (result_similarity r) /\
            exists d, In d (documents w) /\ reports (toVector queryEmbedding) r d)
    rows /\
  descending rows /\
  (length rows <= Z.to_nat matchCount)%nat.

Definition closer (a b : @Document vector * float8) : Prop :=
  float8_le (snd a) (snd b) = true.

(** The plan reads every one of the rows, as a scan of the table does. *)
Definition readsEveryRow (plan : @Plan vector) (rows : list (@Document vector))
  : Prop :=
  forall d, In d rows -> visited plan d = true.

(** Two distances that the order of the database does not tell apart. *)
Definition tied (a b : float8) : bool := float8_le a b && float8_le b a.

(** No two of the rows are at the same distance from the query. *)
Definition distinctDistances (query_embedding : vector)
  (rows : list (@Document vector)) : Prop :=
  forall d d' e e',
    In d rows -> In d' rows -> d <> d' ->
    embedding d = Some e -> embedding d' = Some e' ->
    tied (cosine_distance e query_embedding) (cosine_distance e' query_embedding)
    = false.

Definition strictlyCloser (a b : @Document vector * float8) : Prop :=
  float8_le (snd a) (snd b) = true /\ float8_le (snd b) (snd a) = false.

End Matching.

(** The plan that scans the table and keeps rows of equal distance in scan
    order. *)
Definition scanPlan {vector : Type} : @Plan vector :=
  {| visited := fun _ => true; place := fun _ => 0 |}.

Definition alwaysScan {vector : Type}
  : vector -> Q -> Z -> list (@Document vector) -> @Plan vector :=
  fun _ _ _ _ => scanPlan.

(** An instance to try the search on.  Vectors are the arrays themselves,
    and the distance is one minus the cosine similarity computed in
    binary64 as [cosineSimilarity] computes it, NaN when that is NaN, as it
    is when one of the vectors is zero.  (pgvector sums in single
    precision, so its numbers may differ in the last digits.) *)
Definition rational (x : float) : Q :=
  match Prim2SF x with
  | S754_finite negative m e =>
      (if negative then - (1) else 1) * inject_Z (Z.pos m) * Qpower 2 e
  | _ => 0
  end.

Definition binary64Distance (a b : list float) : float8 :=
  let similarity := SemanticCache.cosineSimilarity a b in
  if is_nan similarity then NaN else Number (1 - rational similarity).

Definition document (name : string) (e : option (list float))
  : @Document (list float) :=
  {| id := name; content := name; metadata := ∅; embedding := e;
     source_hash := None |}.

Definition library : @Database (list float) :=
  {| documents := [document "far" (Some [4; -3]%float);
                   document "near" (Some [3; 4]%float);
                   document "bare" None;
                   document "close" (Some [0; 1]%float)];
     rowIds := fun _ => "row"; inserted := 0; faults := []; actions := [] |}.

(** The record of a document of the library whose similarity is NaN. *)
Definition undefinedMatch (name : string) : SearchResult :=
  {| result_id := name; result_content := name; result_metadata := ∅;
     result_similarity := NaN |}.

(** C1 as the specification states it: whatever the vectors, their
    distances and the plan, every record returned reports a document of
    the table and has a similarity of at least the threshold, and the
    records come by descending similarity. *)
Definition search_as_stated : Prop :=
  forall (vector : Type) (toVector : list float -> vector)
         (cosine_distance : vector -> vector -> float8)
         (planOf : vector -> Q -> Z -> list (@Document vector) -> @Plan vector)
         (w : @Database vector) (queryEmbedding : list float)
         (matchThreshold : Q) (matchCount : Z) (rows : list SearchResult),
    outcome (searchSimilarDocuments toVector cosine_distance planOf
               queryEmbedding matchThreshold matchCount w) = Returned rows ->
    Forall (fun r =>
              atLeast matchThreshold (result_similarity r) /\
              exists d, In d (documents w) /\
                        reports cosine_distance (toVector queryEmbedding) r d)
      rows /\
    descending rows.

End StoreSpec.

Module IngestSpec.

Import Supabase PdfProcessor.

Section Ingestion.

Context {vector : Type}.
Variable toVector : list float -> vector.
Variable sha256 : string -> string.
Variable splitText : string -> list string.
Variable embeddingModel : string -> list float.

(** The world after a request that was answered. *)
Definition answered (w : @Database vector) : @Database vector :=
  match faults w with
  | [] => addAction DatabaseRequest w
  | _ :: rest => setFaults rest (addAction DatabaseRequest w)
  end.

(** Some row of the table carries the hash. *)
Definition stored (hash : string) (w : @Database vector) : Prop :=
  exists d, In d (documents w) /\ source_hash d = Some hash.

(** The ingestion of [text] is turned down as a duplicate before anything
    else happens: the only action is the existence request, and the table
    is as it was. *)
Definition rejectedAsDuplicate (text : string)
  (metadata : gmap string JsonValue) (w : @Database vector) : Prop :=
  let run := processText toVector sha256 splitText embeddingModel text metadata w in
  outcome run = Thrown "DUPLICATE_DOCUMENT" /\
  actions (world run) = actions w ++ [DatabaseRequest] /\
  documents (world run) = documents w.

(** [w] is the world an earlier ingestion of [text] left, having stored at
    least one chunk. *)
Definition ingestedBefore (text : string) (w : @Database vector) : Prop :=
  exists w0 metadata0 result,
    processText toVector sha256 splitText embeddingModel text metadata0 w0
    = (Returned result, w) /\
    (0 < chunksProcessed result)%nat.

(** The ingestion goes on after the existence request: the text is chunked
    and the embedding provider is called. *)
Definition goesOnToEmbed (text : string) (metadata : gmap string JsonValue)
  (w : @Database vector) : Prop :=
  let run := processText toVector sha256 splitText embeddingModel text metadata w in
  exists more,
    actions (world run)
    = actions w ++ DatabaseRequest :: Chunking :: EmbeddingCall :: more.

(** The ingestion stores the text again, one row for each of its chunks. *)
Definition ingestedAgain (text : string) (metadata : gmap string JsonValue)
  (w : @Database vector) : Prop :=
  let run := processText toVector sha256 splitText embeddingModel text metadata w in
  outcome run
  = Returned {| success := true; chunksProcessed := length (splitText text) |} /\
  exists rows,
    documents (world run) = documents w ++ rows /\
    length rows = length (splitText text) /\
    Forall (fun d => source_hash d = Some (sha256 text)) rows.

End Ingestion.

(** C6 as the specification states it: content whose hash is in the table
    is always turned down as a duplicate. *)
Definition duplicate_rejected_as_stated : Prop :=
  forall (vector : Type) (toVector : list float -> vector)
         (sha256 : string -> string) (splitText : string -> list string)
         (embeddingModel : string -> list float)
         (w : @Database vector) (text : string)
         (metadata : gmap string JsonValue),
    stored (sha256 text) w ->
    rejectedAsDuplicate toVector sha256 splitText embeddingModel text metadata w.

(** A table that holds the one chunk of "Agents use tools". *)
Definition digest (text : string) : string := "sha256:" ++ text.

Definition oneChunk (text : string) : list string := [text].

Definition constantModel (text : string) : list float := [1%float].

Definition ingested : @Database (list float) :=
  {| documents :=
       [ {| id := "row0"; content := "Agents use tools";
            metadata := {[ "source_hash" := JString (digest "Agents use tools") ]};
            embedding := Some [1%float];
            source_hash := Some (digest "Agents use tools") |} ];
     rowIds := fun _ => "row1"; inserted := 1; faults := []; actions := [] |}.

Definition emptyTable : @Database (list float) :=
  {| documents := []; rowIds := fun _ => "row0"; inserted := 0; faults := [];
     actions := [] |}.

(** Ingestion with these stand-ins for the hash, the splitter and the
    model. *)
Definition ingest (text : string) (w : @Database (list float)) :=
  PdfProcessor.processText (fun e => e) digest oneChunk constantModel text ∅ w.

End IngestSpec.

Module LimiterSpec.

(** What a limiter owes to [n] calls made for a fresh key within one
    window: the first [maxRequests] of them are let through. *)
Definition allowed (maxRequests : Z) (n : nat) : list bool :=
  map (fun i => Z.of_nat i <? maxRequests) (seq 0 n).

(** The calls of one caller within one window: those after the first come
    before the end of the window the first one opens. *)
Definition withinWindow (window first : Z) (later : list Z) : Prop :=
  Forall (fun t => t < first + window) later.

(** The local limiter with a given configuration and map. *)
Definition localLimiter (maxRequests windowMs : Z)
  (m : gmap string MemoryRateLimiter.LimitRecord) : MemoryRateLimiter.Limiter :=
  {| MemoryRateLimiter.maxRequests := maxRequests;
     MemoryRateLimiter.windowMs := windowMs;
     MemoryRateLimiter.limitMap := m |}.

Definition sharedLimiter (prefix : string) (maxRequests windowSec : Z)
  : RedisRateLimiter.Limiter :=
  {| RedisRateLimiter.keyPrefix := prefix;
     RedisRateLimiter.maxRequests := maxRequests;
     RedisRateLimiter.windowSec := windowSec |}.

(** The server after a command that did not fail. *)
Definition settle (w : RedisRateLimiter.Server) : RedisRateLimiter.Server :=
  match RedisRateLimiter.faults w with
  | [] => RedisRateLimiter.addAction RedisCommand w
  | _ :: rest =>
      RedisRateLimiter.setFaults rest (RedisRateLimiter.addAction RedisCommand w)
  end.

(** A record of the local map, and a counter of the server. *)
Definition opened (count resetTime : Z) : MemoryRateLimiter.LimitRecord :=
  {| MemoryRateLimiter.count := count; MemoryRateLimiter.resetTime := resetTime |}.

Definition counting (value : Z) (deadline : option Z) : RedisRateLimiter.Counter :=
  {| RedisRateLimiter.value := value; RedisRateLimiter.deadline := deadline |}.

Definition idleServer : RedisRateLimiter.Server :=
  {| RedisRateLimiter.keys := ∅; RedisRateLimiter.clock := 0;
     RedisRateLimiter.faults := []; RedisRateLimiter.actions := [] |}.

(** C7 as the specification states it, for the local backend: of
    [maxRequests + 1] calls for a fresh key within one window, the first
    [maxRequests] are let through and the last one is refused. *)
Definition local_fairness_as_stated : Prop :=
  forall (maxRequests windowMs : Z) (key : string) (first : Z) (later : list Z),
    0 <= maxRequests ->
    length later = Z.to_nat maxRequests ->
    withinWindow windowMs first later ->
    fst (MemoryRateLimiter.checks key (first :: later)
           (localLimiter maxRequests windowMs ∅))
    = repeat true (Z.to_nat maxRequests) ++ [false].

(** C8 as the specification states it: with the same configuration, for
    calls within one window, both backends give the same answers. *)
Definition backends_agree_as_stated : Prop :=
  forall (maxRequests windowSec : Z) (prefix key : string) (first : Z)
         (later : list Z),
    0 <= maxRequests -> 1 <= windowSec ->
    withinWindow (1000 * windowSec) first later ->
    outcome (RedisRateLimiter.checks (sharedLimiter prefix maxRequests windowSec)
               key (first :: later) idleServer)
    = Returned (fst (MemoryRateLimiter.checks key (first :: later)
                       (localLimiter maxRequests (1000 * windowSec) ∅))).

End LimiterSpec.

Module RetrievalSpec.

Import Supabase Retrieval StoreSpec.

Section Retrieved.

Context {vector : Type}.
Variable toVector : list float -> vector.
Variable cosine_distance : vector -> vector -> float8.

(** The element [doc] of [relevantDocs] is a document of the table: its
    content, and as similarity one minus its distance to the query
    embedding, which is at least the threshold or NaN. *)
Definition retrieved (w : @Database vector) (queryEmbedding : list float)
  (similarityThreshold : Q) (doc : RetrievedDoc) : Prop :=
  passes similarityThreshold (similarity doc) /\
  exists d e,
    In d (documents w) /\ embedding d = Some e /\
    content doc = Supabase.content d /\
    similarity doc = oneMinus (cosine_distance e (toVector queryEmbedding)).

(** By descending similarity, the documents whose similarity is NaN last. *)
Definition bySimilarity (docs : list RetrievedDoc) : Prop :=
  StronglySorted (fun a b => noLess (similarity a) (similarity b)) docs.

End Retrieved.

End RetrievalSpec.

Module DedupSpec.

Import Supabase.



End DedupSpec.

Module ChunkSpec.

Import Supabase PdfProcessor.

Section Rows.

Context {vector : Type}.
Variable toVector : list float -> vector.
Variable embeddingModel : string -> list float.

(** The row [d] is the one ingestion stores for the chunk at [index]: the
    chunk as content with its embedding, the hash of the text in the
    [source_hash] column, and as metadata the caller's, except for the
    three keys ingestion sets itself. *)
Definition rowOfChunk (metadata : gmap string JsonValue) (hash : string)
  (chunks : list string) (index : nat) (d : @Document vector) : Prop :=
  nth_error chunks index = Some (content d) /\
  embedding d = Some (toVector (embeddingModel (content d))) /\
  source_hash d = Some hash /\
  Supabase.metadata d !! "source_hash" = Some (JString hash) /\
  Supabase.metadata d !! "chunkIndex" = Some (JNumber (Z.of_nat index)) /\
  Supabase.metadata d !! "totalChunks"
  = Some (JNumber (Z.of_nat (length chunks))) /\
  forall key : string,
    key <> "source_hash" -> key <> "chunkIndex" -> key <> "totalChunks" ->
    Supabase.metadata d !! key = metadata !! key.

End Rows.

(** A splitter that cuts a text in two, and the table after the first of
    the two inserts of an ingestion whose second insert failed. *)
Definition twoChunks (text : string) : list string := [text; text].

End ChunkSpec.

Module LimiterPairs.

(** Two local limiters that answer alike for [key] at the given times:
    they have the same configuration, and either hold the same record for
    [key], or the first holds none and the record of the second has run out
    before every one of the times. *)
Definition alike (key : string) (times : list Z)
  (a b : MemoryRateLimiter.Limiter) : Prop :=
  MemoryRateLimiter.maxRequests a = MemoryRateLimiter.maxRequests b /\
  MemoryRateLimiter.windowMs a = MemoryRateLimiter.windowMs b /\
  (MemoryRateLimiter.limitMap a !! key = MemoryRateLimiter.limitMap b !! key \/
   (MemoryRateLimiter.limitMap a !! key = None /\
    exists r, MemoryRateLimiter.limitMap b !! key = Some r /\
              Forall (fun t => MemoryRateLimiter.resetTime r < t) times)).

(** What the [i]-th call after a first call that counted one is owed when
    the counter never runs out. *)
Definition countedFrom (c maxRequests : Z) (n : nat) : list bool :=
  map (fun i => c + 1 + Z.of_nat i <=? maxRequests) (seq 0 n).

End LimiterPairs.

(** Worlds and inputs the further properties are tried on. *)

Module MoreExamples.

Import Supabase.

(** A cache holding one answer under an embedding of one component. *)
Definition narrowCache : SemanticCache.Redis :=
  {| SemanticCache.fields :=
       [("id0", CacheExamples.entryAbout "weather" [1]%float "sunny" 5)];
     SemanticCache.expireAt := Some 3600005; SemanticCache.clock := 10;
     SemanticCache.uuids := fun _ => "id1"; SemanticCache.drawn := 0%nat;
     SemanticCache.faults := []; SemanticCache.actions := [] |}.

(** The record [match_documents] returns for a document of the library
    whose cosine similarity to the query is computed as [similarity]. *)
Definition found (name : string) (similarity : float) : SearchResult :=
  {| result_id := name; result_content := name; result_metadata := ∅;
     result_similarity := Number (1 - (1 - StoreSpec.rational similarity)) |}.

(** An ingestion in two chunks whose second insert fails. *)
Definition interrupted : @Database (list float) :=
  setFaults [None; None; None; Some "timeout"] IngestSpec.emptyTable.

(** A loader that reads the bytes of the file as the text of its one
    page. *)
Definition onePage (buffer : string) : Outcome (list string) :=
  Returned [buffer].

(** A table written before the column [source_hash] existed. *)
Definition legacyRow : @Document (list float) :=
  {| id := "row0"; content := "Agents use tools";
     metadata := {[ "source_hash" := JString "abc" ]};
     embedding := Some [1%float]; source_hash := None |}.

Definition legacy : @Database (list float) :=
  {| documents := [legacyRow]; rowIds := fun _ => "row1"; inserted := 1;
     faults := []; actions := [] |}.

(** A local limiter holding a record whose window ended at time 100. *)
Definition stale : MemoryRateLimiter.Limiter :=
  LimiterSpec.localLimiter 3 60000 {[ "ip-1" := LimiterSpec.opened 3 100 ]}.

(** A server whose next [EXPIRE] is going to fail. *)
Definition flaky : RedisRateLimiter.Server :=
  RedisRateLimiter.setFaults [None; Some "ECONNRESET"] LimiterSpec.idleServer.

End MoreExamples.

(* ================================================================== *)
(** * Part III: the properties *)
(* ================================================================== *)

(** ** Programs *)

Module JsFacts.

Lemma try_catch_returns {W A} (body : Prog W A) (handler : string -> Prog W A)
  (w : W) :
  (forall e w', exists a, outcome (handler e w') = Returned a) ->
  exists a, outcome (try_catch body handler w) = Returned a.
Proof.
  intros Hh. unfold try_catch, outcome.
  destruct (body w) as [[a | e] w'] eqn:Hb.
  - exists a. reflexivity.
  - apply Hh.
Qed.

Lemma try_catch_unit {W} (body : Prog W unit) (w : W) :
  outcome (try_catch body (fun _ => ret tt) w) = Returned tt.
Proof.
  unfold try_catch, outcome, ret.
  destruct (body w) as [[[] | e] w']; reflexivity.
Qed.

Lemma quiet_tail (f : option string) (plan : list (option string)) :
  quiet (f :: plan) = true -> f = None /\ quiet plan = true.
Proof.
  unfold quiet. simpl. destruct f; simpl; intros H; [discriminate | auto].
Qed.

Lemma quiet_next (plan : list (option string)) :
  quiet plan = true -> hd None plan = None.
Proof.
  destruct plan as [| f plan]; [reflexivity |].
  intros H. apply quiet_tail in H. simpl. tauto.
Qed.

End JsFacts.

(** ** The semantic cache *)

Module CacheFacts.

Import SemanticCache CacheSpec JsFacts.

Lemma command_next {A} (op : Prog Redis A) (w : Redis) :
  nextSucceeds (faults w) ->
  command RedisCommand op w = op (settle w).
Proof.
  unfold nextSucceeds, command, settle. simpl.
  destruct (faults w) as [| [m |] rest]; simpl; intros H;
    [reflexivity | discriminate | reflexivity].
Qed.

Lemma command_fails {A} (op : Prog Redis A) (w : Redis) m rest :
  faults w = Some m :: rest ->
  command RedisCommand op w =
  (Thrown m, setFaults rest (addAction RedisCommand w)).
Proof.
  unfold command. simpl. intros ->. reflexivity.
Qed.

Lemma live_settle (w : Redis) : live (settle w) = live w.
Proof.
  unfold settle. destruct (faults w); reflexivity.
Qed.

Lemma scanEntries_FirstMatch q t (l : list SemanticCacheEntry) :
  FirstMatch q t l (scanEntries q t l).
Proof.
  induction l as [| e l IH]; simpl.
  - constructor.
  - fold (meets q t e). destruct (meets q t e) eqn:He.
    + exists [], e, l. repeat split; auto.
    + destruct (scanEntries q t l) as [r |]; simpl in *.
      * destruct IH as (before & entry & after & -> & Hb & Hm & ->).
        exists (e :: before), entry, after. repeat split; auto.
      * constructor; assumption.
Qed.

(** A lookup whose read succeeds is the scan of the live entries. *)
Lemma searchSemanticCache_scans (w : Redis) (q : list float) (t : float) :
  nextSucceeds (faults w) ->
  searchSemanticCache q t w
  = (Returned (scanEntries q t (map snd (live w))), settle w).
Proof.
  intros Hok.
  unfold searchSemanticCache, try_catch, bind, hgetall.
  rewrite (command_next _ _ Hok). unfold gets.
  rewrite live_settle.
  destruct (live w) as [| kv h]; reflexivity.
Qed.





(** *** The commands when nothing fails *)

Lemma command_quiet {A} (op : Prog Redis A) (w : Redis) :
  quiet (faults w) = true ->
  command RedisCommand op w = op (settle w) /\ quiet (faults (settle w)) = true.
Proof.
  intros Hq. split.
  - apply command_next, quiet_next, Hq.
  - unfold settle. destruct (faults w) as [| f rest] eqn:Hf; simpl.
    + rewrite Hf. reflexivity.
    + apply quiet_tail in Hq. tauto.
Qed.

Lemma settle_same (w : Redis) :
  fields (settle w) = fields w /\ expireAt (settle w) = expireAt w /\
  clock (settle w) = clock w /\ uuids (settle w) = uuids w /\
  drawn (settle w) = drawn w.
Proof.
  unfold settle. destruct (faults w); simpl; auto.
Qed.

Lemma expired_settle (w : Redis) : expired (settle w) = expired w.
Proof.
  unfold settle. destruct (faults w); reflexivity.
Qed.

Lemma purge_same (w : Redis) :
  fields (purge w) = live w /\ faults (purge w) = faults w /\
  clock (purge w) = clock w /\ expired (purge w) = false /\
  expireAt (purge w) = (if expired w then None else expireAt w).
Proof.
  unfold purge, live. destruct (expired w) eqn:He; simpl; auto.
Qed.

Ltac run_command Hq Hq' :=
  match goal with
  | |- context [command RedisCommand ?op ?w] =>
      let Hrun := fresh "Hrun" in
      destruct (command_quiet op w Hq) as [Hrun Hq']; rewrite Hrun; clear Hrun
  end.

Lemma hset_quiet (field : string) (value : SemanticCacheEntry) (w : Redis) :
  quiet (faults w) = true ->
  exists w',
    hset field value w = (Returned tt, w') /\ carriesOn w w' /\
    fields w' = upsert field value (live w) /\ expired w' = false.
Proof.
  intros Hq. unfold hset. eexists.
  run_command Hq Hq'. unfold modify. split; [reflexivity |].
  destruct (purge_same (settle w)) as (Hf & Hp & Hc & He & Hd).
  destruct (settle_same w) as (_ & _ & Hc' & _).
  unfold carriesOn. simpl. rewrite Hp, Hc, Hc', Hf, live_settle.
  repeat split; auto.
Qed.

Lemma upsert_nonempty field value (h : list (string * SemanticCacheEntry)) :
  upsert field value h <> [].
Proof.
  destruct h as [| [k v] h]; simpl; [discriminate |].
  destruct (String.eqb k field); discriminate.
Qed.

Lemma expire_quiet (seconds : Z) (w : Redis) :
  quiet (faults w) = true -> expired w = false -> fields w <> [] ->
  exists w',
    expire seconds w = (Returned tt, w') /\ carriesOn w w' /\
    fields w' = (if seconds <=? 0 then [] else fields w) /\ expired w' = false.
Proof.
  intros Hq He Hne. unfold expire. eexists.
  run_command Hq Hq'. unfold modify. split; [reflexivity |].
  destruct (purge_same (settle w)) as (Hf & Hp & Hc & He' & Hd).
  destruct (settle_same w) as (Hsf & _ & Hc' & _).
  assert (Hlive : fields (purge (settle w)) = fields w).
  { rewrite Hf, live_settle. unfold live. rewrite He. reflexivity. }
  rewrite Hlive. destruct (fields w) as [| kv h] eqn:Hw; [congruence |].
  unfold carriesOn.
  destruct (seconds <=? 0) eqn:Hs; simpl; rewrite Hp, Hc, Hc'.
  - repeat split; auto.
  - repeat split; auto. unfold expired. simpl. rewrite Hc, Hc'.
    apply Z.ltb_ge. apply Z.leb_gt in Hs. lia.
Qed.

Lemma hlen_quiet (w : Redis) :
  quiet (faults w) = true ->
  exists w',
    hlen w = (Returned (length (live w)), w') /\ carriesOn w w' /\
    fields w' = fields w /\ expired w' = expired w.
Proof.
  intros Hq. unfold hlen.
  run_command Hq Hq'. unfold gets. rewrite live_settle. eexists. split; [reflexivity |].
  destruct (settle_same w) as (Hf & _ & Hc & _).
  unfold carriesOn. rewrite expired_settle. auto.
Qed.

Lemma hgetall_quiet (w : Redis) :
  quiet (faults w) = true ->
  exists w',
    hgetall w = (Returned (live w), w') /\ carriesOn w w' /\
    fields w' = fields w /\ expired w' = expired w.
Proof.
  intros Hq. unfold hgetall.
  run_command Hq Hq'. unfold gets. rewrite live_settle. eexists. split; [reflexivity |].
  destruct (settle_same w) as (Hf & _ & Hc & _).
  unfold carriesOn. rewrite expired_settle. auto.
Qed.

Lemma hdel_quiet (keys : list string) (w : Redis) :
  quiet (faults w) = true -> expired w = false ->
  exists w',
    hdel keys w = (Returned tt, w') /\ carriesOn w w' /\
    fields w' = removeFields keys (fields w) /\ expired w' = false.
Proof.
  intros Hq He. unfold hdel. eexists.
  run_command Hq Hq'. unfold modify. split; [reflexivity |].
  destruct (purge_same (settle w)) as (Hf & Hp & Hc & He' & Hd).
  destruct (settle_same w) as (Hsf & _ & Hc' & _).
  assert (Hlive : fields (purge (settle w)) = fields w).
  { rewrite Hf, live_settle. unfold live. rewrite He. reflexivity. }
  rewrite Hlive. unfold carriesOn.
  destruct (removeFields keys (fields w)) as [| kv h] eqn:Hr; simpl;
    rewrite Hp, Hc, Hc'; repeat split; auto.
Qed.

(** *** The stable sort by timestamp *)

Lemma insertByTimestamp_perm (x : string * Z) (l : list (string * Z)) :
  Permutation (x :: l) (insertByTimestamp x l).
Proof.
  induction l as [| y l IH]; simpl.
  - apply Permutation_refl.
  - destruct (snd x <=? snd y).
    + apply Permutation_refl.
    + eapply perm_trans; [apply perm_swap |]. apply perm_skip, IH.
Qed.

Lemma sortByTimestamp_perm (l : list (string * Z)) :
  Permutation l (sortByTimestamp l).
Proof.
  induction l as [| x l IH]; simpl.
  - apply perm_nil.
  - eapply perm_trans; [apply perm_skip, IH |]. apply insertByTimestamp_perm.
Qed.



Lemma sorted_firstn_skipn {A} (R : A -> A -> Prop) (l : list A) (n : nat) a b :
  StronglySorted R l -> In a (firstn n l) -> In b (skipn n l) -> R a b.
Proof.
  intros Hs. revert n. induction Hs as [| x l Hs IH Hx]; intros n Ha Hb.
  - destruct n; simpl in Ha; contradiction.
  - destruct n as [| n]; simpl in *; [contradiction |].
    destruct Ha as [<- | Ha].
    + rewrite List.Forall_forall in Hx. apply Hx.
      rewrite <- (firstn_skipn n l). apply in_app_iff. right. exact Hb.
    + apply (IH n); assumption.
Qed.

(** A timestamp not older than the others sorts last. *)
Lemma sortByTimestamp_newest (l : list (string * Z)) (x : string * Z) :
  Forall (fun y => snd y <= snd x) l ->
  sortByTimestamp (l ++ [x]) = sortByTimestamp l ++ [x].
Proof.
  intros Hl.
  assert (Hins : forall s, Forall (fun y => snd y <= snd x) s ->
            forall y, snd y <= snd x ->
            insertByTimestamp y (s ++ [x]) = insertByTimestamp y s ++ [x]).
  { induction s as [| z s IHs]; intros Hs y Hy; simpl.
    - apply Z.leb_le in Hy. rewrite Hy. reflexivity.
    - inversion Hs; subst. destruct (snd y <=? snd z); [reflexivity |].
      rewrite IHs; auto. }
  induction Hl as [| y l Hy Hl IH]; simpl; [reflexivity |].
  rewrite IH. apply Hins; [| exact Hy].
  apply List.Forall_forall. intros z Hz.
  apply (Permutation_in _ (Permutation_sym (sortByTimestamp_perm l))) in Hz.
  rewrite List.Forall_forall in Hl. apply Hl, Hz.
Qed.

(** *** Deleting fields *)

Lemma removeFields_In keys (h : list (string * SemanticCacheEntry)) kv :
  In kv (removeFields keys h) <-> In kv h /\ ~ In (fst kv) keys.
Proof.
  unfold removeFields. rewrite filter_In, negb_true_iff.
  split; intros [Hin Hk]; split; auto.
  - intros Hkeys.
    assert (existsb (String.eqb (fst kv)) keys = true) as Hex; [| congruence].
    apply existsb_exists. exists (fst kv). split; [exact Hkeys |].
    apply String.eqb_refl.
  - destruct (existsb (String.eqb (fst kv)) keys) eqn:Hex; [| reflexivity].
    apply existsb_exists in Hex. destruct Hex as (k & Hk' & Heq).
    apply String.eqb_eq in Heq. subst k. contradiction.
Qed.







(** *** Eviction *)

Lemma stamped_keys (h : list (string * SemanticCacheEntry)) :
  map fst (map stamped h) = map fst h.
Proof.
  rewrite map_map. reflexivity.
Qed.

Lemma sorted_keys (h : list (string * SemanticCacheEntry)) :
  Permutation (map fst h) (map fst (sortByTimestamp (map stamped h))).
Proof.
  rewrite <- (stamped_keys h). apply Permutation_map, sortByTimestamp_perm.
Qed.



Lemma afterEviction_incl (h : list (string * SemanticCacheEntry)) :
  incl (afterEviction h) h.
Proof.
  unfold afterEviction. destruct (Nat.ltb MAX_CACHE_ENTRIES (length h)).
  - intros kv Hkv. apply removeFields_In in Hkv. tauto.
  - apply incl_refl.
Qed.



(** *** Writing a field *)


Lemma upsert_fresh field value (h : list (string * SemanticCacheEntry)) :
  ~ In field (map fst h) -> upsert field value h = h ++ [(field, value)].
Proof.
  induction h as [| [k v] h IH]; simpl; intros Hnot; [reflexivity |].
  destruct (String.eqb k field) eqn:Hk.
  - apply String.eqb_eq in Hk. tauto.
  - f_equal. apply IH. tauto.
Qed.

(** *** A store when nothing fails *)

Lemma store_quiet (q : string) (e : list float) (r : string) (ttl : Z)
  (w : Redis) :
  quiet (faults w) = true ->
  exists w',
    storeInSemanticCache q e r ttl w = (Returned tt, w') /\
    carriesOn w w' /\ expired w' = false /\
    fields w' =
      if ttl <=? 0 then []
      else afterEviction
             (upsert (uuids w (drawn w))
                (jsonEntry {| query := q; embedding := e; response := r;
                              timestamp := clock w |}) (live w)).
Proof.
  intros Hq.
  unfold storeInSemanticCache, try_catch, bind, randomUUID, DateNow, gets.
  set (w0 := {| fields := fields w; expireAt := expireAt w; clock := clock w;
                uuids := uuids w; drawn := S (drawn w); faults := faults w;
                actions := actions w |}).
  set (entry := jsonEntry {| query := q; embedding := e; response := r;
                             timestamp := clock w |}).
  change (clock w0) with (clock w).
  fold entry.
  destruct (hset_quiet (uuids w (drawn w)) entry w0 Hq)
    as (w1 & E1 & [Hq1 Hc1] & Hf1 & He1).
  change (live w0) with (live w) in Hf1. change (clock w0) with (clock w) in Hc1.
  rewrite E1.
  assert (fields w1 <> []) as Hne by (rewrite Hf1; apply upsert_nonempty).
  destruct (expire_quiet ttl w1 Hq1 He1 Hne) as (w2 & E2 & [Hq2 Hc2] & Hf2 & He2).
  rewrite E2.
  destruct (hlen_quiet w2 Hq2) as (w3 & E3 & [Hq3 Hc3] & Hf3 & He3).
  rewrite E3.
  assert (live w2 = fields w2) as Hl2 by (unfold live; rewrite He2; reflexivity).
  assert (live w3 = fields w2) as Hl3.
  { unfold live. rewrite He3, He2. exact Hf3. }
  rewrite Hl2, Hf2.
  destruct (ttl <=? 0) eqn:Httl.
  - simpl. exists w3. unfold ret, carriesOn.
    repeat split; auto; congruence.
  - rewrite Hf2 in Hl3, Hf3. rewrite Hf1 in *.
    set (h := upsert (uuids w (drawn w)) entry (live w)) in *.
    unfold afterEviction.
    destruct (Nat.ltb MAX_CACHE_ENTRIES (length h)) eqn:Hlt.
    + unfold evictOldestEntries, bind.
      destruct (hgetall_quiet w3 Hq3) as (w4 & E4 & [Hq4 Hc4] & Hf4 & He4).
      rewrite E4, Hl3.
      change (map (fun kv => (fst kv, timestamp (snd kv))) h)
        with (map stamped h).
      assert (Nat.ltb 0
                (length (firstn (length h - MAX_CACHE_ENTRIES)
                           (sortByTimestamp (map stamped h)))) = true) as Hpos.
      { apply Nat.ltb_lt. apply Nat.ltb_lt in Hlt.
        rewrite length_firstn.
        rewrite <- (Permutation_length (sortByTimestamp_perm (map stamped h))).
        rewrite length_map. lia. }
      rewrite Hpos.
      assert (expired w4 = false) as He4' by congruence.
      destruct (hdel_quiet
                  (map fst (firstn (length h - MAX_CACHE_ENTRIES)
                              (sortByTimestamp (map stamped h)))) w4 Hq4 He4')
        as (w5 & E5 & [Hq5 Hc5] & Hf5 & He5).
      rewrite E5. exists w5.
      unfold carriesOn. repeat split; auto; [congruence |].
      rewrite Hf5, Hf4, Hf3. reflexivity.
    + exists w3. unfold ret, carriesOn.
      repeat split; auto; congruence.
Qed.

Lemma setClock_same (now : Z) (w : Redis) :
  faults (setClock now w) = faults w /\ fields (setClock now w) = fields w /\
  uuids (setClock now w) = uuids w /\ drawn (setClock now w) = drawn w.
Proof.
  repeat split.
Qed.




(** *** Failures *)

Lemma searchSemanticCache_returns (w : Redis) (qe : list float) (t : float) :
  exists answer, outcome (searchSemanticCache qe t w) = Returned answer.
Proof.
  unfold searchSemanticCache. apply try_catch_returns.
  intros e w'. exists None. reflexivity.
Qed.

Lemma searchSemanticCache_read_failure (w : Redis) (qe : list float)
  (t : float) m rest :
  faults w = Some m :: rest ->
  outcome (searchSemanticCache qe t w) = Returned None.
Proof.
  intros Hf. unfold searchSemanticCache, try_catch, bind, hgetall.
  rewrite (command_fails _ _ _ _ Hf). reflexivity.
Qed.

(** C5.  Whatever the fault plan: a lookup returns, and returns null when
    its read of the hash fails; [storeInSemanticCache] and
    [cacheQueryResponse] return normally, also when a Redis command or the
    embedding call fails. *)
Theorem cache_failures_are_absorbed (embeddingModel : string -> list float)
  (w : Redis) (queryEmbedding : list float) (similarityThreshold : float)
  (query : string) (embedding : list float) (response : string)
  (ttlSeconds : Z) :
  match faults w with
  | Some _ :: _ =>
      outcome (searchSemanticCache queryEmbedding similarityThreshold w)
      = Returned None
  | _ =>
      exists answer,
        outcome (searchSemanticCache queryEmbedding similarityThreshold w)
        = Returned answer
  end /\
  outcome (storeInSemanticCache query embedding response ttlSeconds w)
  = Returned tt /\
  outcome (Orchestrator.cacheQueryResponse embeddingModel query response w)
  = Returned tt.
Proof.
  split; [| split].
  - destruct (faults w) as [| [m |] rest] eqn:Hf.
    + apply searchSemanticCache_returns.
    + eapply searchSemanticCache_read_failure, Hf.
    + apply searchSemanticCache_returns.
  - apply try_catch_unit.
  - apply try_catch_unit.
Qed.

(** *** A store followed by a lookup *)

Lemma newest_survives (old : list (string * SemanticCacheEntry))
  (kv : string * SemanticCacheEntry) :
  ~ In (fst kv) (map fst old) ->
  Forall (fun x => timestamp (snd x) <= timestamp (snd kv)) old ->
  In kv (afterEviction (old ++ [kv])).
Proof.
  intros Hfresh Hts. unfold afterEviction.
  destruct (Nat.ltb MAX_CACHE_ENTRIES (length (old ++ [kv]))) eqn:Hlt;
    [| apply in_app_iff; right; left; reflexivity].
  apply removeFields_In. split.
  - apply in_app_iff. right. left. reflexivity.
  - unfold evictedKeys. rewrite map_app. simpl map.
    rewrite sortByTimestamp_newest.
    + rewrite length_app. simpl length.
      rewrite firstn_app.
      rewrite <- (Permutation_length (sortByTimestamp_perm (map stamped old))).
      rewrite length_map.
      replace (length old + 1 - MAX_CACHE_ENTRIES - length old)%nat with 0%nat
        by (unfold MAX_CACHE_ENTRIES; lia).
      simpl firstn. rewrite app_nil_r. intros Hin.
      apply Hfresh. apply (Permutation_in _ (Permutation_sym (sorted_keys old))).
      rewrite <- firstn_map in Hin.
      rewrite <- (firstn_skipn (length old + 1 - MAX_CACHE_ENTRIES)
                    (map fst (sortByTimestamp (map stamped old)))).
      apply in_app_iff. left. exact Hin.
    + apply List.Forall_forall. intros x Hx. apply in_map_iff in Hx.
      destruct Hx as (y & <- & Hy). rewrite List.Forall_forall in Hts.
      apply (Hts y Hy).
Qed.

(** C2, as amended.  After a store that completes with every command
    succeeding, with a positive time to live, a fresh identifier and a
    clock ahead of the timestamps of the live entries, an immediate lookup
    with the same embedding hits as soon as the similarity of the embedding
    to its stored copy, as computed, reaches the threshold: it returns the
    response of the first live entry in iteration order that reaches the
    threshold, which is [r] when no other live entry does. *)
Theorem store_then_lookup (w : Redis) (q : string) (e : list float)
  (r : string) (ttl : Z) (t : float) :
  quiet (faults w) = true ->
  0 < ttl ->
  ~ In (uuids w (drawn w)) (map fst (live w)) ->
  Forall (fun kv => timestamp (snd kv) < clock w) (live w) ->
  (t <=? cosineSimilarity e (map jsonNumber e))%float = true ->
  let w' := world (storeInSemanticCache q e r ttl w) in
  exists answer,
    outcome (searchSemanticCache e t w') = Returned (Some answer) /\
    FirstMatch e t (map snd (live w')) (Some answer) /\
    (Forall (fun kv => meets e t (snd kv) = false) (live w) -> answer = r).
Proof.
  intros Hq Httl Hfresh Hts Hself w'.
  destruct (store_quiet q e r ttl w Hq) as (w1 & E & [Hq1 Hc1] & He1 & Hf1).
  subst w'. rewrite E. unfold world. simpl snd.
  apply Z.leb_gt in Httl. rewrite Httl in Hf1.
  rewrite (upsert_fresh _ _ _ Hfresh) in Hf1.
  set (entry := jsonEntry {| query := q; embedding := e; response := r;
                             timestamp := clock w |}) in *.
  set (id := uuids w (drawn w)) in *.
  assert (live w1 = fields w1) as Hl by (unfold live; rewrite He1; reflexivity).
  assert (In (id, entry) (live w1)) as Hnew.
  { rewrite Hl, Hf1. apply newest_survives; [exact Hfresh |].
    eapply List.Forall_impl; [| exact Hts]. simpl. intros kv Hkv. lia. }
  assert (meets e t entry = true) as Hmeets by exact Hself.
  rewrite (searchSemanticCache_scans w1 e t (quiet_next _ Hq1)).
  pose proof (scanEntries_FirstMatch e t (map snd (live w1))) as Hfirst.
  assert (forall a : option string,
            outcome (Returned a, settle w1) = Returned a) as Hrun
    by reflexivity.
  destruct (scanEntries e t (map snd (live w1))) as [answer |].
  - exists answer. split; [apply Hrun | split; [exact Hfirst |]].
    intros Hold. destruct Hfirst as (before & found & after & Hsplit & _ & Hm & ->).
    assert (In found (map snd (live w1))) as Hin.
    { rewrite Hsplit. apply in_app_iff. right. left. reflexivity. }
    apply in_map_iff in Hin. destruct Hin as (kv & <- & Hkv).
    rewrite Hl, Hf1 in Hkv. apply afterEviction_incl in Hkv.
    apply in_app_iff in Hkv. destruct Hkv as [Hkv | [<- | []]].
    + rewrite List.Forall_forall in Hold. rewrite (Hold kv Hkv) in Hm.
      discriminate.
    + reflexivity.
  - exfalso. simpl in Hfirst. rewrite List.Forall_forall in Hfirst.
    assert (meets e t entry = false) as Hno.
    { apply Hfirst. apply in_map_iff. exists (id, entry). auto. }
    congruence.
Qed.

(** *** The properties at concrete worlds *)

Import CacheExamples.

Lemma distinct_NoDup (l : list string) : distinct l = true -> List.NoDup l.
Proof.
  induction l as [| x l IH]; simpl; intros H; [constructor |].
  apply andb_true_iff in H. destruct H as [Hx Hl].
  constructor; [| auto].
  intros Hin. apply negb_true_iff in Hx.
  assert (existsb (String.eqb x) l = true) as Hex; [| congruence].
  apply existsb_exists. exists x. split; [exact Hin | apply String.eqb_refl].
Qed.



Example lookup_hit :
  outcome (searchSemanticCache [3; 4]%float 0.5%float oneAnswer)
  = Returned (Some "sunny").
Proof. vm_compute. reflexivity. Qed.

Example lookup_miss :
  outcome (searchSemanticCache [3; 4]%float 0.875%float oneAnswer)
  = Returned None.
Proof. vm_compute. reflexivity. Qed.

Example lookup_unreachable :
  outcome (searchSemanticCache [3; 4]%float 0.5%float (unreachable oneAnswer))
  = Returned None.
Proof. vm_compute. reflexivity. Qed.

Example cacheQueryResponse_unreachable :
  let after := Orchestrator.cacheQueryResponse (fun _ => [3; 4]%float)
                 "weather in Paris" "sunny" (unreachable emptyCache) in
  outcome after = Returned tt /\ fields (world after) = [] /\
  actions (world after) = [EmbeddingCall].
Proof. vm_compute. repeat split. Qed.

Example store_unreachable :
  let after := storeInSemanticCache "q" [3; 4]%float "fresh" 3600
                 (unreachable oneAnswer) in
  outcome after = Returned tt /\ fields (world after) = fields oneAnswer.
Proof. vm_compute. split; reflexivity. Qed.

(** C2, as stated, fails: the cache holds an answer whose embedding has
    similarity 0.6 to the new one; after the store, a lookup with threshold
    0.5 returns that older answer, which comes first in the hash. *)
Lemma store_then_lookup_counterexample : ~ store_then_lookup_as_stated.
Proof.
  intros claim.
  assert (wellFormed oneAnswer) as Hwf.
  { apply distinct_NoDup. reflexivity. }
  specialize (claim oneAnswer "q" [3; 4]%float "fresh" 3600 0.5%float Hwf
                eq_refl eq_refl).
  vm_compute in claim. discriminate claim.
Qed.

Example store_then_lookup_older_answer :
  outcome (searchSemanticCache [3; 4]%float 0.5%float
             (world (storeInSemanticCache "q" [3; 4]%float "fresh" 3600 oneAnswer)))
  = Returned (Some "sunny").
Proof. vm_compute. reflexivity. Qed.

(** Three more ways for the lookup to miss what was just stored: an
    embedding whose computed similarity to itself falls short of one (here
    [2 / (sqrt 2 * sqrt 2)], looked up with threshold one), an embedding
    whose similarity to itself is not a number, and a time to live that is
    not positive. *)
Example store_then_lookup_rounding :
  cosineSimilarity [1; 1]%float [1; 1]%float = 0x1.ffffffffffffep-1%float /\
  outcome (searchSemanticCache [1; 1]%float 1%float
             (world (storeInSemanticCache "q" [1; 1]%float "fresh" 3600 emptyCache)))
  = Returned None.
Proof. vm_compute. split; reflexivity. Qed.

Example store_then_lookup_zero_vector :
  outcome (searchSemanticCache [0; 0]%float 0.5%float
             (world (storeInSemanticCache "q" [0; 0]%float "fresh" 3600 emptyCache)))
  = Returned None.
Proof. vm_compute. reflexivity. Qed.

Example store_then_lookup_no_ttl :
  outcome (searchSemanticCache [3; 4]%float 0.5%float
             (world (storeInSemanticCache "q" [3; 4]%float "fresh" 0 emptyCache)))
  = Returned None.
Proof. vm_compute. reflexivity. Qed.

Lemma store_then_lookup_witness :
  exists answer,
    outcome (searchSemanticCache [3; 4]%float 0.875%float
               (world (storeInSemanticCache "q" [3; 4]%float "fresh" 3600 oneAnswer)))
    = Returned (Some answer) /\
    FirstMatch [3; 4]%float 0.875%float
      (map snd (live (world (storeInSemanticCache "q" [3; 4]%float "fresh"
                               3600 oneAnswer))))
      (Some answer) /\
    (Forall (fun kv => meets [3; 4]%float 0.875%float (snd kv) = false)
       (live oneAnswer) -> answer = "fresh").
Proof.
  apply (store_then_lookup oneAnswer "q" [3; 4]%float "fresh" 3600 0.875%float).
  - reflexivity.
  - lia.
  - simpl. intros [H | []]. discriminate H.
  - repeat constructor.
  - vm_compute. reflexivity.
Defined.

Example store_then_lookup_fresh_answer :
  outcome (searchSemanticCache [3; 4]%float 0.875%float
             (world (storeInSemanticCache "q" [3; 4]%float "fresh" 3600 oneAnswer)))
  = Returned (Some "fresh").
Proof. vm_compute. reflexivity. Qed.



Example store_with_dropped_expire :
  length (live (runStore (aCall 1000) (droppingSecond fullCache))) = 501%nat.
Proof. vm_compute. reflexivity. Qed.

(** A store into the full cache drops the oldest entry and keeps 500. *)
Example store_into_full_cache :
  let after := runStore (aCall 1000) fullCache in
  length (live after) = 500%nat /\
  existsb (String.eqb "entry-0") (map fst (live after)) = false /\
  existsb (String.eqb "entry-1") (map fst (live after)) = true /\
  existsb (String.eqb "new-0") (map fst (live after)) = true.
Proof. vm_compute. repeat split. Qed.

End CacheFacts.

(** ** The context string *)

Module ContextFacts.

Import Orchestrator ContextSpec.

Lemma append_assoc (a b c : string) : ((a ++ b) ++ c = a ++ b ++ c)%string.
Proof.
  induction a as [| x a IH]; [reflexivity |].
  change (String x ((a ++ b) ++ c) = String x (a ++ b ++ c)).
  rewrite IH. reflexivity.
Qed.

Lemma append_empty (a : string) : (a ++ "")%string = a.
Proof.
  induction a as [| x a IH]; [reflexivity |].
  change (String x (a ++ "") = String x a).
  rewrite IH. reflexivity.
Qed.

Section Rendering.

Variable NumberToString : float -> string.

Lemma renderDoc_annotated (doc : RelevantDoc) (index : nat) :
  renderDoc NumberToString doc index = annotated NumberToString (S index) doc.
Proof.
  unfold renderDoc, annotated, relevance.
  rewrite Nat.add_1_r. rewrite !append_assoc. reflexivity.
Qed.

Lemma joinFrom_trailing (sep : string) (items : list string) (R : string)
  (k : nat) :
  joinFrom sep R (S k) items = (R ++ trailing sep items)%string.
Proof.
  revert R k. induction items as [| item rest IH]; intros R k; simpl.
  - symmetry. apply append_empty.
  - rewrite IH. rewrite !append_assoc. reflexivity.
Qed.

Lemma join_cons (sep : string) (item : string) (rest : list string) :
  join sep (item :: rest) = (item ++ trailing sep rest)%string.
Proof.
  unfold join. simpl. apply joinFrom_trailing.
Qed.

Lemma rendered_concatenation (doc : RelevantDoc) (docs : list RelevantDoc)
  (index : nat) :
  Concatenation NumberToString (S index) (doc :: docs)
    (join separator (mapWithIndex (renderDoc NumberToString) index (doc :: docs))).
Proof.
  revert doc index. induction docs as [| next docs IH]; intros doc index.
  - simpl mapWithIndex. rewrite join_cons. simpl trailing.
    rewrite append_empty, renderDoc_annotated. constructor.
  - specialize (IH next (S index)).
    simpl mapWithIndex in *. rewrite join_cons in *. simpl trailing.
    rewrite renderDoc_annotated. constructor. exact IH.
Qed.

Lemma concatenation_not_empty (position : nat) (docs : list RelevantDoc)
  (text : string) :
  Concatenation NumberToString position docs text -> text <> "".
Proof.
  destruct 1; discriminate.
Qed.

(** C9.  On the empty list [buildContextString] returns the fixed sentence
    "No relevant information found in the knowledge base."; on a list that
    is not empty, the documents in order, numbered from 1, each annotated
    with its percentage relevance score; and in no case the empty string. *)
Theorem buildContextString_renders (doc : RelevantDoc)
  (docs : list RelevantDoc) :
  buildContextString NumberToString [] = NO_RELEVANT_INFORMATION /\
  Concatenation NumberToString 1 (doc :: docs)
    (buildContextString NumberToString (doc :: docs)) /\
  buildContextString NumberToString [] <> "" /\
  buildContextString NumberToString (doc :: docs) <> "".
Proof.
  assert (Concatenation NumberToString 1 (doc :: docs)
            (buildContextString NumberToString (doc :: docs))) as Hc.
  { unfold buildContextString. simpl Nat.eqb. cbv iota.
    apply rendered_concatenation. }
  repeat split.
  - exact Hc.
  - discriminate.
  - eapply concatenation_not_empty, Hc.
Qed.

End Rendering.

Example buildContextString_two_documents :
  buildContextString (fun _ => "") [agents; weather] =
  ("[Document 1] (Relevance: 87.5%)" ++ newline ++ "Agents use tools" ++
   separator ++
   "[Document 2] (Relevance: 50.0%)" ++ newline ++ "sunny")%string.
Proof. vm_compute. reflexivity. Qed.

End ContextFacts.

(** ** The vector store *)

Module StoreFacts.

Import Supabase StoreSpec.

Lemma float8_le_trans (x y z : float8) :
  float8_le x y = true -> float8_le y z = true -> float8_le x z = true.
Proof.
  destruct x as [a |], y as [b |], z as [c |]; simpl; try congruence.
  intros Hab Hbc. apply Qle_bool_iff in Hab, Hbc. apply Qle_bool_iff.
  eapply Qle_trans; eassumption.
Qed.

Lemma float8_le_total (x y : float8) :
  float8_le x y = false -> float8_le y x = true.
Proof.
  destruct x as [a |], y as [b |]; simpl; try congruence.
  intros Hab. apply Qle_bool_iff. apply Qlt_le_weak, Qnot_le_lt.
  intros Hle. apply Qle_bool_iff in Hle. congruence.
Qed.

Lemma oneMinus_noLess (x y : float8) :
  float8_le x y = true -> noLess (oneMinus x) (oneMinus y).
Proof.
  destruct x as [a |], y as [b |]; simpl; try congruence; try exact (fun _ => I).
  intros Hab. apply Qle_bool_iff in Hab. lra.
Qed.

Lemma float8_ge_passes (t : Q) (s : float8) :
  float8_ge s (Number t) = true -> passes t s.
Proof.
  destruct s as [q |]; simpl; [| exact (fun _ => I)].
  apply Qle_bool_iff.
Qed.

Section Matching.

Context {vector : Type}.
Variable toVector : list float -> vector.
Variable cosine_distance : vector -> vector -> float8.
Variable planOf : vector -> Q -> Z -> list (@Document vector) -> @Plan vector.

Lemma qualifying_In (plan : @Plan vector) (q : vector) (t : Q)
  (rows : list (@Document vector)) (x : @Document vector * float8) :
  In x (qualifying cosine_distance plan q t rows) ->
  In (fst x) rows /\
  exists e, embedding (fst x) = Some e /\ snd x = cosine_distance e q /\
            passes t (oneMinus (snd x)).
Proof.
  induction rows as [| d rows IH]; [simpl; contradiction |].
  cbn [qualifying]. destruct (embedding d) as [e |] eqn:He; cbv zeta.
  - destruct (visited plan d &&
              float8_ge (oneMinus (cosine_distance e q)) (Number t)) eqn:Hle.
    + cbn [In]. intros [<- | Hin].
      * split; [left; reflexivity |]. exists e. cbn [fst snd].
        apply andb_true_iff in Hle. destruct Hle as [_ Hle].
        apply float8_ge_passes in Hle. auto.
      * destruct (IH Hin) as [Hrows Hx]. split; [right; exact Hrows | exact Hx].
    + intros Hin. destruct (IH Hin) as [Hrows Hx].
      split; [right; exact Hrows | exact Hx].
  - intros Hin. destruct (IH Hin) as [Hrows Hx].
    split; [right; exact Hrows | exact Hx].
Qed.

Lemma precedes_closer (plan : @Plan vector) (x y : @Document vector * float8) :
  precedes plan x y = true -> closer x y.
Proof.
  unfold precedes, closer. destruct (float8_le (snd x) (snd y)); congruence.
Qed.

Lemma precedes_false (plan : @Plan vector) (x y : @Document vector * float8) :
  precedes plan x y = false -> closer y x.
Proof.
  unfold precedes, closer.
  destruct (float8_le (snd x) (snd y)) eqn:Hxy.
  - destruct (float8_le (snd y) (snd x)); congruence.
  - intros _. apply float8_le_total, Hxy.
Qed.

Lemma insertByDistance_perm (plan : @Plan vector) (x : @Document vector * float8)
  (l : list (@Document vector * float8)) :
  Permutation (x :: l) (insertByDistance plan x l).
Proof.
  induction l as [| y l IH]; simpl.
  - apply Permutation_refl.
  - destruct (precedes plan x y).
    + apply Permutation_refl.
    + eapply perm_trans; [apply perm_swap |]. apply perm_skip, IH.
Qed.

Lemma orderByDistance_perm (plan : @Plan vector)
  (l : list (@Document vector * float8)) :
  Permutation l (orderByDistance plan l).
Proof.
  induction l as [| x l IH]; simpl.
  - apply perm_nil.
  - eapply perm_trans; [apply perm_skip, IH |]. apply insertByDistance_perm.
Qed.

Lemma insertByDistance_sorted (plan : @Plan vector)
  (x : @Document vector * float8) (l : list (@Document vector * float8)) :
  StronglySorted closer l -> StronglySorted closer (insertByDistance plan x l).
Proof.
  induction 1 as [| y l Hs IH Hy]; simpl.
  - repeat constructor.
  - destruct (precedes plan x y) eqn:Hxy.
    + apply precedes_closer in Hxy. constructor.
      * constructor; assumption.
      * constructor; [exact Hxy |].
        eapply List.Forall_impl; [| exact Hy].
        unfold closer in *. intros z Hz. eapply float8_le_trans; eassumption.
    + apply precedes_false in Hxy.
      constructor; [exact IH |].
      apply List.Forall_forall. intros z Hz.
      apply (Permutation_in _ (Permutation_sym (insertByDistance_perm plan x l)))
        in Hz.
      destruct Hz as [<- | Hz].
      * exact Hxy.
      * rewrite List.Forall_forall in Hy. apply Hy, Hz.
Qed.

Lemma orderByDistance_sorted (plan : @Plan vector)
  (l : list (@Document vector * float8)) :
  StronglySorted closer (orderByDistance plan l).
Proof.
  induction l as [| x l IH]; simpl.
  - constructor.
  - apply insertByDistance_sorted, IH.
Qed.

Lemma firstn_sorted {A} (R : A -> A -> Prop) (n : nat) (l : list A) :
  StronglySorted R l -> StronglySorted R (firstn n l).
Proof.
  intros Hs. revert n. induction Hs as [| x l Hs IH Hx]; intros [| n]; simpl;
    try constructor.
  - apply IH.
  - apply List.Forall_forall. intros y Hy.
    rewrite List.Forall_forall in Hx. apply Hx.
    rewrite <- (firstn_skipn n l). apply in_app_iff. left. exact Hy.
Qed.

Lemma selected_descending (l : list (@Document vector * float8)) :
  StronglySorted closer l -> descending (map selected l).
Proof.
  unfold descending. induction 1 as [| x l Hs IH Hx]; simpl; constructor.
  - exact IH.
  - apply List.Forall_forall. intros r Hr. apply in_map_iff in Hr.
    destruct Hr as (y & <- & Hy). rewrite List.Forall_forall in Hx.
    specialize (Hx y Hy). simpl. apply oneMinus_noLess, Hx.
Qed.

Lemma match_documents_refuses (q : vector) (t : Q) (n : Z)
  (rows : list (@Document vector)) (m : string) :
  match_documents cosine_distance planOf q t n rows = Error m ->
  n < 0 \/ 2147483647 < n.
Proof.
  unfold match_documents.
  destruct ((n <? -2147483648) || (2147483647 <? n)) eqn:Hrange.
  - intros _. apply orb_true_iff in Hrange.
    destruct Hrange as [H | H]; [left | right]; lia.
  - destruct (n <? 0) eqn:Hn; [| discriminate]. intros _. left. lia.
Qed.

Lemma match_documents_answers (w : @Database vector) (q : list float) (t : Q) (n : Z)
  (rows : list SearchResult) :
  match_documents cosine_distance planOf (toVector q) t n (documents w)
  = Data rows ->
  answers toVector cosine_distance w q t n rows.
Proof.
  unfold match_documents.
  destruct ((n <? -2147483648) || (2147483647 <? n)); [discriminate |].
  destruct (n <? 0); [discriminate |].
  set (plan := planOf (toVector q) t n (documents w)).
  cbv zeta. intros [= <-].
  set (ordered := orderByDistance plan
                    (qualifying cosine_distance plan (toVector q) t (documents w))).
  unfold answers. split; [| split].
  - apply List.Forall_forall. intros r Hr. apply in_map_iff in Hr.
    destruct Hr as (x & <- & Hx).
    assert (In x (qualifying cosine_distance plan (toVector q) t (documents w)))
      as Hq.
    { apply (Permutation_in _ (Permutation_sym (orderByDistance_perm plan _))).
      fold ordered. rewrite <- (firstn_skipn (Z.to_nat n) ordered).
      apply in_app_iff. left. exact Hx. }
    apply qualifying_In in Hq. destruct Hq as (Hin & e & He & Hd & Ht).
    split; [exact Ht |]. exists (fst x). split; [exact Hin |].
    exists e. simpl. rewrite Hd. auto.
  - apply selected_descending, firstn_sorted, orderByDistance_sorted.
  - rewrite length_map, length_firstn. lia.
Qed.

(** C1.  Whenever [searchSimilarDocuments] returns, every record it returns
    reports a document of the table, with one minus the cosine distance
    between the embedding of the document and the query embedding as its
    similarity field; that similarity is at least the threshold or is NaN;
    the records come by descending similarity, those whose similarity is
    NaN after the others; and there are at most [matchCount] of them.  It
    throws only when the request fails or the limit is negative or does not
    fit an [int]. *)
Theorem searchSimilarDocuments_answers (w : @Database vector) (queryEmbedding : list float)
  (matchThreshold : Q) (matchCount : Z) :
  match outcome (searchSimilarDocuments toVector cosine_distance planOf
                   queryEmbedding matchThreshold matchCount w) with
  | Returned rows =>
      answers toVector cosine_distance w queryEmbedding matchThreshold
        matchCount rows
  | Thrown _ =>
      hd None (faults w) <> None \/ matchCount < 0 \/ 2147483647 < matchCount
  end.
Proof.
  unfold searchSimilarDocuments, bind, request, outcome. simpl.
  assert (forall w' : @Database vector, documents w' = documents w ->
            match
              fst (match match_documents cosine_distance planOf
                           (toVector queryEmbedding) matchThreshold matchCount
                           (documents w') with
                   | Error message =>
                       throw ("Failed to search documents: " ++ message)%string
                   | Data data => ret data
                   end w')
            with
            | Returned rows =>
                answers toVector cosine_distance w queryEmbedding matchThreshold
                  matchCount rows
            | Thrown _ =>
                hd None (faults w) <> None \/
                matchCount < 0 \/ 2147483647 < matchCount
            end) as Hrun.
  { intros w' Hw'. rewrite Hw'.
    destruct (match_documents cosine_distance planOf (toVector queryEmbedding)
                matchThreshold matchCount (documents w)) as [rows | m] eqn:Hm.
    - simpl. apply match_documents_answers, Hm.
    - simpl. right. eapply match_documents_refuses, Hm. }
  destruct (faults w) as [| [m |] rest] eqn:Hf; simpl.
  - exact (Hrun (addAction DatabaseRequest w) eq_refl).
  - left. discriminate.
  - exact (Hrun (setFaults rest (addAction DatabaseRequest w)) eq_refl).
Qed.

End Matching.

(** *** At concrete inputs *)

Example search_the_library :
  option_map (map result_id)
    (match outcome (searchSimilarDocuments (fun e => e) binary64Distance
                      alwaysScan [3; 4]%float (1 # 2) 2 library) with
     | Returned rows => Some rows
     | Thrown _ => None
     end)
  = Some ["near"; "close"].
Proof. vm_compute. reflexivity. Qed.

(** With a zero vector as query every distance is NaN, and so is every
    similarity: all the documents that have an embedding are returned,
    whatever the threshold. *)
Example search_with_a_zero_vector :
  outcome (searchSimilarDocuments (fun e => e) binary64Distance alwaysScan
             [0; 0]%float (7 # 10) 5 library)
  = Returned [undefinedMatch "far"; undefinedMatch "near"; undefinedMatch "close"].
Proof. vm_compute. reflexivity. Qed.

(** C1, as stated, fails: with a zero vector as query, records are
    returned whose similarity is NaN and not a number of at least the
    threshold. *)
Lemma searchSimilarDocuments_counterexample : ~ search_as_stated.
Proof.
  intros claim.
  destruct (claim (list float) (fun e => e) binary64Distance alwaysScan library
              [0; 0]%float (7 # 10) 5
              [undefinedMatch "far"; undefinedMatch "near"; undefinedMatch "close"])
    as [Hall _].
  - vm_compute. reflexivity.
  - inversion Hall as [| r rows [Hr _] _]. exact Hr.
Qed.

End StoreFacts.

(** ** Ingestion *)

Module IngestFacts.

Import Supabase PdfProcessor IngestSpec JsFacts.

Section Ingestion.

Context {vector : Type}.
Variable toVector : list float -> vector.
Variable sha256 : string -> string.
Variable splitText : string -> list string.
Variable embeddingModel : string -> list float.

Abbreviation World := (@Database vector).

Lemma answered_same (w : World) :
  documents (answered w) = documents w /\
  actions (answered w) = actions w ++ [DatabaseRequest] /\
  rowIds (answered w) = rowIds w /\ inserted (answered w) = inserted w.
Proof.
  unfold answered. destruct (faults w); simpl; auto.
Qed.

Lemma answered_quiet (w : World) :
  quiet (faults w) = true -> quiet (faults (answered w)) = true.
Proof.
  unfold answered. intros Hq. destruct (faults w) as [| f rest] eqn:Hf; simpl.
  - rewrite Hf. reflexivity.
  - apply quiet_tail in Hq. tauto.
Qed.

Lemma request_answered {A} (op : World -> Reply A * World) (w : World) :
  hd None (faults w) = None ->
  request op w = (let (a, w') := op (answered w) in (Returned a, w')).
Proof.
  unfold request, answered. simpl.
  destruct (faults w) as [| [m |] rest]; simpl; intros H;
    [reflexivity | discriminate | reflexivity].
Qed.

Lemma request_refused {A} (op : World -> Reply A * World) (w : World) m rest :
  faults w = Some m :: rest ->
  request op w
  = (Returned (Error m), setFaults rest (addAction DatabaseRequest w)).
Proof.
  unfold request. simpl. intros ->. reflexivity.
Qed.

(** *** The existence check *)

Lemma selectIdsByHash_stored (hash : string) (w : World) :
  stored hash w -> Nat.ltb 0 (length (selectIdsByHash hash (documents w))) = true.
Proof.
  intros (d & Hin & Hd). unfold selectIdsByHash.
  set (matching := List.filter _ (documents w)).
  assert (In d matching) as Hm.
  { apply filter_In. split; [exact Hin |]. rewrite Hd. apply String.eqb_refl. }
  destruct matching as [| x l]; [contradiction | reflexivity].
Qed.

Lemma checkDocumentExists_answered (hash : string) (w : World) :
  hd None (faults w) = None ->
  checkDocumentExists hash w
  = (Returned (Nat.ltb 0 (length (selectIdsByHash hash (documents w)))),
     answered w).
Proof.
  intros Hok. unfold checkDocumentExists, bind.
  rewrite (request_answered _ _ Hok).
  destruct (answered_same w) as (Hd & _). rewrite Hd. reflexivity.
Qed.

Lemma checkDocumentExists_refused (hash : string) (w : World) m rest :
  faults w = Some m :: rest ->
  checkDocumentExists hash w
  = (Returned false, setFaults rest (addAction DatabaseRequest w)).
Proof.
  intros Hf. unfold checkDocumentExists, bind.
  rewrite (request_refused _ _ _ _ Hf). reflexivity.
Qed.

(** *** The inserts *)

Lemma chunk_source_hash (metadata : gmap string JsonValue) (hash : string)
  (index total : nat) :
  sourceHashOf (chunkMetadata metadata hash index total) = Some hash.
Proof.
  unfold sourceHashOf, chunkMetadata.
  rewrite lookup_insert_ne by discriminate.
  rewrite lookup_insert_ne by discriminate.
  rewrite lookup_insert_eq. reflexivity.
Qed.

(** An insert either fails and leaves the table, or adds one row that
    carries the hash of its metadata. *)
Lemma insertDocument_run (chunk : string) (e : option (list float))
  (metadata : gmap string JsonValue) (w : World) :
  let run := insertDocument toVector chunk e metadata w in
  (exists m, outcome run = Thrown m /\ documents (world run) = documents w) \/
  (exists d, outcome run = Returned d /\
             documents (world run) = documents w ++ [d] /\
             source_hash d = sourceHashOf metadata).
Proof.
  unfold insertDocument, bind, request, outcome, world. simpl.
  destruct (faults w) as [| [m |] rest]; simpl.
  - right. eexists. repeat split.
  - left. eexists. repeat split.
  - right. eexists. repeat split.
Qed.

Lemma insertDocument_quiet (chunk : string) (e : option (list float))
  (metadata : gmap string JsonValue) (w : World) :
  quiet (faults w) = true ->
  exists d w',
    insertDocument toVector chunk e metadata w = (Returned d, w') /\
    quiet (faults w') = true /\ documents w' = documents w ++ [d] /\
    source_hash d = sourceHashOf metadata.
Proof.
  intros Hq. unfold insertDocument, bind, request. simpl.
  destruct (faults w) as [| [m |] rest] eqn:Hf; simpl.
  - do 2 eexists. repeat split. simpl. rewrite Hf. reflexivity.
  - discriminate Hq.
  - do 2 eexists. repeat split. simpl. apply quiet_tail in Hq. tauto.
Qed.

Lemma inserts_grow (chunks : list string) (embeddings : list (list float))
  (metadata : gmap string JsonValue) (hash : string) (index total : nat)
  (w : World) :
  incl (documents w)
    (documents
       (world (promiseAll
                 (insertPromises toVector chunks embeddings metadata hash
                    index total) w))).
Proof.
  revert index w. induction chunks as [| chunk chunks IH]; intros index w.
  - apply incl_refl.
  - simpl. unfold world in *.
    pose proof (insertDocument_run chunk (nth_error embeddings index)
                  (chunkMetadata metadata hash index total) w) as Hrun.
    simpl in Hrun. unfold outcome, world in Hrun.
    destruct (insertDocument toVector chunk (nth_error embeddings index)
                (chunkMetadata metadata hash index total) w) as [[d | m] w1].
    + simpl in Hrun. destruct Hrun as [(m & Hm & _) | (d' & _ & Hd & _)];
        [discriminate |].
      specialize (IH (S index) w1).
      destruct (promiseAll _ w1) as [[l | m] w2]; simpl in *;
        intros x Hx; apply IH; rewrite Hd; apply in_app_iff; auto.
    + simpl in Hrun. destruct Hrun as [(m' & _ & Hd) | (d' & Hd' & _)];
        [| discriminate].
      specialize (IH (S index) w1). simpl.
      intros x Hx. apply IH. rewrite Hd. exact Hx.
Qed.

Lemma inserts_extend (promises : list (Prog World (@Document vector)))
  (w : World) :
  Forall (fun p => forall w0, exists more,
            actions (world (p w0)) = actions w0 ++ more) promises ->
  exists more, actions (world (promiseAll promises w)) = actions w ++ more.
Proof.
  intros Hall. revert w. induction Hall as [| p ps Hp Hps IH]; intros w.
  - exists []. simpl. rewrite app_nil_r. reflexivity.
  - simpl. destruct (Hp w) as (m1 & H1). unfold world in *.
    destruct (p w) as [[d | e] w1]; simpl in H1.
    + destruct (IH w1) as (m2 & H2).
      destruct (promiseAll ps w1) as [[l | e] w2]; simpl in *;
        exists (m1 ++ m2); rewrite H2, H1, app_assoc; reflexivity.
    + destruct (IH w1) as (m2 & H2). simpl.
      exists (m1 ++ m2). rewrite H2, H1, app_assoc. reflexivity.
Qed.

Lemma inserts_journal (chunks : list string) (embeddings : list (list float))
  (metadata : gmap string JsonValue) (hash : string) (index total : nat)
  (w : World) :
  exists more,
    actions (world (promiseAll
                      (insertPromises toVector chunks embeddings metadata hash
                         index total) w))
    = actions w ++ more.
Proof.
  apply inserts_extend. clear w. revert index.
  induction chunks as [| chunk chunks IH]; intros index; simpl; constructor.
  - intros w0. unfold insertDocument, bind, request, world. simpl.
    destruct (faults w0) as [| [m |] rest]; simpl; eexists; reflexivity.
  - apply IH.
Qed.

Lemma inserts_returned (chunks : list string) (embeddings : list (list float))
  (metadata : gmap string JsonValue) (hash : string) (index total : nat)
  (w w' : World) rows :
  promiseAll (insertPromises toVector chunks embeddings metadata hash index total) w
  = (Returned rows, w') ->
  chunks <> [] -> stored hash w'.
Proof.
  destruct chunks as [| chunk chunks]; [congruence |]. intros Hrun _.
  simpl in Hrun.
  pose proof (insertDocument_run chunk (nth_error embeddings index)
                (chunkMetadata metadata hash index total) w) as Hins.
  simpl in Hins. unfold outcome, world in Hins.
  destruct (insertDocument toVector chunk (nth_error embeddings index)
              (chunkMetadata metadata hash index total) w) as [[d | m] w1];
    [| discriminate].
  simpl in Hins. destruct Hins as [(m & Hm & _) | (d' & [= <-] & Hd & Hh)];
    [discriminate |].
  pose proof (inserts_grow chunks embeddings metadata hash (S index) total w1)
    as Hgrow. unfold world in Hgrow.
  destruct (promiseAll _ w1) as [[l | m] w2]; [| discriminate].
  injection Hrun as _ <-. simpl in Hgrow.
  exists d. split.
  - apply Hgrow. rewrite Hd. apply in_app_iff. right. left. reflexivity.
  - rewrite Hh. apply chunk_source_hash.
Qed.

Lemma inserts_quiet (chunks : list string) (embeddings : list (list float))
  (metadata : gmap string JsonValue) (hash : string) (index total : nat)
  (w : World) :
  quiet (faults w) = true ->
  exists rows w',
    promiseAll (insertPromises toVector chunks embeddings metadata hash index total) w
    = (Returned rows, w') /\
    documents w' = documents w ++ rows /\ length rows = length chunks /\
    Forall (fun d => source_hash d = Some hash) rows.
Proof.
  revert index w. induction chunks as [| chunk chunks IH]; intros index w Hq.
  - exists [], w. simpl. rewrite app_nil_r. repeat split. constructor.
  - simpl.
    destruct (insertDocument_quiet chunk (nth_error embeddings index)
                (chunkMetadata metadata hash index total) w Hq)
      as (d & w1 & -> & Hq1 & Hd & Hh).
    destruct (IH (S index) w1 Hq1) as (rows & w2 & -> & Hdocs & Hlen & Hall).
    exists (d :: rows), w2. repeat split.
    + rewrite Hdocs, Hd, <- app_assoc. reflexivity.
    + simpl. rewrite Hlen. reflexivity.
    + constructor; [| exact Hall]. rewrite Hh. apply chunk_source_hash.
Qed.

(** *** The gate *)

Lemma ingestedBefore_stored (text : string) (w : World) :
  ingestedBefore toVector sha256 splitText embeddingModel text w ->
  stored (sha256 text) w.
Proof.
  intros (w0 & metadata0 & result & Hrun & Hpos).
  unfold processText in Hrun.
  destruct (isBlank text); [discriminate |].
  unfold bind in Hrun.
  destruct (checkDocumentExists (sha256 text) w0) as [[[|] | m] w1];
    [discriminate | | discriminate].
  unfold chunkText in Hrun.
  destruct (OpenAI.generateBatchEmbeddings embeddingModel (splitText text)
              (record Chunking w1)) as [[embeddings | m] w2]; [| discriminate].
  destruct (promiseAll _ w2) as [[rows | m] w3] eqn:Hall; [| discriminate].
  unfold ret in Hrun. injection Hrun as <- <-. simpl in Hpos.
  eapply inserts_returned; [exact Hall |].
  intros Hnil. rewrite Hnil in Hpos. simpl in Hpos. lia.
Qed.

(** C6, as amended.  When the text is not blank and the existence request
    is answered, content whose hash is in the table (in particular content
    that an earlier ingestion stored) is turned down with
    [DUPLICATE_DOCUMENT] before any chunking, embedding call or insert. *)
Theorem duplicate_rejected_before_embedding (w : World) (text : string)
  (metadata : gmap string JsonValue) :
  isBlank text = false ->
  hd None (faults w) = None ->
  stored (sha256 text) w \/
  ingestedBefore toVector sha256 splitText embeddingModel text w ->
  rejectedAsDuplicate toVector sha256 splitText embeddingModel text metadata w.
Proof.
  intros Hblank Hok Hstored.
  assert (stored (sha256 text) w) as Hs.
  { destruct Hstored as [Hs | Hb]; [exact Hs | apply ingestedBefore_stored, Hb]. }
  unfold rejectedAsDuplicate, processText. rewrite Hblank. unfold bind.
  rewrite (checkDocumentExists_answered _ _ Hok).
  rewrite (selectIdsByHash_stored _ _ Hs).
  unfold throw, outcome, world. simpl.
  destruct (answered_same w) as (Hd & Ha & _). auto.
Qed.

(** C10.  When the existence request fails, [checkDocumentExists] returns
    false, whatever the hash; ingestion of a text that is not blank then
    goes on to chunk the text and to call the embedding provider, whether
    or not its hash is in the table, and when the calls after the failed
    one succeed it stores the text again. *)
Theorem existence_check_fails_open (w : World) (hash text : string)
  (metadata : gmap string JsonValue) (message : string)
  (rest : list (option string)) :
  faults w = Some message :: rest ->
  outcome (checkDocumentExists hash w) = Returned false /\
  (isBlank text = false ->
   goesOnToEmbed toVector sha256 splitText embeddingModel text metadata w /\
   (quiet rest = true ->
    ingestedAgain toVector sha256 splitText embeddingModel text metadata w)).
Proof.
  intros Hf. split.
  - rewrite (checkDocumentExists_refused _ _ _ _ Hf). reflexivity.
  - intros Hblank.
    unfold goesOnToEmbed, ingestedAgain, processText. rewrite Hblank.
    unfold bind. rewrite (checkDocumentExists_refused _ _ _ _ Hf).
    unfold chunkText, OpenAI.generateBatchEmbeddings, try_catch, command.
    simpl.
    set (digest := sha256 text). set (chunks := splitText text).
    split.
    + destruct rest as [| [m |] rest']; simpl.
      * match goal with
        | |- context [promiseAll (insertPromises ?tv ?c ?e ?md ?h ?i ?t) ?w1] =>
            destruct (inserts_journal c e md h i t w1) as (more & Hmore);
            destruct (promiseAll (insertPromises tv c e md h i t) w1)
              as [[rows | m] w2]
        end; unfold world in *; simpl in *; exists more; rewrite Hmore;
          rewrite <- !app_assoc; reflexivity.
      * unfold throw, world. simpl. exists []. rewrite <- !app_assoc.
        reflexivity.
      * match goal with
        | |- context [promiseAll (insertPromises ?tv ?c ?e ?md ?h ?i ?t) ?w1] =>
            destruct (inserts_journal c e md h i t w1) as (more & Hmore);
            destruct (promiseAll (insertPromises tv c e md h i t) w1)
              as [[rows | m] w2]
        end; unfold world in *; simpl in *; exists more; rewrite Hmore;
          rewrite <- !app_assoc; reflexivity.
    + intros Hq.
      assert (forall w1 : World,
                quiet (faults w1) = true -> documents w1 = documents w ->
                let run :=
                  match
                    promiseAll
                      (insertPromises toVector chunks (map embeddingModel chunks)
                         metadata digest 0 (length chunks)) w1
                  with
                  | (Returned _, w2) =>
                      ret {| success := true; chunksProcessed := length chunks |} w2
                  | (Thrown e, w2) => (Thrown e, w2)
                  end in
                outcome run
                = Returned {| success := true; chunksProcessed := length chunks |} /\
                exists rows,
                  documents (world run) = documents w ++ rows /\
                  length rows = length chunks /\
                  Forall (fun d => source_hash d = Some digest) rows) as Hrun.
      { intros w1 Hq1 Hd1.
        destruct (inserts_quiet chunks (map embeddingModel chunks)
                    metadata digest 0 (length chunks) w1 Hq1)
          as (rows' & w2' & -> & Hdocs & Hlen & Hall').
        simpl. split; [reflexivity |]. exists rows'. rewrite <- Hd1. auto. }
      destruct rest as [| [m |] rest']; simpl.
      * apply Hrun; reflexivity.
      * discriminate Hq.
      * apply Hrun; [| reflexivity]. simpl. apply quiet_tail in Hq. tauto.
Qed.

End Ingestion.

(** *** The gate at concrete tables *)

Lemma ingested_holds_the_hash (plan : list (option string)) :
  stored (digest "Agents use tools") (setFaults plan ingested).
Proof.
  eexists. split; [left; reflexivity | reflexivity].
Qed.

Lemma duplicate_rejected_before_embedding_witness :
  rejectedAsDuplicate (fun e => e) digest oneChunk constantModel
    "Agents use tools" ∅ ingested.
Proof.
  apply (duplicate_rejected_before_embedding (fun e => e) digest oneChunk
           constantModel ingested "Agents use tools" ∅).
  - reflexivity.
  - reflexivity.
  - left. apply (ingested_holds_the_hash []).
Defined.

(** Ingesting the same text twice: the first run stores its chunk, the
    second is turned down and the table still holds one row. *)
Example ingest_twice :
  let first := ingest "Agents use tools" emptyTable in
  let second := ingest "Agents use tools" (world first) in
  outcome first = Returned {| success := true; chunksProcessed := 1 |} /\
  outcome second = Thrown "DUPLICATE_DOCUMENT" /\
  length (documents (world second)) = 1%nat /\
  actions (world second)
  = [DatabaseRequest; Chunking; EmbeddingCall; DatabaseRequest; DatabaseRequest].
Proof. vm_compute. repeat split. Qed.

Example ingest_blank :
  outcome (ingest "   " ingested) = Thrown "No text to process".
Proof. vm_compute. reflexivity. Qed.

(** C6, as stated, fails: the hash is in the table, the existence request
    fails, and the ingestion runs to its end instead of being turned down. *)
Lemma duplicate_rejected_counterexample : ~ duplicate_rejected_as_stated.
Proof.
  intros claim.
  destruct (claim (list float) (fun e => e) digest oneChunk constantModel
              (setFaults [Some "fetch failed"] ingested) "Agents use tools" ∅
              (ingested_holds_the_hash _)) as [Hout _].
  vm_compute in Hout. discriminate Hout.
Qed.

Lemma existence_check_fails_open_witness :
  outcome (checkDocumentExists (digest "Agents use tools")
             (setFaults [Some "fetch failed"] ingested))
  = Returned false /\
  goesOnToEmbed (fun e => e) digest oneChunk constantModel "Agents use tools"
    ∅ (setFaults [Some "fetch failed"] ingested) /\
  ingestedAgain (fun e => e) digest oneChunk constantModel "Agents use tools"
    ∅ (setFaults [Some "fetch failed"] ingested).
Proof.
  destruct (existence_check_fails_open (fun e => e) digest oneChunk
              constantModel (setFaults [Some "fetch failed"] ingested)
              (digest "Agents use tools") "Agents use tools" ∅
              "fetch failed" [] eq_refl) as [Hcheck Hrun].
  destruct (Hrun eq_refl) as [Hgoes Hagain].
  exact (conj Hcheck (conj Hgoes (Hagain eq_refl))).
Defined.

(** The duplicate gets in: after the run the table holds the text twice. *)
Example ingest_duplicate_when_check_fails :
  let run := ingest "Agents use tools" (setFaults [Some "fetch failed"] ingested) in
  outcome run = Returned {| success := true; chunksProcessed := 1 |} /\
  map source_hash (documents (world run))
  = [Some (digest "Agents use tools"); Some (digest "Agents use tools")] /\
  actions (world run)
  = [DatabaseRequest; Chunking; EmbeddingCall; DatabaseRequest].
Proof. vm_compute. repeat split. Qed.

End IngestFacts.

(** ** The rate limiters *)

Module LimiterFacts.

Import LimiterSpec JsFacts.

(** *** The answers owed *)

Lemma allowed_succ (maxRequests : Z) (n : nat) :
  allowed maxRequests (S n)
  = (0 <? maxRequests) :: map (fun i => Z.of_nat (S i) <? maxRequests) (seq 0 n).
Proof.
  unfold allowed. simpl. rewrite <- seq_shift, map_map. reflexivity.
Qed.

Lemma map_constant {A B} (f : A -> B) (b : B) (l : list A) :
  (forall x, In x l -> f x = b) -> map f l = repeat b (length l).
Proof.
  induction l as [| x l IH]; simpl; intros H; [reflexivity |].
  rewrite H by (left; reflexivity). f_equal. apply IH.
  intros y Hy. apply H. right. exact Hy.
Qed.

Lemma allowed_full (maxRequests : Z) :
  0 <= maxRequests ->
  allowed maxRequests (Z.to_nat maxRequests + 1)
  = repeat true (Z.to_nat maxRequests) ++ [false].
Proof.
  intros Hmax. unfold allowed. rewrite seq_app, map_app. simpl. f_equal.
  - rewrite (map_constant _ true).
    + rewrite length_seq. reflexivity.
    + intros i Hi. apply in_seq in Hi. apply Z.ltb_lt. lia.
  - f_equal. apply Z.ltb_ge. lia.
Qed.

Lemma withinWindow_le (window first : Z) (later : list Z) :
  withinWindow window first later ->
  Forall (fun t => t <= first + window) later.
Proof.
  apply List.Forall_impl. intros t Ht. lia.
Qed.

(** *** The local backend *)

Module M := MemoryRateLimiter.

Lemma local_first (key : string) (now : Z) (this : M.Limiter) :
  M.limitMap this !! key = None ->
  M.check key now this
  = (true,
     M.setLimitMap
       (<[key := opened 1 (now + M.windowMs this)]> (M.limitMap this)) this).
Proof.
  unfold M.check. intros ->. reflexivity.
Qed.

Lemma local_after_window (key : string) (now : Z) (this : M.Limiter) c R :
  M.limitMap this !! key = Some (opened c R) -> R < now ->
  fst (M.check key now this) = true.
Proof.
  unfold M.check. intros -> HR. simpl.
  apply Z.ltb_lt in HR. rewrite HR. reflexivity.
Qed.

(** Calls within the window that is open for the key: the one made when
    the count is [c] is let through when [c] is below the limit. *)
Lemma local_in_window (key : string) (times : list Z) :
  forall (this : M.Limiter) (c R : Z),
    M.limitMap this !! key = Some (opened c R) ->
    Forall (fun t => t <= R) times ->
    fst (M.checks key times this)
    = map (fun i => c + Z.of_nat i <? M.maxRequests this) (seq 0 (length times)) /\
    exists c', M.limitMap (snd (M.checks key times this)) !! key
               = Some (opened c' R).
Proof.
  induction times as [| t times IH]; intros this c R Hkey Hin.
  - simpl. eauto.
  - inversion Hin as [| ? ? Ht Hrest]; subst.
    simpl M.checks. unfold M.check. rewrite Hkey. simpl M.resetTime.
    simpl M.count.
    assert ((R <? t) = false) as -> by (apply Z.ltb_ge; lia).
    change (seq 0 (length (t :: times)))
      with (0%nat :: seq 1 (length times)).
    rewrite <- seq_shift. cbn [map]. rewrite map_map.
    destruct (M.maxRequests this <=? c) eqn:Hmax.
    + apply Z.leb_le in Hmax.
      destruct (IH this c R Hkey Hrest) as (Hres & Hc).
      destruct (M.checks key times this) as [others final]. simpl in *.
      split; [| exact Hc]. f_equal.
      * symmetry. apply Z.ltb_ge. lia.
      * rewrite Hres. apply map_ext. intros i.
        assert ((c + Z.of_nat i <? M.maxRequests this) = false) as ->
          by (apply Z.ltb_ge; lia).
        symmetry. apply Z.ltb_ge. lia.
    + apply Z.leb_gt in Hmax.
      set (this1 := M.setLimitMap
                      (<[key := {| M.count := c + 1; M.resetTime := R |}]>
                         (M.limitMap this)) this).
      assert (M.limitMap this1 !! key = Some (opened (c + 1) R)) as Hkey1.
      { unfold this1. simpl. apply lookup_insert_eq. }
      destruct (IH this1 (c + 1) R Hkey1 Hrest) as (Hres & Hc).
      destruct (M.checks key times this1) as [others final]. simpl in *.
      split; [| exact Hc]. f_equal.
      * symmetry. apply Z.ltb_lt. lia.
      * rewrite Hres. apply map_ext. intros i. f_equal. lia.
Qed.

(** A fresh key, and calls within the window its first call opens. *)
Lemma local_fresh_run (maxRequests windowMs : Z)
  (m : gmap string M.LimitRecord) (key : string) (first : Z) (later : list Z) :
  1 <= maxRequests -> m !! key = None ->
  withinWindow windowMs first later ->
  let run := M.checks key (first :: later) (localLimiter maxRequests windowMs m) in
  fst run = allowed maxRequests (S (length later)) /\
  exists c', M.limitMap (snd run) !! key = Some (opened c' (first + windowMs)).
Proof.
  intros Hmax Hfresh Hin. simpl M.checks.
  rewrite (local_first key first (localLimiter maxRequests windowMs m) Hfresh).
  simpl M.windowMs. simpl M.limitMap.
  set (this1 := M.setLimitMap _ _).
  assert (M.limitMap this1 !! key = Some (opened 1 (first + windowMs))) as Hkey1.
  { unfold this1. simpl. apply lookup_insert_eq. }
  destruct (local_in_window key later this1 1 (first + windowMs) Hkey1
              (withinWindow_le _ _ _ Hin)) as (Hres & Hc).
  destruct (M.checks key later this1) as [others final]. simpl in *.
  split; [| exact Hc].
  rewrite allowed_succ. f_equal.
  - symmetry. apply Z.ltb_lt. lia.
  - rewrite Hres. apply map_ext. intros i. f_equal. lia.
Qed.

(** *** The distributed backend *)

Module R := RedisRateLimiter.

Import (hints) RedisRateLimiter.

Lemma server_command_quiet {A} (op : Prog R.Server A) (w : R.Server) :
  quiet (R.faults w) = true ->
  command RedisCommand op w = op (settle w) /\
  quiet (R.faults (settle w)) = true.
Proof.
  intros Hq. unfold command, settle. simpl.
  destruct (R.faults w) as [| [m |] rest] eqn:Hf; simpl.
  - rewrite Hf. auto.
  - discriminate Hq.
  - apply quiet_tail in Hq. tauto.
Qed.

Lemma server_settle_same (w : R.Server) :
  R.keys (settle w) = R.keys w /\ R.clock (settle w) = R.clock w.
Proof.
  unfold settle. destruct (R.faults w); simpl; auto.
Qed.

Lemma lookupLive_settle (key : string) (w : R.Server) :
  R.lookupLive key (settle w) = R.lookupLive key w.
Proof.
  unfold R.lookupLive. destruct (server_settle_same w) as [-> ->]. reflexivity.
Qed.

Ltac run_server_command Hq Hq' :=
  match goal with
  | |- context [command RedisCommand ?op ?w] =>
      let Hrun := fresh "Hrun" in
      destruct (server_command_quiet op w Hq) as [Hrun Hq']; rewrite Hrun;
      clear Hrun
  end.

(** The first call for a key that is not live: it counts one and opens a
    window. *)
Lemma shared_first (this : R.Limiter) (key : string) (w : R.Server) :
  quiet (R.faults w) = true ->
  R.lookupLive (R.redisKeyOf this key) w = None ->
  1 <= R.windowSec this ->
  exists w',
    R.check this key w = (Returned (1 <=? R.maxRequests this), w') /\
    quiet (R.faults w') = true /\
    R.keys w' !! R.redisKeyOf this key
    = Some (counting 1 (Some (R.clock w + 1000 * R.windowSec this))).
Proof.
  intros Hq Hdead Hsec. unfold R.check, bind, R.incr.
  run_server_command Hq Hq1.
  rewrite lookupLive_settle, Hdead.
  change (R.value {| R.value := 1; R.deadline := None |}) with 1.
  change (1 =? 1) with true. cbv iota.
  unfold R.expire. set (w1 := R.setKeys _ (settle w)).
  assert (quiet (R.faults w1) = true) as Hq1' by exact Hq1.
  run_server_command Hq1' Hq2.
  unfold modify.
  destruct (server_settle_same w) as [Hk Hc].
  destruct (server_settle_same w1) as [Hk1 Hc1].
  assert (R.lookupLive (R.redisKeyOf this key) (settle w1)
          = Some (counting 1 None)) as Hlive.
  { unfold R.lookupLive. rewrite Hk1. unfold w1. simpl.
    rewrite lookup_insert_eq. reflexivity. }
  rewrite Hlive.
  assert ((R.windowSec this <=? 0) = false) as -> by (apply Z.leb_gt; lia).
  eexists. split; [reflexivity |]. simpl. split; [exact Hq2 |].
  rewrite lookup_insert_eq. rewrite Hc1. unfold w1. simpl. rewrite Hc.
  reflexivity.
Qed.

(** A call within the window that is open for the key. *)
Lemma shared_counting (this : R.Limiter) (key : string) (w : R.Server)
  (c D : Z) :
  quiet (R.faults w) = true ->
  R.keys w !! R.redisKeyOf this key = Some (counting c (Some D)) ->
  R.clock w <= D -> 1 <= c ->
  exists w',
    R.check this key w = (Returned (c + 1 <=? R.maxRequests this), w') /\
    quiet (R.faults w') = true /\
    R.keys w' !! R.redisKeyOf this key = Some (counting (c + 1) (Some D)).
Proof.
  intros Hq Hkey Hclock Hc. unfold R.check, bind, R.incr.
  run_server_command Hq Hq1.
  rewrite lookupLive_settle.
  assert (R.lookupLive (R.redisKeyOf this key) w = Some (counting c (Some D)))
    as ->.
  { unfold R.lookupLive. rewrite Hkey. simpl.
    assert ((D <? R.clock w) = false) as -> by (apply Z.ltb_ge; lia).
    reflexivity. }
  change (R.value (counting c (Some D))) with c.
  change (R.deadline (counting c (Some D))) with (Some D).
  change (R.value {| R.value := c + 1; R.deadline := Some D |}) with (c + 1).
  assert ((c + 1 =? 1) = false) as -> by (apply Z.eqb_neq; lia).
  unfold ret. eexists. split; [reflexivity |]. simpl. split; [exact Hq1 |].
  apply lookup_insert_eq.
Qed.

Lemma shared_in_window (this : R.Limiter) (key : string) (times : list Z) :
  forall (w : R.Server) (c D : Z),
    quiet (R.faults w) = true ->
    R.keys w !! R.redisKeyOf this key = Some (counting c (Some D)) ->
    1 <= c -> Forall (fun t => t <= D) times ->
    exists w',
      R.checks this key times w
      = (Returned (map (fun i => c + 1 + Z.of_nat i <=? R.maxRequests this)
                     (seq 0 (length times))), w') /\
      quiet (R.faults w') = true /\
      exists v, R.keys w' !! R.redisKeyOf this key = Some (counting v (Some D)).
Proof.
  induction times as [| t times IH]; intros w c D Hq Hkey Hc Hin.
  - exists w. simpl. unfold ret. eauto.
  - inversion Hin as [| ? ? Ht Hrest]; subst.
    simpl R.checks. unfold bind at 1. unfold modify.
    assert (quiet (R.faults (R.setClock t w)) = true) as Hq0 by exact Hq.
    assert (R.keys (R.setClock t w) !! R.redisKeyOf this key
            = Some (counting c (Some D))) as Hkey0 by exact Hkey.
    destruct (shared_counting this key (R.setClock t w) c D Hq0 Hkey0 Ht Hc)
      as (w1 & E1 & Hq1 & Hkey1).
    unfold bind at 1. rewrite E1.
    destruct (IH w1 (c + 1) D Hq1 Hkey1 ltac:(lia) Hrest)
      as (w2 & E2 & Hq2 & Hkey2).
    unfold bind. rewrite E2. unfold ret.
    exists w2. split; [| auto]. f_equal. f_equal.
    change (seq 0 (length (t :: times))) with (0%nat :: seq 1 (length times)).
    rewrite <- seq_shift. cbn [map]. rewrite map_map. f_equal.
    + f_equal. lia.
    + apply map_ext. intros i. f_equal. lia.
Qed.

(** A fresh key, and calls within the window its first call opens. *)
Lemma shared_fresh_run (this : R.Limiter) (key : string) (w : R.Server)
  (first : Z) (later : list Z) :
  quiet (R.faults w) = true ->
  R.keys w !! R.redisKeyOf this key = None ->
  1 <= R.maxRequests this -> 1 <= R.windowSec this ->
  withinWindow (1000 * R.windowSec this) first later ->
  exists w',
    R.checks this key (first :: later) w
    = (Returned (allowed (R.maxRequests this) (S (length later))), w') /\
    quiet (R.faults w') = true /\
    exists v,
      R.keys w' !! R.redisKeyOf this key
      = Some (counting v (Some (first + 1000 * R.windowSec this))).
Proof.
  intros Hq Hfresh Hmax Hsec Hin.
  simpl R.checks. unfold bind at 1. unfold modify.
  assert (quiet (R.faults (R.setClock first w)) = true) as Hq0 by exact Hq.
  assert (R.lookupLive (R.redisKeyOf this key) (R.setClock first w) = None)
    as Hdead.
  { unfold R.lookupLive. simpl. rewrite Hfresh. reflexivity. }
  destruct (shared_first this key (R.setClock first w) Hq0 Hdead Hsec)
    as (w1 & E1 & Hq1 & Hkey1).
  simpl R.clock in Hkey1.
  unfold bind at 1. rewrite E1.
  destruct (shared_in_window this key later w1 1
              (first + 1000 * R.windowSec this) Hq1 Hkey1 ltac:(lia)
              (withinWindow_le _ _ _ Hin))
    as (w2 & E2 & Hq2 & Hkey2).
  unfold bind. rewrite E2. unfold ret.
  exists w2. split; [| auto]. f_equal. f_equal.
  rewrite allowed_succ. f_equal.
  - assert ((1 <=? R.maxRequests this) = true) as -> by (apply Z.leb_le; lia).
    symmetry. apply Z.ltb_lt. lia.
  - apply map_ext. intros i.
    destruct (Z.leb_spec (1 + 1 + Z.of_nat i) (R.maxRequests this));
      symmetry; [apply Z.ltb_lt | apply Z.ltb_ge]; lia.
Qed.

Lemma shared_after_window (this : R.Limiter) (key : string) (w : R.Server)
  (v D now : Z) :
  quiet (R.faults w) = true ->
  R.keys w !! R.redisKeyOf this key = Some (counting v (Some D)) ->
  D < now -> 1 <= R.windowSec this ->
  outcome (R.check this key (R.setClock now w))
  = Returned (1 <=? R.maxRequests this).
Proof.
  intros Hq Hkey Hlate Hsec.
  assert (quiet (R.faults (R.setClock now w)) = true) as Hq0 by exact Hq.
  assert (R.lookupLive (R.redisKeyOf this key) (R.setClock now w) = None)
    as Hdead.
  { unfold R.lookupLive. simpl. rewrite Hkey. simpl.
    assert ((D <? now) = true) as -> by (apply Z.ltb_lt; lia). reflexivity. }
  destruct (shared_first this key (R.setClock now w) Hq0 Hdead Hsec)
    as (w1 & E1 & _).
  rewrite E1. reflexivity.
Qed.

(** *** Fairness and agreement *)

(** C7, as amended.  With a limit of at least one request (and, for the
    distributed backend, a window of at least one second and Redis
    commands that succeed): of [maxRequests + 1] calls for a fresh key
    within one window, the first [maxRequests] are let through and the last
    one is refused; the next call after the window has elapsed is let
    through again. *)
Theorem rate_limit_fairness (maxRequests : Z) (key : string) (first : Z)
  (later : list Z) (afterwards : Z) :
  1 <= maxRequests ->
  length later = Z.to_nat maxRequests ->
  (forall (windowMs : Z) (m : gmap string M.LimitRecord),
     m !! key = None ->
     withinWindow windowMs first later ->
     first + windowMs < afterwards ->
     let run := M.checks key (first :: later)
                  (localLimiter maxRequests windowMs m) in
     fst run = repeat true (Z.to_nat maxRequests) ++ [false] /\
     fst (M.check key afterwards (snd run)) = true) /\
  (forall (prefix : string) (windowSec : Z) (w : R.Server),
     1 <= windowSec ->
     quiet (R.faults w) = true ->
     R.keys w !! R.redisKeyOf (sharedLimiter prefix maxRequests windowSec) key
     = None ->
     withinWindow (1000 * windowSec) first later ->
     first + 1000 * windowSec < afterwards ->
     exists w',
       R.checks (sharedLimiter prefix maxRequests windowSec) key
         (first :: later) w
       = (Returned (repeat true (Z.to_nat maxRequests) ++ [false]), w') /\
       outcome (R.checks (sharedLimiter prefix maxRequests windowSec) key
                  [afterwards] w')
       = Returned [true]).
Proof.
  intros Hmax Hlen.
  assert (allowed maxRequests (S (length later))
          = repeat true (Z.to_nat maxRequests) ++ [false]) as Hfull.
  { rewrite Hlen, <- Nat.add_1_r. apply allowed_full. lia. }
  split.
  - intros windowMs m Hfresh Hin Hafter.
    destruct (local_fresh_run maxRequests windowMs m key first later Hmax
                Hfresh Hin) as (Hres & c' & Hkey).
    simpl. split.
    + rewrite <- Hfull. exact Hres.
    + eapply local_after_window; [exact Hkey | exact Hafter].
  - intros prefix windowSec w Hsec Hq Hfresh Hin Hafter.
    destruct (shared_fresh_run (sharedLimiter prefix maxRequests windowSec) key
                w first later Hq Hfresh Hmax Hsec Hin)
      as (w' & Hrun & Hq' & v & Hkey).
    exists w'. split.
    + rewrite <- Hfull. exact Hrun.
    + simpl R.checks. unfold bind, modify, outcome.
      pose proof (shared_after_window
                    (sharedLimiter prefix maxRequests windowSec) key w' v
                    (first + 1000 * windowSec) afterwards Hq' Hkey Hafter Hsec)
        as Hnext.
      unfold outcome in Hnext.
      destruct (R.check (sharedLimiter prefix maxRequests windowSec) key
                  (R.setClock afterwards w')) as [[b | e] w''];
        simpl in Hnext; [| discriminate].
      injection Hnext as ->. simpl.
      assert ((1 <=? maxRequests) = true) as -> by (apply Z.leb_le; lia).
      reflexivity.
Qed.

(** C8, as amended.  With the same limit of at least one request and the
    same window of at least one second, for a key fresh in both backends
    and calls within one window, the distributed backend, when its Redis
    commands succeed, gives the answers the local backend gives. *)
Theorem backends_agree (maxRequests windowSec : Z) (prefix key : string)
  (m : gmap string M.LimitRecord) (w : R.Server) (first : Z) (later : list Z) :
  1 <= maxRequests -> 1 <= windowSec ->
  m !! key = None ->
  R.keys w !! R.redisKeyOf (sharedLimiter prefix maxRequests windowSec) key
  = None ->
  quiet (R.faults w) = true ->
  withinWindow (1000 * windowSec) first later ->
  outcome (R.checks (sharedLimiter prefix maxRequests windowSec) key
             (first :: later) w)
  = Returned (fst (M.checks key (first :: later)
                     (localLimiter maxRequests (1000 * windowSec) m))).
Proof.
  intros Hmax Hsec Hlocal Hshared Hq Hin.
  destruct (local_fresh_run maxRequests (1000 * windowSec) m key first later
              Hmax Hlocal Hin) as (Hres & _).
  destruct (shared_fresh_run (sharedLimiter prefix maxRequests windowSec) key
              w first later Hq Hshared Hmax Hsec Hin) as (w' & Hrun & _).
  rewrite Hrun. simpl in Hres. unfold outcome. simpl fst. rewrite Hres.
  reflexivity.
Qed.

(** *** The limiters at concrete calls *)

(** Three requests per minute, four calls in immediate succession. *)
Example local_four_calls :
  fst (M.checks "ip-1" [0; 0; 0; 0] (M.create 3 60000))
  = [true; true; true; false].
Proof. reflexivity. Qed.

Example shared_four_calls :
  outcome (R.checks R.redisChatLimiter "ip-1" [0; 0; 0; 0] idleServer)
  = Returned [true; true; true; false].
Proof. vm_compute. reflexivity. Qed.

(** C7, as stated, fails: the local backend lets the first call through
    whatever the limit, also when the limit is zero. *)
Lemma local_fairness_counterexample : ~ local_fairness_as_stated.
Proof.
  intros claim.
  specialize (claim 0 60000 "ip-1" 0 [] ltac:(lia) eq_refl (List.Forall_nil _)).
  vm_compute in claim. discriminate claim.
Qed.

(** C8, as stated, fails: with a limit of zero the local backend lets the
    first call through and the distributed one refuses it. *)
Lemma backends_agree_counterexample : ~ backends_agree_as_stated.
Proof.
  intros claim.
  specialize (claim 0 60 "chat" "ip-1" 0 [] ltac:(lia) ltac:(lia)
                (List.Forall_nil _)).
  vm_compute in claim. discriminate claim.
Qed.

Example limit_zero :
  fst (M.checks "ip-1" [0] (M.create 0 60000)) = [true] /\
  outcome (R.checks (sharedLimiter "chat" 0 60) "ip-1" [0] idleServer)
  = Returned [false].
Proof. vm_compute. split; reflexivity. Qed.

Lemma rate_limit_fairness_witness :
  (let run := M.checks "ip-1" [0; 1; 2; 3] (localLimiter 3 60000 ∅) in
   fst run = [true; true; true; false] /\
   fst (M.check "ip-1" 60001 (snd run)) = true) /\
  (exists w',
     R.checks (sharedLimiter "chat" 3 60) "ip-1" [0; 1; 2; 3] idleServer
     = (Returned [true; true; true; false], w') /\
     outcome (R.checks (sharedLimiter "chat" 3 60) "ip-1" [60001] w')
     = Returned [true]).
Proof.
  destruct (rate_limit_fairness 3 "ip-1" 0 [1; 2; 3] 60001 ltac:(lia) eq_refl)
    as [Hlocal Hshared].
  split.
  - apply (Hlocal 60000 ∅); [reflexivity | repeat constructor | lia].
  - apply (Hshared "chat" 60 idleServer);
      [lia | reflexivity | reflexivity | repeat constructor | lia].
Defined.

Lemma backends_agree_witness :
  outcome (R.checks (sharedLimiter "chat" 3 60) "ip-1" [0; 1; 2; 59999]
             idleServer)
  = Returned (fst (M.checks "ip-1" [0; 1; 2; 59999]
                     (localLimiter 3 (1000 * 60) ∅))).
Proof.
  apply (backends_agree 3 60 "chat" "ip-1" ∅ idleServer 0 [1; 2; 59999]).
  - lia.
  - lia.
  - reflexivity.
  - reflexivity.
  - reflexivity.
  - repeat constructor; lia.
Defined.

End LimiterFacts.

(** ** Floating-point arithmetic *)

Module FloatFacts.

Lemma SFmul_comm (prec emax : Z) (x y : spec_float) :
  SFmul prec emax x y = SFmul prec emax y x.
Proof.
  destruct x as [sx | sx | | sx mx ex], y as [sy | sy | | sy my ey]; simpl;
    try reflexivity; try (rewrite (xorb_comm sx sy); reflexivity).
  rewrite (xorb_comm sx sy), (Pos.mul_comm mx my), (Z.add_comm ex ey).
  reflexivity.
Qed.

Lemma mul_comm (x y : float) : (x * y = y * x)%float.
Proof.
  apply Prim2SF_inj. rewrite !mul_spec. apply SFmul_comm.
Qed.

Lemma mul_nan_r (x : float) : (x * nan = nan)%float.
Proof.
  apply Prim2SF_inj. rewrite mul_spec. change (Prim2SF nan) with S754_nan.
  unfold SF64mul. destruct (Prim2SF x); reflexivity.
Qed.

Lemma add_nan_r (x : float) : (x + nan = nan)%float.
Proof.
  apply Prim2SF_inj. rewrite add_spec. change (Prim2SF nan) with S754_nan.
  unfold SF64add. destruct (Prim2SF x); reflexivity.
Qed.

Lemma add_nan_l (x : float) : (nan + x = nan)%float.
Proof.
  apply Prim2SF_inj. rewrite add_spec. reflexivity.
Qed.

Lemma div_nan_l (x : float) : (nan / x = nan)%float.
Proof.
  apply Prim2SF_inj. rewrite div_spec. reflexivity.
Qed.

Lemma leb_nan_r (x : float) : (x <=? nan)%float = false.
Proof.
  rewrite leb_spec. change (Prim2SF nan) with S754_nan.
  unfold SFleb, SFcompare. destruct (Prim2SF x); reflexivity.
Qed.

End FloatFacts.

(** ** The similarity of the cache *)

Module SimilarityFacts.

Import SemanticCache CacheSpec FloatFacts.

Lemma cosineLoop_swap (a b : list float) :
  length a = length b ->
  forall dot normA normB : float,
    cosineLoop b a dot normB normA
    = let '(d, x, y) := cosineLoop a b dot normA normB in (d, y, x).
Proof.
  revert b. induction a as [| ai a IH]; intros [| bi b] Hlen dot normA normB;
    try discriminate; [reflexivity |].
  simpl. rewrite (mul_comm bi ai). apply IH. simpl in Hlen. lia.
Qed.

(** X1.  [cosineSimilarity] is symmetric on vectors of the same length: the
    two calls compute the same binary64 number, bit for bit. *)
Theorem cosineSimilarity_symmetric (a b : list float) :
  length a = length b -> cosineSimilarity a b = cosineSimilarity b a.
Proof.
  intros Hlen. unfold cosineSimilarity.
  rewrite (cosineLoop_swap a b Hlen).
  destruct (cosineLoop a b 0 0 0) as [[d x] y].
  rewrite (mul_comm (PrimFloat.sqrt y) (PrimFloat.sqrt x)). reflexivity.
Qed.

Lemma cosineLoop_stuck (a b : list float) (normA : float) :
  exists normA', cosineLoop a b nan normA nan = (nan, normA', nan).
Proof.
  revert b normA. induction a as [| ai a IH]; intros b normA; simpl.
  - eauto.
  - rewrite !add_nan_l. apply IH.
Qed.

Lemma cosineLoop_short (a b : list float) :
  (length b < length a)%nat ->
  forall dot normA normB : float,
    exists normA', cosineLoop a b dot normA normB = (nan, normA', nan).
Proof.
  revert b. induction a as [| ai a IH]; intros b Hlen dot normA normB.
  - simpl in Hlen. lia.
  - destruct b as [| bi b]; simpl.
    + rewrite !mul_nan_r, !add_nan_r. apply cosineLoop_stuck.
    + apply IH. simpl in Hlen. lia.
Qed.

Lemma cosineSimilarity_short (a b : list float) :
  (length b < length a)%nat -> cosineSimilarity a b = nan.
Proof.
  intros Hlen. unfold cosineSimilarity.
  destruct (cosineLoop_short a b Hlen 0%float 0%float 0%float) as (x & ->).
  apply div_nan_l.
Qed.

Lemma scanEntries_none (q : list float) (t : float)
  (values : list SemanticCacheEntry) :
  Forall (fun e => meets q t e = false) values -> scanEntries q t values = None.
Proof.
  induction 1 as [| e l He Hl IH]; simpl; [reflexivity |].
  unfold meets in He. rewrite He. exact IH.
Qed.

(** X2.  An entry whose embedding has fewer components than the query
    embedding has similarity NaN to it and is never a hit, whatever the
    threshold: a lookup over a cache of such entries returns null. *)
Theorem shorter_embeddings_never_match (w : Redis) (queryEmbedding : list float)
  (similarityThreshold : float) :
  Forall (fun kv => (length (embedding (snd kv)) < length queryEmbedding)%nat)
    (fields w) ->
  Forall (fun kv => cosineSimilarity queryEmbedding (embedding (snd kv)) = nan)
    (fields w) /\
  outcome (searchSemanticCache queryEmbedding similarityThreshold w)
  = Returned None.
Proof.
  intros Hshort.
  assert (Forall (fun kv => cosineSimilarity queryEmbedding (embedding (snd kv))
                            = nan) (fields w)) as Hnan.
  { eapply List.Forall_impl; [| exact Hshort].
    intros kv Hkv. apply cosineSimilarity_short, Hkv. }
  split; [exact Hnan |].
  destruct (faults w) as [| [m |] rest] eqn:Hf.
  - rewrite CacheFacts.searchSemanticCache_scans
      by (unfold nextSucceeds; rewrite Hf; reflexivity).
    unfold outcome. simpl. f_equal. apply scanEntries_none.
    apply List.Forall_forall. intros e He. apply in_map_iff in He.
    destruct He as (kv & <- & Hkv).
    assert (In kv (fields w)) as Hin.
    { unfold live in Hkv. destruct (expired w); [contradiction | exact Hkv]. }
    rewrite List.Forall_forall in Hnan. unfold meets.
    rewrite (Hnan kv Hin). apply leb_nan_r.
  - eapply CacheFacts.searchSemanticCache_read_failure, Hf.
  - rewrite CacheFacts.searchSemanticCache_scans
      by (unfold nextSucceeds; rewrite Hf; reflexivity).
    unfold outcome. simpl. f_equal. apply scanEntries_none.
    apply List.Forall_forall. intros e He. apply in_map_iff in He.
    destruct He as (kv & <- & Hkv).
    assert (In kv (fields w)) as Hin.
    { unfold live in Hkv. destruct (expired w); [contradiction | exact Hkv]. }
    rewrite List.Forall_forall in Hnan. unfold meets.
    rewrite (Hnan kv Hin). apply leb_nan_r.
Qed.

Lemma cosineLoop_firstn (a b : list float) :
  forall dot normA normB : float,
    cosineLoop a (firstn (length a) b) dot normA normB
    = cosineLoop a b dot normA normB.
Proof.
  revert b. induction a as [| ai a IH]; intros b dot normA normB;
    [reflexivity |].
  destruct b as [| bi b]; [reflexivity |].
  simpl. apply IH.
Qed.

(** X3.  The components of the second vector beyond the length of the
    first are never read: the similarity is the one to its prefix. *)
Theorem cosineSimilarity_reads_a_prefix (a b : list float) :
  cosineSimilarity a b = cosineSimilarity a (firstn (length a) b).
Proof.
  unfold cosineSimilarity. rewrite cosineLoop_firstn. reflexivity.
Qed.

(** *** At concrete inputs *)

Import CacheExamples MoreExamples.

Lemma cosineSimilarity_symmetric_witness :
  cosineSimilarity [1; 2]%float [3; 4]%float
  = cosineSimilarity [3; 4]%float [1; 2]%float.
Proof.
  apply (cosineSimilarity_symmetric [1; 2]%float [3; 4]%float).
  reflexivity.
Defined.

Lemma shorter_embeddings_never_match_witness :
  outcome (searchSemanticCache [1; 0]%float 0.5%float narrowCache)
  = Returned None.
Proof.
  destruct (shorter_embeddings_never_match narrowCache [1; 0]%float 0.5%float)
    as [_ Hmiss]; [| exact Hmiss].
  repeat constructor.
Defined.

End SimilarityFacts.

(** ** The threshold of a lookup *)

Module ThresholdFacts.

Import SemanticCache CacheSpec CacheFacts.

Lemma SFleb_trans (x y z : spec_float) :
  SFleb x y = true -> SFleb y z = true -> SFleb x z = true.
Proof.
  unfold SFleb, SFcompare.
  destruct x as [sx | sx | | sx mx ex], y as [sy | sy | | sy my ey],
           z as [sz | sz | | sz mz ez];
    try discriminate; try reflexivity;
    try (destruct sx; try discriminate; try reflexivity);
    try (destruct sy; try discriminate; try reflexivity);
    try (destruct sz; try discriminate; try reflexivity).
  all: repeat match goal with
       | |- context [Z.compare ?a ?b] => destruct (Z.compare_spec a b)
       | |- context [Pos.compare_cont Eq ?a ?b] =>
           change (Pos.compare_cont Eq a b) with (Pos.compare a b);
           destruct (Pos.compare_spec a b)
       end; simpl; try discriminate; try reflexivity; intros; try lia.
Qed.

Lemma leb_trans (x y z : float) :
  (x <=? y)%float = true -> (y <=? z)%float = true -> (x <=? z)%float = true.
Proof.
  rewrite !leb_spec. apply SFleb_trans.
Qed.

Lemma scanEntries_lower (q : list float) (lower t : float)
  (values : list SemanticCacheEntry) (r : string) :
  (lower <=? t)%float = true ->
  scanEntries q t values = Some r ->
  exists r', scanEntries q lower values = Some r'.
Proof.
  intros Hle. induction values as [| e l IH]; simpl; [discriminate |].
  destruct (t <=? cosineSimilarity q (embedding e))%float eqn:Ht.
  - intros _. rewrite (leb_trans _ _ _ Hle Ht). eauto.
  - intros Hr. destruct (lower <=? cosineSimilarity q (embedding e))%float;
      [eauto | auto].
Qed.

(** X4.  Lowering the threshold never turns a hit into a miss: when a
    lookup whose read succeeds hits at a threshold, it hits at every lower
    threshold too (possibly on an earlier entry, since the first entry to
    reach the threshold wins). *)
Theorem lower_threshold_keeps_the_hit (w : Redis) (queryEmbedding : list float)
  (similarityThreshold lower : float) (r : string) :
  nextSucceeds (faults w) ->
  (lower <=? similarityThreshold)%float = true ->
  outcome (searchSemanticCache queryEmbedding similarityThreshold w)
  = Returned (Some r) ->
  exists r',
    outcome (searchSemanticCache queryEmbedding lower w) = Returned (Some r').
Proof.
  intros Hok Hle. rewrite !(searchSemanticCache_scans _ _ _ Hok).
  unfold outcome. simpl. intros [= Hr].
  destruct (scanEntries_lower _ _ _ _ _ Hle Hr) as (r' & ->). eauto.
Qed.

(** *** At concrete inputs *)

Import CacheExamples.

Lemma lower_threshold_keeps_the_hit_witness :
  exists r',
    outcome (searchSemanticCache [1; 0]%float 0.5%float oneAnswer)
    = Returned (Some r').
Proof.
  apply (lower_threshold_keeps_the_hit oneAnswer [1; 0]%float
           0.875%float 0.5%float "sunny").
  - reflexivity.
  - reflexivity.
  - reflexivity.
Defined.

End ThresholdFacts.

(** ** The lifetime of the cache *)

Module LifetimeFacts.

Import SemanticCache CacheSpec JsFacts CacheFacts.

(** X5.  A lookup only reads: hit, miss or failure, it leaves the entries,
    their order and the deadline of the hash as they were, so reading the
    cache never prolongs its life. *)
Theorem lookup_only_reads (w : Redis) (queryEmbedding : list float)
  (similarityThreshold : float) :
  let w' := world (searchSemanticCache queryEmbedding similarityThreshold w) in
  fields w' = fields w /\ expireAt w' = expireAt w /\ clock w' = clock w /\
  actions w' = actions w ++ [RedisCommand].
Proof.
  unfold searchSemanticCache, try_catch, bind, hgetall, command, gets, world.
  simpl.
  destruct (faults w) as [| [m |] rest]; simpl;
    try (destruct (live _) as [| kv h]; simpl); auto.
Qed.

(** *** The deadline a store sets *)

Lemma expire_deadline (seconds : Z) (w : Redis) :
  quiet (faults w) = true -> expired w = false -> fields w <> [] ->
  0 < seconds ->
  exists w',
    expire seconds w = (Returned tt, w') /\ carriesOn w w' /\
    fields w' = fields w /\ expireAt w' = Some (clock w + 1000 * seconds).
Proof.
  intros Hq He Hne Hpos. unfold expire. eexists.
  run_command Hq Hq'. unfold modify. split; [reflexivity |].
  destruct (purge_same (settle w)) as (Hf & Hp & Hc & He' & Hd).
  destruct (settle_same w) as (Hsf & _ & Hc' & _).
  assert (Hlive : fields (purge (settle w)) = fields w).
  { rewrite Hf, live_settle. unfold live. rewrite He. reflexivity. }
  rewrite Hlive. destruct (fields w) as [| kv h] eqn:Hw; [congruence |].
  unfold carriesOn.
  assert ((seconds <=? 0) = false) as -> by (apply Z.leb_gt; lia).
  simpl. rewrite Hp, Hc, Hc'. repeat split; auto.
Qed.

Lemma read_keeps {A} (f : Redis -> A) (w : Redis) :
  quiet (faults w) = true ->
  exists w',
    command RedisCommand (gets f) w = (Returned (f (settle w)), w') /\
    carriesOn w w' /\ fields w' = fields w /\ expireAt w' = expireAt w.
Proof.
  intros Hq. run_command Hq Hq'. unfold gets. eexists. split; [reflexivity |].
  destruct (settle_same w) as (Hf & Hd & Hc & _).
  unfold carriesOn. auto.
Qed.

Lemma hdel_deadline (keys : list string) (w : Redis) :
  quiet (faults w) = true -> expired w = false ->
  exists w',
    hdel keys w = (Returned tt, w') /\ carriesOn w w' /\
    fields w' = removeFields keys (fields w) /\
    (fields w' = [] \/ expireAt w' = expireAt w).
Proof.
  intros Hq He. unfold hdel. eexists.
  run_command Hq Hq'. unfold modify. split; [reflexivity |].
  destruct (purge_same (settle w)) as (Hf & Hp & Hc & He' & Hd).
  destruct (settle_same w) as (Hsf & Hsd & Hc' & _).
  assert (Hlive : fields (purge (settle w)) = fields w).
  { rewrite Hf, live_settle. unfold live. rewrite He. reflexivity. }
  rewrite expired_settle, He, Hsd in Hd.
  rewrite Hlive. unfold carriesOn.
  destruct (removeFields keys (fields w)) as [| kv h] eqn:Hr; simpl;
    rewrite Hp, Hc, Hc'; repeat split; auto.
Qed.

(** After a store whose commands all succeed, with a positive time to
    live: the hash is empty or its deadline is the one the store set. *)
Lemma store_deadline (q : string) (e : list float) (r : string) (ttl : Z)
  (w : Redis) :
  quiet (faults w) = true -> 0 < ttl ->
  let w' := world (storeInSemanticCache q e r ttl w) in
  fields w' = [] \/ expireAt w' = Some (clock w + 1000 * ttl).
Proof.
  intros Hq Httl.
  unfold storeInSemanticCache, try_catch, bind, randomUUID, DateNow, gets.
  set (w0 := {| fields := fields w; expireAt := expireAt w; clock := clock w;
                uuids := uuids w; drawn := S (drawn w); faults := faults w;
                actions := actions w |}).
  set (entry := jsonEntry {| query := q; embedding := e; response := r;
                             timestamp := clock w |}).
  change (clock w0) with (clock w).
  fold entry.
  destruct (hset_quiet (uuids w (drawn w)) entry w0 Hq)
    as (w1 & E1 & [Hq1 Hc1] & Hf1 & He1).
  change (clock w0) with (clock w) in Hc1.
  rewrite E1.
  assert (fields w1 <> []) as Hne by (rewrite Hf1; apply upsert_nonempty).
  destruct (expire_deadline ttl w1 Hq1 He1 Hne Httl)
    as (w2 & E2 & [Hq2 Hc2] & Hf2 & Hd2).
  rewrite E2.
  assert (expired w2 = false) as He2.
  { unfold expired. rewrite Hd2, Hc2. apply Z.ltb_ge. lia. }
  unfold hlen.
  destruct (read_keeps (fun w => length (live w)) w2 Hq2)
    as (w3 & E3 & [Hq3 Hc3] & Hf3 & Hd3).
  rewrite E3.
  assert (expired w3 = false) as He3.
  { unfold expired. rewrite Hd3, Hd2, Hc3, Hc2. apply Z.ltb_ge. lia. }
  destruct (Nat.ltb MAX_CACHE_ENTRIES (length (live (settle w2)))).
  - unfold evictOldestEntries, bind, hgetall.
    destruct (read_keeps live w3 Hq3) as (w4 & E4 & [Hq4 Hc4] & Hf4 & Hd4).
    rewrite E4.
    assert (expired w4 = false) as He4.
    { unfold expired. rewrite Hd4, Hd3, Hd2, Hc4, Hc3, Hc2. apply Z.ltb_ge. lia. }
    match goal with
    | |- context [Nat.ltb 0 (length ?sorted)] =>
        destruct (Nat.ltb 0 (length sorted));
        [destruct (hdel_deadline (map fst sorted) w4 Hq4 He4)
           as (w5 & E5 & _ & _ & Hd5); rewrite E5 |]
    end; simpl.
    + destruct Hd5 as [Hd5 | Hd5]; [left; exact Hd5 | right].
      rewrite Hd5, Hd4, Hd3, Hd2, Hc1. reflexivity.
    + right. rewrite Hd4, Hd3, Hd2, Hc1. reflexivity.
  - simpl. right. rewrite Hd3, Hd2, Hc1. reflexivity.
Qed.

(** X6.  The time to live slides for the whole cache: after a store made
    at time [now] with a positive [ttlSeconds], whose commands all succeed,
    every entry the store left, however old, is live up to
    [now + 1000 * ttlSeconds] and none is afterwards, so that every lookup
    made later than that returns null. *)
Theorem store_slides_the_deadline (w : Redis) (query : string)
  (embedding : list float) (response : string) (ttlSeconds : Z) :
  quiet (faults w) = true -> 0 < ttlSeconds ->
  let w' := world (storeInSemanticCache query embedding response ttlSeconds w) in
  (forall later : Z,
     live (setClock later w')
     = if later <=? clock w + 1000 * ttlSeconds then fields w' else []) /\
  (forall (later : Z) (queryEmbedding : list float) (similarityThreshold : float),
     clock w + 1000 * ttlSeconds < later ->
     outcome (searchSemanticCache queryEmbedding similarityThreshold
                (setClock later w'))
     = Returned None).
Proof.
  intros Hq Httl w'.
  pose proof (store_deadline query embedding response ttlSeconds w Hq Httl)
    as Hd. fold w' in Hd.
  assert (forall later : Z,
            live (setClock later w')
            = if later <=? clock w + 1000 * ttlSeconds then fields w' else [])
    as Hlive.
  { intros later. unfold live, expired. simpl.
    destruct Hd as [Hd | Hd]; rewrite Hd.
    - destruct (expireAt w') as [d |]; [destruct (d <? later) |];
        destruct (later <=? clock w + 1000 * ttlSeconds); reflexivity.
    - destruct (Z.leb_spec later (clock w + 1000 * ttlSeconds)).
      + assert ((clock w + 1000 * ttlSeconds <? later) = false) as ->
          by (apply Z.ltb_ge; lia). reflexivity.
      + assert ((clock w + 1000 * ttlSeconds <? later) = true) as ->
          by (apply Z.ltb_lt; lia). reflexivity. }
  split; [exact Hlive |].
  intros later qe t Hlate.
  destruct (faults (setClock later w')) as [| [m |] rest] eqn:Hf.
  - rewrite searchSemanticCache_scans
      by (unfold nextSucceeds; rewrite Hf; reflexivity).
    rewrite Hlive.
    assert ((later <=? clock w + 1000 * ttlSeconds) = false) as ->
      by (apply Z.leb_gt; lia). reflexivity.
  - eapply searchSemanticCache_read_failure, Hf.
  - rewrite searchSemanticCache_scans
      by (unfold nextSucceeds; rewrite Hf; reflexivity).
    rewrite Hlive.
    assert ((later <=? clock w + 1000 * ttlSeconds) = false) as ->
      by (apply Z.leb_gt; lia). reflexivity.
Qed.

(** X7.  When the [HSET] of a store succeeds and its [EXPIRE] fails, the
    store still returns normally: the entry is in the hash, the deadline is
    not renewed (a hash that was absent or expired is left without any
    deadline) and the size limit is not enforced. *)
Theorem store_with_failed_expire (w : Redis) (query : string)
  (embedding : list float) (response : string) (ttlSeconds : Z)
  (message : string) (rest : list (option string)) :
  faults w = None :: Some message :: rest ->
  let run := storeInSemanticCache query embedding response ttlSeconds w in
  outcome run = Returned tt /\
  fields (world run)
  = upsert (uuids w (drawn w))
      (jsonEntry {| SemanticCache.query := query;
                    SemanticCache.embedding := embedding;
                    SemanticCache.response := response;
                    timestamp := clock w |})
      (live w) /\
  expireAt (world run) = (if expired w then None else expireAt w) /\
  actions (world run) = actions w ++ [RedisCommand; RedisCommand].
Proof.
  intros Hf.
  unfold storeInSemanticCache, try_catch, bind, randomUUID, DateNow, gets,
    hset, expire, command, modify, outcome, world.
  simpl. rewrite Hf. simpl.
  unfold purge, live, expired. simpl.
  destruct (expireAt w) as [d |]; [destruct (d <? clock w) |]; simpl;
    rewrite <- ?app_assoc; auto.
Qed.

(** *** At concrete inputs *)

Import CacheExamples.

Lemma store_slides_the_deadline_witness :
  outcome (searchSemanticCache [1; 0]%float 0.5%float
             (setClock 60011
                (world (storeInSemanticCache "q" [1; 0]%float "r" 60 oneAnswer))))
  = Returned None.
Proof.
  destruct (store_slides_the_deadline oneAnswer "q" [1; 0]%float "r" 60
              eq_refl ltac:(lia)) as [_ Hlate].
  apply Hlate. simpl. lia.
Defined.

Lemma store_with_failed_expire_witness :
  let run := storeInSemanticCache "q" [1; 0]%float "r" 3600
               (setFaults [None; Some "ECONNRESET"] emptyCache) in
  outcome run = Returned tt /\ length (fields (world run)) = 1%nat /\
  expireAt (world run) = None.
Proof.
  destruct (store_with_failed_expire
              (setFaults [None; Some "ECONNRESET"] emptyCache) "q" [1; 0]%float
              "r" 3600 "ECONNRESET" [] eq_refl) as (Hout & Hfields & Hdeadline & _).
  split; [exact Hout |]. split; [rewrite Hfields; reflexivity | exact Hdeadline].
Defined.

End LifetimeFacts.

(** ** A store without time to live *)

Module WipeFacts.

Import SemanticCache CacheSpec JsFacts CacheFacts.

(** X8.  A store with a time to live of zero or less, when its commands
    succeed, deletes the whole hash: the new entry and every entry stored
    before are gone, and the lookups that follow return null. *)
Theorem store_without_time_to_live_wipes (w : Redis) (query : string)
  (embedding : list float) (response : string) (ttlSeconds : Z)
  (queryEmbedding : list float) (similarityThreshold : float) (later : Z) :
  quiet (faults w) = true -> ttlSeconds <= 0 ->
  let w' := world (storeInSemanticCache query embedding response ttlSeconds w) in
  fields w' = [] /\
  outcome (searchSemanticCache queryEmbedding similarityThreshold
             (setClock later w'))
  = Returned None.
Proof.
  intros Hq Httl w'.
  destruct (store_quiet query embedding response ttlSeconds w Hq)
    as (w1 & E & [Hq1 Hc1] & He1 & Hf1).
  subst w'. rewrite E. unfold world. simpl snd.
  apply Z.leb_le in Httl. rewrite Httl in Hf1.
  split; [exact Hf1 |].
  assert (quiet (faults (setClock later w1)) = true) as Hq' by exact Hq1.
  rewrite (searchSemanticCache_scans _ _ _ (quiet_next _ Hq')).
  unfold live. simpl fields. rewrite Hf1.
  destruct (expired (setClock later w1)); reflexivity.
Qed.

(** *** At concrete inputs *)

Import CacheExamples.

Lemma store_without_time_to_live_wipes_witness :
  let w' := world (storeInSemanticCache "q" [1; 0]%float "r" 0 oneAnswer) in
  fields w' = [] /\
  outcome (searchSemanticCache [1; 0]%float 0.5%float (setClock 11 w'))
  = Returned None.
Proof.
  apply (store_without_time_to_live_wipes oneAnswer "q" [1; 0]%float
           "r" 0 [1; 0]%float 0.5%float 11).
  - reflexivity.
  - lia.
Defined.

End WipeFacts.

(** ** No closer document is left out *)

Module SearchFacts.

Import Supabase StoreSpec StoreFacts.

Lemma passes_float8_ge (t : Q) (s : float8) :
  passes t s -> float8_ge s (Number t) = true.
Proof.
  destruct s as [q |]; simpl; [| reflexivity].
  apply Qle_bool_iff.
Qed.

Section Closest.

Context {vector : Type}.
Variable cosine_distance : vector -> vector -> float8.
Variable planOf : vector -> Q -> Z -> list (@Document vector) -> @Plan vector.

Lemma qualifying_complete (plan : @Plan vector) (q : vector) (t : Q)
  (rows : list (@Document vector)) (d : @Document vector) (e : vector) :
  In d rows -> visited plan d = true -> embedding d = Some e ->
  passes t (oneMinus (cosine_distance e q)) ->
  In (d, cosine_distance e q) (qualifying cosine_distance plan q t rows).
Proof.
  intros Hin Hv He Ht. induction rows as [| d' rows IH]; [contradiction |].
  cbn [qualifying]. destruct Hin as [-> | Hin].
  - rewrite He. cbv zeta. rewrite Hv, (passes_float8_ge _ _ Ht).
    left. reflexivity.
  - destruct (embedding d') as [e' |]; [| auto]. cbv zeta.
    destruct (visited plan d' &&
              float8_ge (oneMinus (cosine_distance e' q)) (Number t));
      [right |]; auto.
Qed.

(** X9.  When the plan reads every row of the table, [match_documents]
    leaves out no document that is closer than one it returns: a document
    that passes the threshold and that a returned record may not come
    before (the record is less similar, or its similarity is NaN and the
    document's is not) is itself reported by a returned record; and when
    fewer than [match_count] records are returned, every document that
    passes the threshold is reported by one of them. *)
Theorem match_documents_returns_the_closest (query_embedding : vector)
  (match_threshold : Q) (match_count : Z) (rows : list (@Document vector))
  (results : list SearchResult) :
  readsEveryRow (planOf query_embedding match_threshold match_count rows) rows ->
  match_documents cosine_distance planOf query_embedding match_threshold
    match_count rows = Data results ->
  (forall (d : @Document vector) (e : vector) (r : SearchResult),
     In d rows -> embedding d = Some e ->
     passes match_threshold (oneMinus (cosine_distance e query_embedding)) ->
     In r results ->
     ~ noLess (result_similarity r)
         (oneMinus (cosine_distance e query_embedding)) ->
     exists r', In r' results /\ reports cosine_distance query_embedding r' d) /\
  ((length results < Z.to_nat match_count)%nat ->
   forall (d : @Document vector) (e : vector),
     In d rows -> embedding d = Some e ->
     passes match_threshold (oneMinus (cosine_distance e query_embedding)) ->
     exists r', In r' results /\ reports cosine_distance query_embedding r' d).
Proof.
  unfold match_documents. intros Hall.
  destruct ((match_count <? -2147483648) || (2147483647 <? match_count));
    [discriminate |].
  destruct (match_count <? 0); [discriminate |].
  set (plan := planOf query_embedding match_threshold match_count rows) in *.
  cbv zeta. intros [= <-].
  set (ordered := orderByDistance plan
                    (qualifying cosine_distance plan query_embedding
                       match_threshold rows)).
  assert (forall d e,
            In d rows -> embedding d = Some e ->
            passes match_threshold (oneMinus (cosine_distance e query_embedding)) ->
            In (d, cosine_distance e query_embedding) ordered) as Hordered.
  { intros d e Hin He Ht.
    apply (Permutation_in _ (orderByDistance_perm plan _)).
    apply qualifying_complete; auto. }
  assert (forall d e,
            embedding d = Some e ->
            In (d, cosine_distance e query_embedding)
              (firstn (Z.to_nat match_count) ordered) ->
            exists r', In r' (map selected (firstn (Z.to_nat match_count) ordered)) /\
                       reports cosine_distance query_embedding r' d) as Hreported.
  { intros d e He Hd.
    exists (selected (d, cosine_distance e query_embedding)). split.
    - apply in_map, Hd.
    - exists e. simpl. auto. }
  split.
  - intros d e r Hin He Ht Hr Hless.
    apply in_map_iff in Hr. destruct Hr as (y & <- & Hy).
    pose proof (Hordered d e Hin He Ht) as Hd.
    rewrite <- (firstn_skipn (Z.to_nat match_count) ordered) in Hd.
    apply in_app_iff in Hd. destruct Hd as [Hd | Hd].
    + apply (Hreported d e He Hd).
    + exfalso. apply Hless.
      pose proof (CacheFacts.sorted_firstn_skipn (@closer vector) ordered
                    (Z.to_nat match_count) y
                    (d, cosine_distance e query_embedding)
                    (orderByDistance_sorted plan _) Hy Hd) as Hle.
      simpl. apply oneMinus_noLess. exact Hle.
  - rewrite length_map, length_firstn. intros Hshort d e Hin He Ht.
    apply (Hreported d e He).
    rewrite firstn_all2 by lia. apply (Hordered d e Hin He Ht).
Qed.

End Closest.

(** *** At concrete inputs *)

Import MoreExamples.

Lemma match_documents_returns_the_closest_witness :
  (forall (d : @Document (list float)) (e : list float) (r : SearchResult),
     In d (documents library) -> embedding d = Some e ->
     passes (1 # 2) (oneMinus (binary64Distance e [3; 4]%float)) ->
     In r [found "near" 1] ->
     ~ noLess (result_similarity r) (oneMinus (binary64Distance e [3; 4]%float)) ->
     exists r', In r' [found "near" 1] /\
                reports binary64Distance [3; 4]%float r' d) /\
  ((length [found "near" 1] < Z.to_nat 1)%nat ->
   forall (d : @Document (list float)) (e : list float),
     In d (documents library) -> embedding d = Some e ->
     passes (1 # 2) (oneMinus (binary64Distance e [3; 4]%float)) ->
     exists r', In r' [found "near" 1] /\
                reports binary64Distance [3; 4]%float r' d).
Proof.
  apply (match_documents_returns_the_closest binary64Distance alwaysScan
           [3; 4]%float (1 # 2) 1 (documents library) [found "near" 1]).
  - intros d Hd. reflexivity.
  - vm_compute. reflexivity.
Defined.

End SearchFacts.

(** ** The number of documents asked for *)

Module CountFacts.

Import Supabase StoreSpec StoreFacts.

Lemma sorted_unique {A} (R : A -> A -> Prop) :
  (forall x y, R x y -> R y x -> False) ->
  forall l1 l2 : list A,
    StronglySorted R l1 -> StronglySorted R l2 -> Permutation l1 l2 -> l1 = l2.
Proof.
  intros Hasym. induction l1 as [| x l1 IH]; intros l2 S1 S2 P.
  - apply Permutation_nil in P. symmetry. exact P.
  - destruct l2 as [| y l2].
    { apply Permutation_sym, Permutation_nil in P. discriminate P. }
    inversion S1 as [| ? ? S1' F1]; subst.
    inversion S2 as [| ? ? S2' F2]; subst.
    assert (x = y) as ->.
    { assert (In x (y :: l2)) as Hx
        by (apply (Permutation_in _ P); left; reflexivity).
      assert (In y (x :: l1)) as Hy
        by (apply (Permutation_in _ (Permutation_sym P)); left; reflexivity).
      destruct Hx as [-> | Hx]; [reflexivity |].
      destruct Hy as [-> | Hy]; [reflexivity |].
      exfalso. rewrite List.Forall_forall in F1, F2.
      apply (Hasym x y); [apply F1, Hy | apply F2, Hx]. }
    f_equal. apply IH; auto. apply (Permutation_cons_inv P).
Qed.

Section Counts.

Context {vector : Type}.
Variable cosine_distance : vector -> vector -> float8.
Variable planOf : vector -> Q -> Z -> list (@Document vector) -> @Plan vector.

Lemma qualifying_same_rows (p1 p2 : @Plan vector) (q : vector) (t : Q)
  (rows : list (@Document vector)) :
  readsEveryRow p1 rows -> readsEveryRow p2 rows ->
  qualifying cosine_distance p1 q t rows = qualifying cosine_distance p2 q t rows.
Proof.
  induction rows as [| d rows IH]; intros H1 H2; [reflexivity |].
  cbn [qualifying].
  rewrite (H1 d (or_introl eq_refl)), (H2 d (or_introl eq_refl)).
  rewrite IH.
  - reflexivity.
  - intros d' Hd'. apply H1. right. exact Hd'.
  - intros d' Hd'. apply H2. right. exact Hd'.
Qed.

Lemma qualifying_NoDup (plan : @Plan vector) (q : vector) (t : Q)
  (rows : list (@Document vector)) :
  List.NoDup rows -> List.NoDup (qualifying cosine_distance plan q t rows).
Proof.
  induction 1 as [| d rows Hd Hrows IH]; cbn [qualifying]; [constructor |].
  destruct (embedding d) as [e |]; [| exact IH]. cbv zeta.
  destruct (visited plan d && float8_ge (oneMinus (cosine_distance e q)) (Number t));
    [| exact IH].
  constructor; [| exact IH].
  intros Hin. apply Hd.
  apply (qualifying_In cosine_distance plan q t rows _) in Hin.
  destruct Hin as [Hin _]. exact Hin.
Qed.

Lemma qualifying_apart (plan : @Plan vector) (q : vector) (t : Q)
  (rows : list (@Document vector)) (x y : @Document vector * float8) :
  distinctDistances cosine_distance q rows ->
  In x (qualifying cosine_distance plan q t rows) ->
  In y (qualifying cosine_distance plan q t rows) ->
  x <> y -> tied (snd x) (snd y) = false.
Proof.
  intros Hdist Hx Hy Hne.
  apply qualifying_In in Hx. destruct Hx as (Hx & e & He & Hdx & _).
  apply qualifying_In in Hy. destruct Hy as (Hy & e' & He' & Hdy & _).
  rewrite Hdx, Hdy. apply (Hdist (fst x) (fst y)); auto.
  intros Heq. apply Hne.
  destruct x as [d a], y as [d' b]. simpl in *. subst d'.
  assert (e = e') as <- by congruence. congruence.
Qed.

Lemma sorted_strictly (l : list (@Document vector * float8)) :
  StronglySorted closer l -> List.NoDup l ->
  (forall x y, In x l -> In y l -> x <> y -> tied (snd x) (snd y) = false) ->
  StronglySorted strictlyCloser l.
Proof.
  induction 1 as [| x l Hs IH Hx]; intros Hnd Hapart; constructor.
  - apply IH.
    + inversion Hnd; assumption.
    + intros a b Ha Hb. apply Hapart; right; assumption.
  - inversion Hnd as [| ? ? Hnotin Hnd']; subst.
    apply List.Forall_forall. intros y Hy.
    rewrite List.Forall_forall in Hx. specialize (Hx y Hy).
    unfold closer in Hx. split; [exact Hx |].
    assert (tied (snd x) (snd y) = false) as Ht.
    { apply Hapart; [left; reflexivity | right; exact Hy |].
      intros ->. contradiction. }
    unfold tied in Ht. rewrite Hx in Ht. exact Ht.
Qed.

(** The answer of a scan of rows that are all at different distances does
    not depend on the rest of the plan. *)
Lemma ordered_once (p1 p2 : @Plan vector) (q : vector) (t : Q)
  (rows : list (@Document vector)) :
  readsEveryRow p1 rows -> readsEveryRow p2 rows ->
  List.NoDup rows -> distinctDistances cosine_distance q rows ->
  orderByDistance p1 (qualifying cosine_distance p1 q t rows)
  = orderByDistance p2 (qualifying cosine_distance p2 q t rows).
Proof.
  intros H1 H2 Hnd Hdist.
  rewrite (qualifying_same_rows p1 p2 q t rows H1 H2).
  set (found := qualifying cosine_distance p2 q t rows).
  assert (forall p, StronglySorted strictlyCloser (orderByDistance p found))
    as Hstrict.
  { intros p. apply sorted_strictly.
    - apply orderByDistance_sorted.
    - apply (Permutation_NoDup (orderByDistance_perm p found)).
      apply qualifying_NoDup, Hnd.
    - intros x y Hx Hy.
      apply (Permutation_in _ (Permutation_sym (orderByDistance_perm p found)))
        in Hx, Hy.
      apply (qualifying_apart p2 q t rows); assumption. }
  apply (sorted_unique strictlyCloser).
  - unfold strictlyCloser. intros x y [Hxy _] [_ Hyx]. congruence.
  - apply Hstrict.
  - apply Hstrict.
  - eapply perm_trans; [apply Permutation_sym, orderByDistance_perm |].
    apply orderByDistance_perm.
Qed.

(** X10.  Asking for fewer documents gives a prefix of the longer answer,
    when both calls read every row of the table and no two rows are at the
    same distance from the query: the records returned for [match_count =
    n] are then the first [n] of those returned for any larger count, with
    the same threshold. *)
Theorem fewer_results_are_a_prefix (query_embedding : vector)
  (match_threshold : Q) (fewer more : Z) (rows : list (@Document vector))
  (few many : list SearchResult) :
  fewer <= more ->
  readsEveryRow (planOf query_embedding match_threshold fewer rows) rows ->
  readsEveryRow (planOf query_embedding match_threshold more rows) rows ->
  List.NoDup rows ->
  distinctDistances cosine_distance query_embedding rows ->
  match_documents cosine_distance planOf query_embedding match_threshold fewer
    rows = Data few ->
  match_documents cosine_distance planOf query_embedding match_threshold more
    rows = Data many ->
  few = firstn (Z.to_nat fewer) many.
Proof.
  unfold match_documents. intros Hle H1 H2 Hnd Hdist.
  destruct ((fewer <? -2147483648) || (2147483647 <? fewer)); [discriminate |].
  destruct ((more <? -2147483648) || (2147483647 <? more)); [discriminate |].
  destruct (fewer <? 0) eqn:Hf; [discriminate |].
  destruct (more <? 0) eqn:Hm; [discriminate |].
  cbv zeta. intros [= <-] [= <-].
  rewrite (ordered_once _ _ query_embedding match_threshold rows H1 H2 Hnd Hdist).
  rewrite <- firstn_map. rewrite <- firstn_map.
  rewrite firstn_firstn. f_equal.
  apply Z.ltb_ge in Hf. lia.
Qed.

End Counts.

(** *** At concrete inputs *)

Import MoreExamples.

Lemma fewer_results_are_a_prefix_witness :
  [found "near" 1] = firstn (Z.to_nat 1) [found "near" 1; found "close" 0x1.999999999999ap-1].
Proof.
  apply (fewer_results_are_a_prefix binary64Distance alwaysScan [3; 4]%float
           (1 # 2) 1 2 (documents library)).
  - lia.
  - intros d Hd. reflexivity.
  - intros d Hd. reflexivity.
  - repeat constructor; simpl; intuition discriminate.
  - intros d d' e e' Hd Hd' Hne He He'. simpl in Hd, Hd'.
    destruct Hd as [<- | [<- | [<- | [<- | []]]]];
      destruct Hd' as [<- | [<- | [<- | [<- | []]]]];
      try (exfalso; apply Hne; reflexivity);
      try discriminate He; try discriminate He';
      injection He as <-; injection He' as <-; vm_compute; reflexivity.
  - vm_compute. reflexivity.
  - vm_compute. reflexivity.
Defined.

End CountFacts.

(** ** Retrieval *)

Module RetrievalFacts.

Import Supabase StoreSpec StoreFacts Retrieval RetrievalSpec.

Section Retrieve.

Context {vector : Type}.
Variable toVector : list float -> vector.
Variable cosine_distance : vector -> vector -> float8.
Variable planOf : vector -> Q -> Z -> list (@Document vector) -> @Plan vector.
Variable embeddingModel : string -> list float.

Lemma searchSimilarDocuments_run (w : @Database vector) (e : list float)
  (t : Q) (n : Z) :
  let run := searchSimilarDocuments toVector cosine_distance planOf e t n w in
  documents (world run) = documents w /\
  actions (world run) = actions w ++ [DatabaseRequest] /\
  match outcome run with
  | Returned rows =>
      exists w', documents w' = documents w /\
                 answers toVector cosine_distance w' e t n rows
  | Thrown m => exists m', m = ("Failed to search documents: " ++ m')%string
  end.
Proof.
  unfold searchSimilarDocuments, bind, request, outcome, world. simpl.
  assert (forall w' : @Database vector, documents w' = documents w ->
            actions w' = actions w ++ [DatabaseRequest] ->
            let run :=
              match match_documents cosine_distance planOf (toVector e) t n
                      (documents w') with
              | Error message =>
                  throw ("Failed to search documents: " ++ message)%string
              | Data data => ret data
              end w' in
            documents (snd run) = documents w /\
            actions (snd run) = actions w ++ [DatabaseRequest] /\
            match fst run with
            | Returned rows =>
                exists w'', documents w'' = documents w /\
                            answers toVector cosine_distance w'' e t n rows
            | Thrown m =>
                exists m', m = ("Failed to search documents: " ++ m')%string
            end) as Hrun.
  { intros w' Hd Ha.
    destruct (match_documents cosine_distance planOf (toVector e) t n (documents w'))
      as [rows | m] eqn:Hm; simpl.
    - repeat split; auto. exists w'. split; [exact Hd |].
      eapply match_documents_answers, Hm.
    - repeat split; auto. eauto. }
  destruct (faults w) as [| [m |] rest] eqn:Hf; simpl.
  - exact (Hrun (addAction DatabaseRequest w) eq_refl eq_refl).
  - repeat split. eauto.
  - exact (Hrun (setFaults rest (addAction DatabaseRequest w)) eq_refl eq_refl).
Qed.

Lemma generateEmbedding_run (w : @Database vector) (text : string) :
  OpenAI.generateEmbedding embeddingModel text w
  = match faults w with
    | Some _ :: rest =>
        (Thrown "Failed to generate embedding",
         setFaults rest (addAction EmbeddingCall w))
    | None :: rest =>
        (Returned (embeddingModel text),
         setFaults rest (addAction EmbeddingCall w))
    | [] => (Returned (embeddingModel text), addAction EmbeddingCall w)
    end.
Proof.
  unfold OpenAI.generateEmbedding, try_catch, command. simpl.
  destruct (faults w) as [| [m |] rest]; reflexivity.
Qed.

Lemma sorted_map {A B} (R : A -> A -> Prop) (S : B -> B -> Prop) (f : A -> B)
  (l : list A) :
  (forall a b, R a b -> S (f a) (f b)) ->
  StronglySorted R l -> StronglySorted S (map f l).
Proof.
  intros Hf. induction 1 as [| x l Hs IH Hx]; simpl; constructor.
  - exact IH.
  - apply List.Forall_forall. intros y Hy. apply in_map_iff in Hy.
    destruct Hy as (z & <- & Hz). rewrite List.Forall_forall in Hx. auto.
Qed.

(** The context built from the rows of a search. *)
Lemma context_of_rows (w w' : @Database vector) (e : list float) (t : Q)
  (n : Z) (rows : list SearchResult) :
  documents w' = documents w ->
  answers toVector cosine_distance w' e t n rows ->
  let docs := map (fun doc => {| content := result_content doc;
                                 similarity := result_similarity doc |}) rows in
  (length docs <= Z.to_nat n)%nat /\
  Forall (retrieved toVector cosine_distance w e t) docs /\
  bySimilarity docs.
Proof.
  intros Hd (Hall & Hsorted & Hlen). simpl. split; [| split].
  - rewrite length_map. exact Hlen.
  - apply List.Forall_forall. intros doc Hdoc. apply in_map_iff in Hdoc.
    destruct Hdoc as (r & <- & Hr). rewrite List.Forall_forall in Hall.
    destruct (Hall r Hr) as (Ht & d & Hin & v & Hv & _ & Hc & _ & Hs).
    split; [exact Ht |]. exists d, v. rewrite <- Hd. auto.
  - unfold bySimilarity. eapply sorted_map; [| exact Hsorted]. auto.
Qed.

(** A retrieval with a given embedding. *)
Lemma retrieveContext_given (w : @Database vector) (query : string) (topK : Z)
  (similarityThreshold : Q) (given : list float) :
  let run := retrieveContext toVector cosine_distance planOf embeddingModel query topK
               similarityThreshold (Some given) w in
  documents (world run) = documents w /\
  actions (world run) = actions w ++ [DatabaseRequest] /\
  match outcome run with
  | Returned context =>
      Retrieval.query context = query /\ cacheHit context = false /\
      (length (relevantDocs context) <= Z.to_nat topK)%nat /\
      Forall (retrieved toVector cosine_distance w given similarityThreshold)
        (relevantDocs context) /\
      bySimilarity (relevantDocs context)
  | Thrown message =>
      exists m', message = ("Failed to search documents: " ++ m')%string
  end.
Proof.
  unfold retrieveContext, try_catch, bind, ret.
  pose proof (searchSimilarDocuments_run w given similarityThreshold topK)
    as Hrun. simpl in Hrun. unfold outcome, world in *.
  destruct (searchSimilarDocuments toVector cosine_distance planOf given
              similarityThreshold topK w) as [[rows | m] w2]; simpl in *.
  - destruct Hrun as (Hd & Ha & w' & Hd' & Hans).
    destruct (context_of_rows w w' given similarityThreshold topK rows
                ltac:(congruence) Hans) as (Hlen & Hall & Hsorted).
    repeat split; auto.
  - destruct Hrun as (Hd & Ha & Hm). auto.
Qed.

Lemma retrieved_same_table (w w' : @Database vector) (e : list float) (t : Q)
  (docs : list RetrievedDoc) :
  documents w' = documents w ->
  Forall (retrieved toVector cosine_distance w' e t) docs ->
  Forall (retrieved toVector cosine_distance w e t) docs.
Proof.
  intros Hd. apply List.Forall_impl. unfold retrieved. rewrite Hd. auto.
Qed.

(** X11.  [retrieveContext] asks the vector store with the embedding it is
    given, and generates one only when none is given.  What it returns
    names the query, is never a cache hit, and lists at most [topK]
    documents of the table, each with one minus its distance to the query
    embedding as similarity, which is at least the threshold or NaN, by
    descending similarity, those whose similarity is NaN last; it never
    writes to the table; and
    it throws only the errors of the embedding call and of the search,
    making no request when the embedding call fails. *)
Theorem retrieveContext_answers (w : @Database vector) (query : string)
  (topK : Z) (similarityThreshold : Q) (existingEmbedding : option (list float)) :
  let run := retrieveContext toVector cosine_distance planOf embeddingModel query topK
               similarityThreshold existingEmbedding w in
  let queryEmbedding :=
    match existingEmbedding with
    | Some given => given
    | None => embeddingModel query
    end in
  documents (world run) = documents w /\
  match outcome run with
  | Returned context =>
      Retrieval.query context = query /\ cacheHit context = false /\
      (length (relevantDocs context) <= Z.to_nat topK)%nat /\
      Forall (retrieved toVector cosine_distance w queryEmbedding
                similarityThreshold) (relevantDocs context) /\
      bySimilarity (relevantDocs context) /\
      actions (world run)
      = actions w ++ match existingEmbedding with
                     | Some _ => [DatabaseRequest]
                     | None => [EmbeddingCall; DatabaseRequest]
                     end
  | Thrown message =>
      (existingEmbedding = None /\ message = "Failed to generate embedding" /\
       actions (world run) = actions w ++ [EmbeddingCall]) \/
      (exists m', message = ("Failed to search documents: " ++ m')%string)
  end.
Proof.
  assert (forall w1 : @Database vector,
            documents w1 = documents w ->
            let run := retrieveContext toVector cosine_distance planOf embeddingModel
                         query topK similarityThreshold
                         (Some (embeddingModel query)) w1 in
            documents (world run) = documents w /\
            match outcome run with
            | Returned context =>
                Retrieval.query context = query /\ cacheHit context = false /\
                (length (relevantDocs context) <= Z.to_nat topK)%nat /\
                Forall (retrieved toVector cosine_distance w
                          (embeddingModel query) similarityThreshold)
                  (relevantDocs context) /\
                bySimilarity (relevantDocs context) /\
                actions (world run) = actions w1 ++ [DatabaseRequest]
            | Thrown message =>
                exists m', message = ("Failed to search documents: " ++ m')%string
            end) as Hlater.
  { intros w1 Hw1.
    pose proof (retrieveContext_given w1 query topK similarityThreshold
                  (embeddingModel query)) as Hrun.
    cbv zeta in *. destruct Hrun as (Hd & Ha & Hout).
    split; [congruence |].
    destruct (outcome _) as [context | message]; [| exact Hout].
    destruct Hout as (H1 & H2 & H3 & H4 & H5).
    repeat split; auto. eapply retrieved_same_table; eassumption. }
  destruct existingEmbedding as [given |].
  - pose proof (retrieveContext_given w query topK similarityThreshold given)
      as Hrun.
    cbv zeta in *. destruct Hrun as (Hd & Ha & Hout).
    split; [exact Hd |].
    destruct (outcome _) as [context | message]; [| right; exact Hout].
    destruct Hout as (H1 & H2 & H3 & H4 & H5). repeat split; auto.
  - cbv zeta.
    assert (forall w1 : @Database vector,
              retrieveContext toVector cosine_distance planOf embeddingModel query topK
                similarityThreshold (Some (embeddingModel query)) w1
              = try_catch
                  (results <- searchSimilarDocuments toVector cosine_distance planOf
                                (embeddingModel query) similarityThreshold topK ;;
                   ret {| Retrieval.query := query;
                          relevantDocs :=
                            map (fun doc =>
                                   {| content := result_content doc;
                                      similarity := result_similarity doc |})
                              results;
                          cacheHit := false |})%prog
                  (fun error => throw error) w1) as Hgiven by reflexivity.
    unfold retrieveContext, try_catch, bind.
    rewrite generateEmbedding_run.
    destruct (faults w) as [| [m |] rest] eqn:Hf.
    + pose proof (Hlater (addAction EmbeddingCall w) eq_refl) as Hrun.
      cbv zeta in Hrun. rewrite Hgiven in Hrun.
      unfold try_catch, bind, ret in Hrun. simpl in *.
      destruct (searchSimilarDocuments toVector cosine_distance planOf
                  (embeddingModel query) similarityThreshold topK
                  (addAction EmbeddingCall w)) as [[rows | m] w2]; simpl in *.
      * rewrite <- app_assoc in Hrun. exact Hrun.
      * destruct Hrun as [Hd Hm]. auto.
    + unfold throw, outcome, world. simpl. split; [reflexivity |].
      left. auto.
    + pose proof (Hlater (setFaults rest (addAction EmbeddingCall w)) eq_refl)
        as Hrun.
      cbv zeta in Hrun. rewrite Hgiven in Hrun.
      unfold try_catch, bind, ret in Hrun. simpl in *.
      destruct (searchSimilarDocuments toVector cosine_distance planOf
                  (embeddingModel query) similarityThreshold topK
                  (setFaults rest (addAction EmbeddingCall w)))
        as [[rows | m] w2]; simpl in *.
      * rewrite <- app_assoc in Hrun. exact Hrun.
      * destruct Hrun as [Hd Hm]. auto.
Qed.

End Retrieve.

(** *** At concrete inputs *)

(** A retrieval with a zero vector as embedding lists every document that
    has an embedding, each with the similarity NaN. *)
Example retrieve_with_a_zero_vector :
  outcome (retrieveContext (fun e => e) binary64Distance alwaysScan
             (fun _ => [1%float]) "refunds" 3 (7 # 10) (Some [0; 0]%float)
             library)
  = Returned {| Retrieval.query := "refunds";
                relevantDocs := [ {| content := "far"; similarity := NaN |};
                                  {| content := "near"; similarity := NaN |};
                                  {| content := "close"; similarity := NaN |} ];
                cacheHit := false |}.
Proof. vm_compute. reflexivity. Qed.

End RetrievalFacts.

(** ** The existence check and the inserts *)

Module DedupFacts.

Import Supabase PdfProcessor IngestSpec DedupSpec JsFacts IngestFacts.

Section Dedup.

Context {vector : Type}.
Variable toVector : list float -> vector.

Lemma selectIdsByHash_found (hash : string) (rows : list (@Document vector)) :
  Nat.ltb 0 (length (selectIdsByHash hash rows)) = true ->
  exists d, In d rows /\ source_hash d = Some hash.
Proof.
  unfold selectIdsByHash.
  set (matching := List.filter _ rows).
  destruct matching as [| d l] eqn:Hm; [discriminate |]. intros _.
  assert (In d matching) as Hin by (rewrite Hm; left; reflexivity).
  apply filter_In in Hin. destruct Hin as [Hin Hd].
  exists d. split; [exact Hin |].
  destruct (source_hash d) as [h |]; [| discriminate].
  apply String.eqb_eq in Hd. congruence.
Qed.

(** X12.  When its request is answered, [checkDocumentExists] returns true
    exactly when some row of the table carries the hash in its
    [source_hash] column, and it leaves the table as it was. *)
Theorem checkDocumentExists_exact (w : @Database vector) (hash : string) :
  hd None (faults w) = None ->
  (outcome (checkDocumentExists hash w) = Returned true <-> stored hash w) /\
  (outcome (checkDocumentExists hash w) = Returned false <-> ~ stored hash w) /\
  documents (world (checkDocumentExists hash w)) = documents w.
Proof.
  intros Hok. rewrite (checkDocumentExists_answered _ _ Hok).
  unfold outcome, world. simpl.
  destruct (answered_same w) as (Hd & _).
  destruct (Nat.ltb 0 (length (selectIdsByHash hash (documents w)))) eqn:Hn.
  - apply selectIdsByHash_found in Hn.
    repeat split; auto; try discriminate. intros Hno. contradiction.
  - assert (~ stored hash w) as Hno.
    { intros Hs. apply selectIdsByHash_stored in Hs. congruence. }
    repeat split; auto; try discriminate. intros Hs. contradiction.
Qed.


End Dedup.

(** *** At concrete inputs *)

Lemma checkDocumentExists_exact_witness :
  outcome (checkDocumentExists (digest "Agents use tools") ingested)
  = Returned true <-> stored (digest "Agents use tools") ingested.
Proof.
  apply (checkDocumentExists_exact ingested (digest "Agents use tools")).
  reflexivity.
Defined.


End DedupFacts.

(** ** What ingestion stores *)

Module ChunkFacts.

Import Supabase PdfProcessor IngestSpec ChunkSpec JsFacts IngestFacts DedupFacts.

Section Ingestion.

Context {vector : Type}.
Variable toVector : list float -> vector.
Variable sha256 : string -> string.
Variable splitText : string -> list string.
Variable embeddingModel : string -> list float.

Lemma generateBatchEmbeddings_run (w : @Database vector) (texts : list string) :
  OpenAI.generateBatchEmbeddings embeddingModel texts w
  = match faults w with
    | Some _ :: rest =>
        (Thrown "Failed to generate batch embeddings",
         setFaults rest (addAction EmbeddingCall w))
    | None :: rest =>
        (Returned (map embeddingModel texts),
         setFaults rest (addAction EmbeddingCall w))
    | [] => (Returned (map embeddingModel texts), addAction EmbeddingCall w)
    end.
Proof.
  unfold OpenAI.generateBatchEmbeddings, try_catch, command. simpl.
  destruct (faults w) as [| [m |] rest]; reflexivity.
Qed.

Lemma selectIdsByHash_fresh (hash : string) (w : @Database vector) :
  ~ stored hash w ->
  Nat.ltb 0 (length (selectIdsByHash hash (documents w))) = false.
Proof.
  intros Hno.
  destruct (Nat.ltb 0 (length (selectIdsByHash hash (documents w)))) eqn:Hn;
    [| reflexivity].
  exfalso. apply Hno. apply selectIdsByHash_found, Hn.
Qed.

(** The rows of the inserts when none fails. *)
Lemma inserts_rows (chunks : list string) (embeddings : list (list float))
  (metadata : gmap string JsonValue) (hash : string) (index total : nat)
  (w : @Database vector) :
  quiet (faults w) = true ->
  exists rows w',
    promiseAll (insertPromises toVector chunks embeddings metadata hash index total) w
    = (Returned rows, w') /\
    documents w' = documents w ++ rows /\ length rows = length chunks /\
    forall i d,
      nth_error rows i = Some d ->
      nth_error chunks i = Some (content d) /\
      Supabase.metadata d = chunkMetadata metadata hash (index + i) total /\
      embedding d = option_map toVector (nth_error embeddings (index + i)) /\
      source_hash d = Some hash.
Proof.
  revert index w. induction chunks as [| chunk chunks IH]; intros index w Hq.
  - exists [], w. simpl. rewrite app_nil_r.
    split; [reflexivity |]. split; [reflexivity |]. split; [reflexivity |].
    intros i d Hi. destruct i; discriminate.
  - simpl.
    assert (exists w1,
              insertDocument toVector chunk (nth_error embeddings index)
                (chunkMetadata metadata hash index total) w
              = (Returned
                   {| id := rowIds w (inserted w); content := chunk;
                      Supabase.metadata := chunkMetadata metadata hash index total;
                      embedding := option_map toVector (nth_error embeddings index);
                      source_hash :=
                        sourceHashOf (chunkMetadata metadata hash index total) |},
                 w1) /\
              quiet (faults w1) = true /\
              documents w1
              = documents w ++
                [ {| id := rowIds w (inserted w); content := chunk;
                     Supabase.metadata := chunkMetadata metadata hash index total;
                     embedding := option_map toVector (nth_error embeddings index);
                     source_hash :=
                       sourceHashOf (chunkMetadata metadata hash index total) |} ])
      as (w1 & -> & Hq1 & Hd1).
    { unfold insertDocument, bind, request. simpl.
      destruct (faults w) as [| [m |] rest] eqn:Hf; simpl.
      - eexists. repeat split. simpl. rewrite Hf. reflexivity.
      - discriminate Hq.
      - eexists. repeat split. simpl. apply quiet_tail in Hq. tauto. }
    destruct (IH (S index) w1 Hq1) as (rows & w2 & -> & Hdocs & Hlen & Hrows).
    eexists. exists w2. split; [reflexivity |]. split; [| split].
    + rewrite Hdocs, Hd1, <- app_assoc. reflexivity.
    + simpl. rewrite Hlen. reflexivity.
    + intros [| i] d Hi; simpl in Hi.
      * injection Hi as <-. simpl. rewrite Nat.add_0_r.
        repeat split. apply chunk_source_hash.
      * destruct (Hrows i d Hi) as (Hc & Hm & He & Hh).
        replace (index + S i)%nat with (S index + i)%nat by lia.
        simpl. auto.
Qed.

Lemma chunkMetadata_lookups (metadata : gmap string JsonValue) (hash : string)
  (index total : nat) :
  let m := chunkMetadata metadata hash index total in
  m !! "source_hash" = Some (JString hash) /\
  m !! "chunkIndex" = Some (JNumber (Z.of_nat index)) /\
  m !! "totalChunks" = Some (JNumber (Z.of_nat total)) /\
  forall key : string,
    key <> "source_hash" -> key <> "chunkIndex" -> key <> "totalChunks" ->
    m !! key = metadata !! key.
Proof.
  unfold chunkMetadata. simpl. split; [| split; [| split]].
  - rewrite lookup_insert_ne by discriminate.
    rewrite lookup_insert_ne by discriminate.
    apply lookup_insert_eq.
  - rewrite lookup_insert_ne by discriminate. apply lookup_insert_eq.
  - apply lookup_insert_eq.
  - intros key H1 H2 H3. rewrite !lookup_insert_ne by congruence. reflexivity.
Qed.

(** An ingestion that goes through, in the model, where the inserts reach
    the table in the order of the chunks. *)
Lemma processText_appends_rows (w : @Database vector) (text : string)
  (metadata : gmap string JsonValue) :
  isBlank text = false -> quiet (faults w) = true ->
  ~ stored (sha256 text) w ->
  let run := processText toVector sha256 splitText embeddingModel text metadata w in
  let chunks := splitText text in
  outcome run = Returned {| success := true; chunksProcessed := length chunks |} /\
  exists rows,
    documents (world run) = documents w ++ rows /\
    length rows = length chunks /\
    forall i d,
      nth_error rows i = Some d ->
      rowOfChunk toVector embeddingModel metadata (sha256 text) chunks i d.
Proof.
  intros Hblank Hq Hfresh. cbv zeta.
  unfold processText. rewrite Hblank. unfold bind.
  rewrite (checkDocumentExists_answered _ _ (quiet_next _ Hq)).
  rewrite (selectIdsByHash_fresh _ _ Hfresh).
  unfold chunkText.
  pose proof (answered_quiet w Hq) as Hq1.
  destruct (answered_same w) as (Hd1 & _).
  set (w1 := record Chunking (answered w)).
  assert (quiet (faults w1) = true) as Hq1' by exact Hq1.
  assert (documents w1 = documents w) as Hd1' by exact Hd1.
  rewrite generateBatchEmbeddings_run.
  set (chunks := splitText text).
  assert (exists w2, quiet (faults w2) = true /\ documents w2 = documents w /\
            match faults w1 with
            | Some _ :: rest =>
                (Thrown "Failed to generate batch embeddings",
                 setFaults rest (addAction EmbeddingCall w1))
            | None :: rest =>
                (Returned (map embeddingModel chunks),
                 setFaults rest (addAction EmbeddingCall w1))
            | [] => (Returned (map embeddingModel chunks),
                     addAction EmbeddingCall w1)
            end = (Returned (map embeddingModel chunks), w2))
    as (w2 & Hq2 & Hd2 & ->).
  { destruct (faults w1) as [| [m |] rest] eqn:Hf.
    - exists (addAction EmbeddingCall w1).
      split; [change (quiet (faults w1) = true); rewrite Hf; reflexivity |].
      split; [exact Hd1' | reflexivity].
    - discriminate Hq1'.
    - exists (setFaults rest (addAction EmbeddingCall w1)).
      split; [change (quiet rest = true); apply quiet_tail in Hq1'; tauto |].
      split; [exact Hd1' | reflexivity]. }
  destruct (inserts_rows chunks (map embeddingModel chunks) metadata
              (sha256 text) 0 (length chunks) w2 Hq2)
    as (rows & w3 & -> & Hd3 & Hlen & Hrows).
  unfold ret, outcome, world. simpl. split; [reflexivity |].
  exists rows. split; [congruence |]. split; [exact Hlen |].
  intros i d Hi. destruct (Hrows i d Hi) as (Hc & Hm & He & Hh).
  simpl in Hm, He.
  destruct (chunkMetadata_lookups metadata (sha256 text) i (length chunks))
    as (M1 & M2 & M3 & M4).
  unfold rowOfChunk. rewrite Hm.
  repeat split; auto.
  rewrite He. rewrite nth_error_map, Hc. reflexivity.
Qed.

(** X14.  An ingestion that goes through: for a text that is not blank and
    whose hash is not in the table, when no call fails, [processText]
    reports the number of chunks and appends to the table as many rows as
    there are chunks, one for every chunk, in whatever order: every new
    row is the row of a chunk, and every chunk has its row among them.  The
    row of a chunk has the chunk as content, the embedding of that chunk,
    the SHA-256 of the whole text as [source_hash], and the caller's
    metadata in which [source_hash], [chunkIndex] and [totalChunks] are the
    values ingestion computed, whatever the caller passed under these
    keys. *)
Theorem processText_stores_the_chunks (w : @Database vector) (text : string)
  (metadata : gmap string JsonValue) :
  isBlank text = false -> quiet (faults w) = true ->
  ~ stored (sha256 text) w ->
  let run := processText toVector sha256 splitText embeddingModel text metadata w in
  let chunks := splitText text in
  outcome run = Returned {| success := true; chunksProcessed := length chunks |} /\
  exists rows,
    documents (world run) = documents w ++ rows /\
    length rows = length chunks /\
    (forall d, In d rows ->
       exists i, rowOfChunk toVector embeddingModel metadata (sha256 text) chunks i d) /\
    (forall i, (i < length chunks)%nat ->
       exists d, In d rows /\
                 rowOfChunk toVector embeddingModel metadata (sha256 text) chunks i d).
Proof.
  intros Hblank Hq Hfresh.
  destruct (processText_appends_rows w text metadata Hblank Hq Hfresh)
    as (Hout & rows & Hdocs & Hlen & Hrows).
  cbv zeta. split; [exact Hout |].
  exists rows. split; [exact Hdocs |]. split; [exact Hlen |]. split.
  - intros d Hd. apply In_nth_error in Hd. destruct Hd as (i & Hi).
    exists i. apply Hrows, Hi.
  - intros i Hi. rewrite <- Hlen in Hi.
    destruct (nth_error rows i) as [d |] eqn:Hd.
    + exists d. split; [eapply nth_error_In, Hd | apply Hrows, Hd].
    + apply nth_error_None in Hd. lia.
Qed.

(** *** Failures on the way *)

(** Whatever fails, the rows ingestion adds carry the hash of the text. *)
Lemma inserts_carry_the_hash (chunks : list string)
  (embeddings : list (list float)) (metadata : gmap string JsonValue)
  (hash : string) (index total : nat) (w : @Database vector) :
  exists rows,
    documents (world (promiseAll
                        (insertPromises toVector chunks embeddings metadata hash
                           index total) w))
    = documents w ++ rows /\
    Forall (fun d => source_hash d = Some hash) rows.
Proof.
  revert index w. induction chunks as [| chunk chunks IH]; intros index w.
  - exists []. simpl. rewrite app_nil_r. split; [reflexivity | constructor].
  - simpl. unfold world in *.
    pose proof (insertDocument_run toVector chunk (nth_error embeddings index)
                  (chunkMetadata metadata hash index total) w) as Hrun.
    simpl in Hrun. unfold outcome, world in Hrun.
    destruct (insertDocument toVector chunk (nth_error embeddings index)
                (chunkMetadata metadata hash index total) w) as [[d | m] w1];
      simpl in Hrun.
    + destruct Hrun as [(m & Hm & _) | (d' & [= <-] & Hd & Hh)];
        [discriminate |].
      destruct (IH (S index) w1) as (rows & Hrows & Hall).
      exists (d :: rows). split.
      * destruct (promiseAll _ w1) as [[l | m] w2]; simpl in *;
          rewrite Hrows, Hd, <- app_assoc; reflexivity.
      * constructor; [| exact Hall]. rewrite Hh. apply chunk_source_hash.
    + destruct Hrun as [(m' & _ & Hd) | (d' & Hd' & _)]; [| discriminate].
      destruct (IH (S index) w1) as (rows & Hrows & Hall).
      exists rows. simpl. split; [| exact Hall]. rewrite Hrows, Hd. reflexivity.
Qed.

Lemma processText_carries_the_hash (w : @Database vector) (text : string)
  (metadata : gmap string JsonValue) :
  exists rows,
    documents (world (processText toVector sha256 splitText embeddingModel text
                        metadata w))
    = documents w ++ rows /\
    Forall (fun d => source_hash d = Some (sha256 text)) rows.
Proof.
  assert (exists rows : list (@Document vector),
            documents w = documents w ++ rows /\
            Forall (fun d => source_hash d = Some (sha256 text)) rows) as Hsame.
  { exists []. rewrite app_nil_r. split; [reflexivity | constructor]. }
  unfold processText. destruct (isBlank text); [exact Hsame |].
  unfold bind.
  assert (documents (world (checkDocumentExists (sha256 text) w)) = documents w)
    as Hd1.
  { unfold checkDocumentExists, bind, request, world. simpl.
    destruct (faults w) as [| [m |] rest]; reflexivity. }
  unfold world in *.
  destruct (checkDocumentExists (sha256 text) w) as [[[|] | m] w1];
    simpl in Hd1;
    [unfold throw; simpl; rewrite Hd1; exact Hsame | |
     simpl; rewrite Hd1; exact Hsame].
  unfold chunkText. rewrite generateBatchEmbeddings_run.
  set (w2 := record Chunking w1).
  assert (documents w2 = documents w) as Hd2 by exact Hd1.
  assert (forall (w3 : @Database vector) (embeddings : list (list float)),
            documents w3 = documents w ->
            exists rows,
              documents
                (snd (let (o, w') :=
                        promiseAll
                          (insertPromises toVector (splitText text) embeddings
                             metadata (sha256 text) 0 (length (splitText text)))
                          w3 in
                      match o with
                      | Returned _ =>
                          ret {| success := true;
                                 chunksProcessed := length (splitText text) |} w'
                      | Thrown e => (Thrown e, w')
                      end))
              = documents w ++ rows /\
              Forall (fun d => source_hash d = Some (sha256 text)) rows) as Hins.
  { intros w3 embeddings Hd3.
    destruct (inserts_carry_the_hash (splitText text) embeddings metadata
                (sha256 text) 0 (length (splitText text)) w3)
      as (rows & Hrows & Hall).
    exists rows. split; [| exact Hall]. unfold world in Hrows.
    destruct (promiseAll _ w3) as [[l | m] w4]; simpl in *; congruence. }
  destruct (faults w2) as [| [m |] rest].
  - apply Hins. exact Hd2.
  - simpl. rewrite Hd1. exact Hsame.
  - apply Hins. exact Hd2.
Qed.

(** X15.  Ingestion does not undo its inserts: whenever a run of
    [processText] leaves new rows in the table, also a run that failed
    half-way (an insert that failed after others had succeeded), the next
    ingestion of the same text whose existence request is answered is
    turned down with [DUPLICATE_DOCUMENT] and adds nothing, so the missing
    chunks are never stored. *)
Theorem partial_ingestion_blocks_the_retry (w : @Database vector)
  (text : string) (metadata again : gmap string JsonValue) :
  let w' := world (processText toVector sha256 splitText embeddingModel text
                     metadata w) in
  documents w' <> documents w ->
  hd None (faults w') = None ->
  rejectedAsDuplicate toVector sha256 splitText embeddingModel text again w'.
Proof.
  intros w' Hnew Hok.
  destruct (processText_carries_the_hash w text metadata)
    as (rows & Hrows & Hall). fold w' in Hrows.
  assert (stored (sha256 text) w') as Hs.
  { destruct rows as [| d rows].
    - rewrite app_nil_r in Hrows. contradiction.
    - exists d. split.
      + rewrite Hrows. apply in_app_iff. right. left. reflexivity.
      + inversion Hall; assumption. }
  assert (isBlank text = false) as Hblank.
  { destruct (isBlank text) eqn:Hb; [| reflexivity].
    exfalso. apply Hnew. unfold w', processText. rewrite Hb. reflexivity. }
  unfold rejectedAsDuplicate, processText. rewrite Hblank. unfold bind.
  rewrite (checkDocumentExists_answered _ _ Hok).
  rewrite (selectIdsByHash_stored _ _ Hs).
  unfold throw, outcome, world. simpl.
  destruct (answered_same w') as (Hd & Ha & _). auto.
Qed.

(** X16.  When the embedding call of an ingestion fails, [processText]
    throws "Failed to generate batch embeddings", whatever the provider's
    message was, after the existence request and the chunking and before
    any insert: the table is as it was. *)
Theorem embedding_failure_stores_nothing (w : @Database vector) (text : string)
  (metadata : gmap string JsonValue) (message : string)
  (rest : list (option string)) :
  isBlank text = false -> ~ stored (sha256 text) w ->
  faults w = None :: Some message :: rest ->
  let run := processText toVector sha256 splitText embeddingModel text metadata w in
  outcome run = Thrown "Failed to generate batch embeddings" /\
  documents (world run) = documents w /\
  actions (world run)
  = actions w ++ [DatabaseRequest; Chunking; EmbeddingCall].
Proof.
  intros Hblank Hfresh Hf. cbv zeta.
  unfold processText. rewrite Hblank. unfold bind.
  rewrite (checkDocumentExists_answered _ _) by (rewrite Hf; reflexivity).
  rewrite (selectIdsByHash_fresh _ _ Hfresh).
  unfold chunkText. rewrite generateBatchEmbeddings_run.
  unfold answered. rewrite Hf. simpl.
  unfold outcome, world. simpl. rewrite <- !app_assoc. auto.
Qed.

End Ingestion.

(** *** At concrete inputs *)

Import MoreExamples.

Lemma processText_stores_the_chunks_witness :
  outcome (ingest "Agents use tools" emptyTable)
  = Returned {| success := true; chunksProcessed := 1 |}.
Proof.
  destruct (processText_stores_the_chunks (fun e => e) digest oneChunk
              constantModel emptyTable "Agents use tools" ∅)
    as [Hout _]; [reflexivity | reflexivity | | exact Hout].
  intros (d & [] & _).
Defined.

Lemma partial_ingestion_blocks_the_retry_witness :
  rejectedAsDuplicate (fun e => e) digest twoChunks constantModel
    "Agents use tools" ∅
    (world (processText (fun e => e) digest twoChunks constantModel
              "Agents use tools" ∅ interrupted)).
Proof.
  apply (partial_ingestion_blocks_the_retry (fun e => e) digest
           twoChunks constantModel interrupted "Agents use tools" ∅ ∅).
  - vm_compute. discriminate.
  - reflexivity.
Defined.

Lemma embedding_failure_stores_nothing_witness :
  let run := ingest "Agents use tools"
               (setFaults [None; Some "rate limit"] emptyTable) in
  outcome run = Thrown "Failed to generate batch embeddings" /\
  documents (world run) = [] /\
  actions (world run) = [DatabaseRequest; Chunking; EmbeddingCall].
Proof.
  apply (embedding_failure_stores_nothing (fun e => e) digest oneChunk
           constantModel (setFaults [None; Some "rate limit"] emptyTable)
           "Agents use tools" ∅ "rate limit" []).
  - reflexivity.
  - intros (d & [] & _).
  - reflexivity.
Defined.

End ChunkFacts.

(** ** PDF documents *)

Module PdfFacts.

Import Supabase PdfProcessor PdfDocuments IngestSpec JsFacts IngestFacts.

Section Extraction.

Context {vector : Type}.
Variable toVector : list float -> vector.
Variable sha256 : string -> string.
Variable splitText : string -> list string.
Variable embeddingModel : string -> list float.
Variable loadPDF : string -> Outcome (list string).

(** X17.  [processPDFDocument] on a file the loader cannot read throws
    "Failed to extract text from PDF", whatever the loader's message, and
    does nothing else; on a file the loader reads it is the ingestion of
    the page texts joined by blank lines, so that a PDF whose text is
    already in the table (stored by either path) is turned down with
    [DUPLICATE_DOCUMENT] before any chunking, embedding call or insert. *)
Theorem processPDFDocument_gate (w : @Database vector) (buffer : string)
  (metadata : gmap string JsonValue) :
  let run := processPDFDocument toVector sha256 splitText embeddingModel
               loadPDF buffer metadata w in
  match loadPDF buffer with
  | Thrown _ => run = (Thrown "Failed to extract text from PDF", w)
  | Returned pages =>
      let text := Orchestrator.join
                    (Orchestrator.newline ++ Orchestrator.newline) pages in
      run = processText toVector sha256 splitText embeddingModel text metadata w /\
      (isBlank text = false -> hd None (faults w) = None ->
       stored (sha256 text) w \/
       ingestedBefore toVector sha256 splitText embeddingModel text w ->
       outcome run = Thrown "DUPLICATE_DOCUMENT" /\
       documents (world run) = documents w /\
       actions (world run) = actions w ++ [DatabaseRequest])
  end.
Proof.
  unfold processPDFDocument, extractTextFromPDF, bind, try_catch.
  destruct (loadPDF buffer) as [pages | m]; [| reflexivity].
  cbv zeta. split; [reflexivity |].
  intros Hblank Hok Hstored.
  assert (stored (sha256 (Orchestrator.join
                            (Orchestrator.newline ++ Orchestrator.newline) pages))
            w) as Hs.
  { destruct Hstored as [Hs | Hb]; [exact Hs |].
    eapply ingestedBefore_stored, Hb. }
  unfold processText. rewrite Hblank. unfold bind.
  rewrite (checkDocumentExists_answered _ _ Hok).
  rewrite (selectIdsByHash_stored _ _ Hs).
  unfold throw, outcome, world. simpl.
  destruct (answered_same w) as (Hd & Ha & _). auto.
Qed.

End Extraction.

(** *** At concrete inputs *)

Import MoreExamples.

Lemma processPDFDocument_gate_witness :
  outcome (PdfDocuments.processPDFDocument (fun e => e) digest oneChunk
             constantModel onePage "Agents use tools" ∅ ingested)
  = Thrown "DUPLICATE_DOCUMENT".
Proof.
  destruct (processPDFDocument_gate (fun e => e) digest oneChunk
              constantModel onePage ingested "Agents use tools" ∅)
    as [_ Hgate].
  destruct Hgate as [Hout _]; [reflexivity | reflexivity | | exact Hout].
  left. eexists. split; [left; reflexivity | reflexivity].
Defined.

End PdfFacts.

(** ** The backfill of [source_hash] *)

Module BackfillFacts.

Import Supabase Schema IngestSpec IngestFacts.

Section Backfill.

Context {vector : Type}.
Variable toVector : list float -> vector.

Lemma backfillRow_twice (d : @Document vector) :
  backfillRow (backfillRow d) = backfillRow d.
Proof.
  unfold backfillRow.
  destruct (source_hash d) as [h |] eqn:Hh; [rewrite Hh; reflexivity |].
  destruct (Supabase.metadata d !! "source_hash") as [v |] eqn:Hm;
    [| rewrite Hh, Hm; reflexivity].
  simpl. rewrite Hm. unfold sourceHashOf. rewrite Hm.
  destruct v; reflexivity.
Qed.

Lemma backfillRow_keeps (d : @Document vector) (hash : string) :
  source_hash d = Some hash -> backfillRow d = d.
Proof.
  unfold backfillRow. intros ->. reflexivity.
Qed.

(** X18.  The backfill of [source_hash] makes the rows written before the
    column existed count for deduplication: afterwards an answered
    existence check finds the hash that the metadata of such a row names.
    It hides nothing that was found before, changes no row that
    [insertDocument] wrote, and running it again changes nothing. *)
Theorem backfill_serves_deduplication (w : @Database vector) :
  backfill (backfill w) = backfill w /\
  (forall hash : string, stored hash w -> stored hash (backfill w)) /\
  (forall (d : @Document vector) (hash : string),
     In d (documents w) -> source_hash d = None ->
     Supabase.metadata d !! "source_hash" = Some (JString hash) ->
     hd None (faults w) = None ->
     outcome (checkDocumentExists hash (backfill w)) = Returned true) /\
  (forall (content : string) (embedding : option (list float))
          (metadata : gmap string JsonValue) (w0 : @Database vector)
          (d : @Document vector),
     outcome (insertDocument toVector content embedding metadata w0)
     = Returned d ->
     backfillRow d = d).
Proof.
  split; [| split; [| split]].
  - unfold backfill. simpl. f_equal. rewrite map_map.
    apply map_ext. intros d. apply backfillRow_twice.
  - intros hash (d & Hin & Hd). exists d. split; [| exact Hd].
    unfold backfill. simpl. rewrite <- (backfillRow_keeps d hash Hd).
    apply in_map, Hin.
  - intros d hash Hin Hnone Hm Hok.
    assert (hd None (faults (backfill w)) = None) as Hok' by exact Hok.
    rewrite (checkDocumentExists_answered _ _ Hok').
    unfold outcome. simpl fst. f_equal.
    apply (selectIdsByHash_stored hash (backfill w)).
    exists (backfillRow d). split.
    + unfold backfill. simpl. apply in_map, Hin.
    + unfold backfillRow. rewrite Hnone, Hm. simpl.
      unfold sourceHashOf. rewrite Hm. reflexivity.
  - intros content embedding metadata w0 d.
    unfold insertDocument, bind, request, outcome. simpl.
    assert (forall row : @Document vector,
              source_hash row = sourceHashOf (Supabase.metadata row) ->
              backfillRow row = row) as Hfix.
    { intros row Hrow. unfold backfillRow.
      destruct (source_hash row) as [h |]; [reflexivity |].
      unfold sourceHashOf in Hrow.
      destruct (Supabase.metadata row !! "source_hash") as [[s | n] |];
        [discriminate | discriminate | reflexivity]. }
    destruct (faults w0) as [| [m |] rest]; simpl; intros [= <-];
      apply Hfix; reflexivity.
Qed.

End Backfill.

(** *** At concrete inputs *)

Import MoreExamples.

Lemma backfill_serves_deduplication_witness :
  outcome (checkDocumentExists "abc" (Schema.backfill legacy)) = Returned true.
Proof.
  destruct (backfill_serves_deduplication (fun e => e) legacy)
    as (_ & _ & Hfound & _).
  apply (Hfound legacyRow "abc").
  - left. reflexivity.
  - reflexivity.
  - reflexivity.
  - reflexivity.
Defined.

End BackfillFacts.

(** ** The sentence for no documents *)

Module SentenceFacts.

Import Orchestrator ContextSpec ContextFacts.

Section Rendering.

Variable NumberToString : float -> string.

(** X19.  The context string is the sentence "No relevant information
    found in the knowledge base." exactly when there are no documents:
    whatever the documents contain, a context built from at least one of
    them is never that sentence. *)
Theorem sentence_only_without_documents (docs : list RelevantDoc) :
  buildContextString NumberToString docs = NO_RELEVANT_INFORMATION <->
  docs = [].
Proof.
  split; [| intros ->; reflexivity].
  destruct docs as [| doc docs]; [reflexivity |].
  unfold buildContextString. simpl Nat.eqb. cbv iota.
  simpl mapWithIndex. rewrite join_cons. unfold renderDoc.
  rewrite !append_assoc.
  change (("[Document " ++ ?x)%string) with (String "[" ("Document " ++ x)%string).
  discriminate.
Qed.

End Rendering.

End SentenceFacts.

(** ** The local limiter: clean-up and callers *)

Module LocalFacts.

Import LimiterSpec LimiterPairs LimiterFacts.

Lemma check_alike (key : string) (t : Z) (times : list Z) (a b : M.Limiter) :
  alike key (t :: times) a b ->
  fst (M.check key t a) = fst (M.check key t b) /\
  alike key times (snd (M.check key t a)) (snd (M.check key t b)).
Proof.
  intros (Hmax & Hwin & Hrec). unfold M.check, alike.
  destruct Hrec as [Hsame | (Hnone & r & Hsome & Hout)].
  - rewrite <- Hsame, <- Hmax, <- Hwin.
    destruct (M.limitMap a !! key) as [r |] eqn:Ha.
    + destruct (M.resetTime r <? t).
      * simpl. repeat split; auto. left. rewrite !lookup_insert_eq. reflexivity.
      * destruct (M.maxRequests a <=? M.count r); simpl.
        -- repeat split; auto. left. congruence.
        -- repeat split; auto. left. rewrite !lookup_insert_eq. reflexivity.
    + simpl. repeat split; auto. left. rewrite !lookup_insert_eq. reflexivity.
  - rewrite Hnone, Hsome, <- Hwin.
    inversion Hout as [| ? ? Ht Hrest]; subst.
    apply Z.ltb_lt in Ht. rewrite Ht. simpl.
    repeat split; auto. left. rewrite !lookup_insert_eq. reflexivity.
Qed.

Lemma checks_alike (key : string) (times : list Z) :
  forall a b : M.Limiter,
    alike key times a b ->
    fst (M.checks key times a) = fst (M.checks key times b).
Proof.
  induction times as [| t times IH]; intros a b Hab; [reflexivity |].
  destruct (check_alike key t times a b Hab) as [Hfst Hnext].
  simpl. specialize (IH _ _ Hnext).
  destruct (M.check key t a) as [x a'], (M.check key t b) as [y b'].
  simpl in *.
  destruct (M.checks key times a') as [xs a''],
           (M.checks key times b') as [ys b''].
  simpl in *. congruence.
Qed.

(** X20.  [cleanup] drops exactly the records whose window has run out
    and keeps the others as they are; and it is invisible to the callers:
    the calls made from the time of the clean-up on get the answers they
    would have got without it. *)
Theorem cleanup_is_invisible (this : M.Limiter) (now : Z) (key : string)
  (times : list Z) :
  Forall (fun t => now <= t) times ->
  (forall (k : string) (r : M.LimitRecord),
     M.limitMap (M.cleanup now this) !! k = Some r <->
     M.limitMap this !! k = Some r /\ now <= M.resetTime r) /\
  fst (M.checks key times (M.cleanup now this))
  = fst (M.checks key times this).
Proof.
  intros Hlater.
  assert (forall (k : string) (r : M.LimitRecord),
            M.limitMap (M.cleanup now this) !! k = Some r <->
            M.limitMap this !! k = Some r /\ now <= M.resetTime r) as Hkeeps.
  { intros k r. unfold M.cleanup. simpl.
    rewrite map_lookup_filter_Some. simpl. split; intros [H1 H2]; split; auto; lia. }
  split; [exact Hkeeps |].
  apply checks_alike. unfold alike. split; [reflexivity |]. split; [reflexivity |].
  destruct (M.limitMap this !! key) as [r |] eqn:Hr.
  - destruct (Z_le_gt_dec now (M.resetTime r)) as [Hle | Hgt].
    + left. apply Hkeeps. auto.
    + right. split.
      * destruct (M.limitMap (M.cleanup now this) !! key) as [r' |] eqn:Hr';
          [| reflexivity].
        apply Hkeeps in Hr'. destruct Hr' as [Hr' Hle]. exfalso.
        assert (r' = r) by congruence. subst. lia.
      * exists r. split; [reflexivity |].
        eapply List.Forall_impl; [| exact Hlater]. simpl. intros t Ht. lia.
  - left. destruct (M.limitMap (M.cleanup now this) !! key) as [r' |] eqn:Hr';
      [| reflexivity].
    apply Hkeeps in Hr'. destruct Hr' as [Hr' _]. congruence.
Qed.

Lemma checks_elsewhere (other key : string) (others : list Z) :
  other <> key ->
  forall this : M.Limiter,
    let this' := snd (M.checks other others this) in
    M.maxRequests this' = M.maxRequests this /\
    M.windowMs this' = M.windowMs this /\
    M.limitMap this' !! key = M.limitMap this !! key.
Proof.
  intros Hne. induction others as [| t others IH]; intros this; simpl.
  - auto.
  - assert (M.maxRequests (snd (M.check other t this)) = M.maxRequests this /\
            M.windowMs (snd (M.check other t this)) = M.windowMs this /\
            M.limitMap (snd (M.check other t this)) !! key
            = M.limitMap this !! key) as (H1 & H2 & H3).
    { unfold M.check.
      destruct (M.limitMap this !! other) as [r |].
      - destruct (M.resetTime r <? t); simpl.
        + repeat split. apply lookup_insert_ne, Hne.
        + destruct (M.maxRequests this <=? M.count r); simpl.
          * repeat split.
          * repeat split. apply lookup_insert_ne, Hne.
      - simpl. repeat split. apply lookup_insert_ne, Hne. }
    specialize (IH (snd (M.check other t this))). simpl in IH.
    destruct (M.check other t this) as [x this1]. simpl in *.
    destruct (M.checks other others this1) as [xs this2]. simpl in *.
    destruct IH as (I1 & I2 & I3). repeat split; congruence.
Qed.

(** X21.  The callers of the local limiter do not affect one another:
    whatever calls are made for another key, and however many of them are
    refused, the answers to the calls for [key] are the same. *)
Theorem callers_are_independent (this : M.Limiter) (key other : string)
  (times others : list Z) :
  other <> key ->
  fst (M.checks key times (snd (M.checks other others this)))
  = fst (M.checks key times this).
Proof.
  intros Hne. apply checks_alike.
  destruct (checks_elsewhere other key others Hne this) as (H1 & H2 & H3).
  unfold alike. auto.
Qed.

(** *** At concrete inputs *)

Import MoreExamples.

Lemma cleanup_is_invisible_witness :
  fst (M.checks "ip-1" [200; 250] (M.cleanup 200 stale))
  = fst (M.checks "ip-1" [200; 250] stale).
Proof.
  apply (cleanup_is_invisible stale 200 "ip-1" [200; 250]).
  repeat constructor; lia.
Defined.

Lemma callers_are_independent_witness :
  fst (M.checks "ip-1" [0; 1]
         (snd (M.checks "ip-2" [0; 0; 0; 0] (M.create 3 60000))))
  = fst (M.checks "ip-1" [0; 1] (M.create 3 60000)).
Proof.
  apply (callers_are_independent (M.create 3 60000) "ip-1" "ip-2"
           [0; 1] [0; 0; 0; 0]).
  discriminate.
Defined.

End LocalFacts.

(** ** The distributed limiter when [EXPIRE] fails *)

Module SharedFailureFacts.

Import LimiterSpec LimiterPairs JsFacts LimiterFacts.
Import (hints) RedisRateLimiter.

(** A call for a key whose counter has no deadline. *)
Lemma shared_counting_unbounded (this : R.Limiter) (key : string)
  (w : R.Server) (c : Z) :
  quiet (R.faults w) = true ->
  R.keys w !! R.redisKeyOf this key = Some (counting c None) ->
  1 <= c ->
  exists w',
    R.check this key w = (Returned (c + 1 <=? R.maxRequests this), w') /\
    quiet (R.faults w') = true /\
    R.keys w' !! R.redisKeyOf this key = Some (counting (c + 1) None).
Proof.
  intros Hq Hkey Hc. unfold R.check, bind, R.incr.
  run_server_command Hq Hq1.
  rewrite lookupLive_settle.
  assert (R.lookupLive (R.redisKeyOf this key) w = Some (counting c None)) as ->.
  { unfold R.lookupLive. rewrite Hkey. reflexivity. }
  change (R.value (counting c None)) with c.
  change (R.deadline (counting c None)) with (@None Z).
  change (R.value {| R.value := c + 1; R.deadline := None |}) with (c + 1).
  assert ((c + 1 =? 1) = false) as -> by (apply Z.eqb_neq; lia).
  unfold ret. eexists. split; [reflexivity |]. simpl. split; [exact Hq1 |].
  apply lookup_insert_eq.
Qed.

Lemma shared_unbounded_run (this : R.Limiter) (key : string) (times : list Z) :
  forall (w : R.Server) (c : Z),
    quiet (R.faults w) = true ->
    R.keys w !! R.redisKeyOf this key = Some (counting c None) ->
    1 <= c ->
    outcome (R.checks this key times w)
    = Returned (countedFrom c (R.maxRequests this) (length times)).
Proof.
  induction times as [| t times IH]; intros w c Hq Hkey Hc.
  - reflexivity.
  - simpl R.checks. unfold bind at 1. unfold modify.
    assert (quiet (R.faults (R.setClock t w)) = true) as Hq0 by exact Hq.
    assert (R.keys (R.setClock t w) !! R.redisKeyOf this key
            = Some (counting c None)) as Hkey0 by exact Hkey.
    destruct (shared_counting_unbounded this key (R.setClock t w) c Hq0 Hkey0 Hc)
      as (w1 & E1 & Hq1 & Hkey1).
    unfold bind at 1. rewrite E1.
    specialize (IH w1 (c + 1) Hq1 Hkey1 ltac:(lia)).
    unfold bind, outcome in *.
    destruct (R.checks this key times w1) as [[l | e] w2]; simpl in IH;
      [| discriminate].
    injection IH as ->. unfold ret. simpl. f_equal.
    unfold countedFrom.
    change (seq 0 (S (length times))) with (0%nat :: seq 1 (length times)).
    rewrite <- seq_shift. cbn [map]. rewrite map_map. f_equal.
    + f_equal. lia.
    + apply map_ext. intros i. f_equal. lia.
Qed.

(** X22.  When the [INCR] of the first call for a key succeeds and its
    [EXPIRE] fails, [check] throws, and the counter stays behind without a
    deadline: no later call sets one, so the window never ends.  The [i]-th
    later call is let through only while [i + 2 <= maxRequests], however
    long the caller waits. *)
Theorem failed_expire_never_resets (this : R.Limiter) (key : string)
  (w : R.Server) (message : string) (rest : list (option string))
  (times : list Z) :
  R.faults w = None :: Some message :: rest ->
  R.lookupLive (R.redisKeyOf this key) w = None ->
  quiet rest = true ->
  let run := R.check this key w in
  outcome run = Thrown message /\
  R.keys (world run) !! R.redisKeyOf this key = Some (counting 1 None) /\
  outcome (R.checks this key times (world run))
  = Returned (countedFrom 1 (R.maxRequests this) (length times)).
Proof.
  intros Hf Hdead Hq. cbv zeta.
  assert (R.check this key w
          = (Thrown message,
             R.setFaults rest
               (R.addAction RedisCommand
                  (R.setFaults (Some message :: rest)
                     (R.setKeys (<[R.redisKeyOf this key := counting 1 None]>
                                   (R.keys w))
                        (R.addAction RedisCommand w)))))) as Hrun.
  { unfold R.check, bind, R.incr, R.expire, command. simpl. rewrite Hf.
    assert (R.lookupLive (R.redisKeyOf this key)
              (R.setFaults (Some message :: rest) (R.addAction RedisCommand w))
            = None) as -> by exact Hdead.
    reflexivity. }
  rewrite Hrun. unfold outcome, world. simpl.
  split; [reflexivity |]. split; [apply lookup_insert_eq |].
  apply shared_unbounded_run with (c := 1);
    [exact Hq | apply lookup_insert_eq | lia].
Qed.

(** *** At concrete inputs *)

Import MoreExamples.

Lemma failed_expire_never_resets_witness :
  let run := R.check R.redisChatLimiter "ip-1" flaky in
  outcome run = Thrown "ECONNRESET" /\
  outcome (R.checks R.redisChatLimiter "ip-1" [1; 2; 86400000] (world run))
  = Returned [true; true; false].
Proof.
  destruct (failed_expire_never_resets R.redisChatLimiter
              "ip-1" flaky "ECONNRESET" [] [1; 2; 86400000] eq_refl eq_refl
              eq_refl) as (Hout & _ & Hlater).
  exact (conj Hout Hlater).
Defined.

End SharedFailureFacts.

(** ** The callers of the distributed limiter *)

Module SharedCallersFacts.

Import LimiterSpec JsFacts LimiterFacts.
Import (hints) RedisRateLimiter.

Lemma append_inj (prefix a b : string) :
  (prefix ++ a)%string = (prefix ++ b)%string -> a = b.
Proof.
  induction prefix as [| x prefix IH]; [auto |].
  change (String x (prefix ++ a) = String x (prefix ++ b) -> a = b).
  intros [= H]. auto.
Qed.

Lemma redisKeyOf_inj (this : R.Limiter) (a b : string) :
  R.redisKeyOf this a = R.redisKeyOf this b -> a = b.
Proof.
  unfold R.redisKeyOf. intros H. apply append_inj in H.
  apply (append_inj ":") in H. exact H.
Qed.

(** One call when nothing fails: what it answers and what it leaves under
    its own key depend on the counter of that key and on the clock only,
    and the other keys are left as they were. *)
Lemma shared_check_run (this : R.Limiter) (key : string) (w : R.Server) :
  quiet (R.faults w) = true ->
  exists (allowed : bool) (left : option R.Counter) (w' : R.Server),
    R.check this key w = (Returned allowed, w') /\
    quiet (R.faults w') = true /\ R.clock w' = R.clock w /\
    R.keys w' !! R.redisKeyOf this key = left /\
    (forall k, k <> R.redisKeyOf this key -> R.keys w' !! k = R.keys w !! k) /\
    forall v : R.Server,
      quiet (R.faults v) = true -> R.clock v = R.clock w ->
      R.keys v !! R.redisKeyOf this key = R.keys w !! R.redisKeyOf this key ->
      exists v',
        R.check this key v = (Returned allowed, v') /\
        R.keys v' !! R.redisKeyOf this key = left.
Proof.
  intros Hq.
  set (rk := R.redisKeyOf this key).
  assert (forall u : R.Server,
            quiet (R.faults u) = true ->
            exists u',
              R.check this key u
              = (Returned
                   (R.value
                      match R.lookupLive rk u with
                      | Some c => {| R.value := R.value c + 1;
                                     R.deadline := R.deadline c |}
                      | None => {| R.value := 1; R.deadline := None |}
                      end <=? R.maxRequests this), u') /\
              quiet (R.faults u') = true /\ R.clock u' = R.clock u /\
              (forall k, k <> rk -> R.keys u' !! k = R.keys u !! k) /\
              R.keys u' !! rk
              = match R.lookupLive rk u with
                | Some c =>
                    if R.value c + 1 =? 1 then
                      if R.windowSec this <=? 0 then None
                      else Some {| R.value := R.value c + 1;
                                   R.deadline :=
                                     Some (R.clock u + 1000 * R.windowSec this) |}
                    else Some {| R.value := R.value c + 1;
                                 R.deadline := R.deadline c |}
                | None =>
                    if R.windowSec this <=? 0 then None
                    else Some {| R.value := 1;
                                 R.deadline :=
                                   Some (R.clock u + 1000 * R.windowSec this) |}
                end) as Hrun.
  { intros u Hu. unfold R.check, bind, R.incr. fold rk.
    run_server_command Hu Hu1.
    rewrite lookupLive_settle.
    destruct (server_settle_same u) as [Hk Hc].
    set (c := match R.lookupLive rk u with
              | Some c => {| R.value := R.value c + 1; R.deadline := R.deadline c |}
              | None => {| R.value := 1; R.deadline := None |}
              end).
    set (u1 := R.setKeys (<[rk := c]> (R.keys (settle u))) (settle u)).
    assert (quiet (R.faults u1) = true) as Hu1' by exact Hu1.
    destruct (R.value c =? 1) eqn:Hone.
    - unfold R.expire. run_server_command Hu1' Hu2. unfold modify.
      destruct (server_settle_same u1) as [Hk1 Hc1].
      assert (R.lookupLive rk (settle u1) = Some c) as Hlive.
      { unfold R.lookupLive. rewrite Hk1, Hc1. unfold u1. simpl.
        rewrite lookup_insert_eq. rewrite Hc. unfold c, R.lookupLive.
        destruct (R.keys u !! rk) as [c0 |]; [| reflexivity].
        destruct (R.deadline c0) as [d |] eqn:Hd; [| simpl; rewrite Hd; reflexivity].
        destruct (d <? R.clock u) eqn:Hlt; [reflexivity |].
        simpl. rewrite Hd, Hlt. reflexivity. }
      rewrite Hlive.
      assert (R.keys (settle u1) = <[rk := c]> (R.keys u)) as Hkeys.
      { rewrite Hk1. unfold u1. simpl. rewrite Hk. reflexivity. }
      assert (R.clock (settle u1) = R.clock u) as Hclock.
      { rewrite Hc1. unfold u1. simpl. exact Hc. }
      destruct (R.windowSec this <=? 0) eqn:Hsec; simpl;
        eexists; (split; [reflexivity |]); simpl;
        (split; [exact Hu2 |]); (split; [exact Hclock |]); rewrite Hkeys.
      + split.
        * intros k Hk'. rewrite lookup_delete_ne by congruence.
          apply lookup_insert_ne. congruence.
        * rewrite lookup_delete_eq. unfold c in Hone |- *.
          destruct (R.lookupLive rk u) as [c0 |]; simpl in Hone |- *;
            [rewrite Hone |]; reflexivity.
      + split.
        * intros k Hk'. rewrite lookup_insert_ne by congruence.
          apply lookup_insert_ne. congruence.
        * rewrite lookup_insert_eq. rewrite Hclock. unfold c in Hone |- *.
          destruct (R.lookupLive rk u) as [c0 |]; simpl in Hone |- *;
            [rewrite Hone |]; reflexivity.
    - unfold ret. eexists. split; [reflexivity |]. simpl.
      split; [exact Hu1 |]. split; [exact Hc |]. rewrite Hk. split.
      + intros k Hk'. apply lookup_insert_ne. congruence.
      + rewrite lookup_insert_eq. unfold c in Hone |- *.
        destruct (R.lookupLive rk u) as [c0 |]; simpl in Hone |- *;
          [rewrite Hone; reflexivity | discriminate]. }
  destruct (Hrun w Hq) as (w' & E & Hq' & Hc' & Hothers & Hleft).
  do 3 eexists. split; [exact E |]. split; [exact Hq' |]. split; [exact Hc' |].
  split; [exact Hleft |]. split; [exact Hothers |].
  intros v Hv Hclock Hsame.
  destruct (Hrun v Hv) as (v' & Ev & _ & _ & _ & Hvleft).
  assert (R.lookupLive rk v = R.lookupLive rk w) as Hlive.
  { unfold R.lookupLive. fold rk in Hsame. rewrite Hsame, Hclock. reflexivity. }
  rewrite Hlive in Ev, Hvleft. rewrite Hclock in Hvleft.
  exists v'. split; [exact Ev | exact Hvleft].
Qed.

Lemma shared_checks_cons (this : R.Limiter) (key : string) (t : Z)
  (times : list Z) (w : R.Server) :
  R.checks this key (t :: times) w
  = match R.check this key (R.setClock t w) with
    | (Returned allowed, w1) =>
        match R.checks this key times w1 with
        | (Returned others, w2) => (Returned (allowed :: others), w2)
        | (Thrown e, w2) => (Thrown e, w2)
        end
    | (Thrown e, w1) => (Thrown e, w1)
    end.
Proof.
  simpl R.checks. unfold bind, modify, ret.
  destruct (R.check this key (R.setClock t w)) as [[x | e] w1]; [| reflexivity].
  destruct (R.checks this key times w1) as [[l | e] w2]; reflexivity.
Qed.

Lemma shared_checks_elsewhere (this : R.Limiter) (other key : string)
  (others : list Z) :
  other <> key ->
  forall w : R.Server,
    quiet (R.faults w) = true ->
    exists (answers : list bool) (w' : R.Server),
      R.checks this other others w = (Returned answers, w') /\
      quiet (R.faults w') = true /\
      R.keys w' !! R.redisKeyOf this key = R.keys w !! R.redisKeyOf this key.
Proof.
  intros Hne. induction others as [| t others IH]; intros w Hq.
  - exists [], w. auto.
  - rewrite shared_checks_cons.
    assert (quiet (R.faults (R.setClock t w)) = true) as Hq0 by exact Hq.
    destruct (shared_check_run this other (R.setClock t w) Hq0)
      as (b & left & w1 & E1 & Hq1 & _ & _ & Hothers & _).
    rewrite E1.
    destruct (IH w1 Hq1) as (l & w2 & E2 & Hq2 & Hkeep).
    rewrite E2.
    exists (b :: l), w2. split; [reflexivity |]. split; [exact Hq2 |].
    rewrite Hkeep. apply (Hothers (R.redisKeyOf this key)).
    intros Heq. apply Hne. symmetry. apply (redisKeyOf_inj this), Heq.
Qed.

Lemma shared_checks_alike (this : R.Limiter) (key : string) (times : list Z) :
  forall a b : R.Server,
    quiet (R.faults a) = true -> quiet (R.faults b) = true ->
    R.keys a !! R.redisKeyOf this key = R.keys b !! R.redisKeyOf this key ->
    outcome (R.checks this key times a) = outcome (R.checks this key times b).
Proof.
  induction times as [| t times IH]; intros a b Ha Hb Hsame; [reflexivity |].
  rewrite !shared_checks_cons.
  assert (quiet (R.faults (R.setClock t a)) = true) as Ha0 by exact Ha.
  assert (quiet (R.faults (R.setClock t b)) = true) as Hb0 by exact Hb.
  destruct (shared_check_run this key (R.setClock t b) Hb0)
    as (x & left & b1 & Eb & Hb1 & _ & Hleft & _ & Hany).
  destruct (Hany (R.setClock t a) Ha0 eq_refl Hsame) as (a1 & Ea & Haleft).
  assert (quiet (R.faults a1) = true) as Ha1.
  { destruct (shared_check_run this key (R.setClock t a) Ha0)
      as (x' & left' & a1' & Ea' & Ha1' & _).
    congruence. }
  rewrite Ea, Eb.
  specialize (IH a1 b1 Ha1 Hb1 ltac:(congruence)).
  unfold outcome in *.
  destruct (R.checks this key times a1) as [[la | ea] a2],
           (R.checks this key times b1) as [[lb | eb] b2];
    simpl in *; congruence.
Qed.

(** X23.  The callers of the distributed limiter do not affect one
    another: when no Redis command fails, whatever calls are made for
    another key of the same limiter, the answers to the calls for [key] are
    the same. *)
Theorem shared_callers_are_independent (this : R.Limiter) (key other : string)
  (times others : list Z) (w : R.Server) :
  other <> key -> quiet (R.faults w) = true ->
  outcome (R.checks this key times (world (R.checks this other others w)))
  = outcome (R.checks this key times w).
Proof.
  intros Hne Hq.
  destruct (shared_checks_elsewhere this other key others Hne w Hq)
    as (l & w' & E & Hq' & Hkeep).
  rewrite E. unfold world. simpl snd.
  apply shared_checks_alike; assumption.
Qed.

(** *** At concrete inputs *)

Lemma shared_callers_are_independent_witness :
  outcome (R.checks R.redisChatLimiter "ip-1" [0; 1]
             (world (R.checks R.redisChatLimiter "ip-2" [0; 0; 0; 0] idleServer)))
  = outcome (R.checks R.redisChatLimiter "ip-1" [0; 1] idleServer).
Proof.
  apply (shared_callers_are_independent R.redisChatLimiter
           "ip-1" "ip-2" [0; 1] [0; 0; 0; 0] idleServer).
  - discriminate.
  - reflexivity.
Defined.

End SharedCallersFacts.
